(** * Cloud sync of the Roundtable guides: merge engine, provider and coordinator

    A shallow embedding of [docs/js/sync.js].

    Documents are the JSON trees that [$.jStorage] and the Drive file hold.
    An object is an association list in property-creation order with at most
    one binding per key, so equality of trees is equality of their
    [JSON.stringify] texts (keys that are array indices, which JavaScript
    puts first, are not told apart from the others).  Numbers are the
    integer-valued ones (dates in milliseconds, version counters), held as
    [Z]; the sums of the code are those of [Z] on the integers that
    JavaScript holds exactly, those below 2^53 in size.  A property read that
    yields [undefined] is [None].

    A run that would throw a [TypeError] (a property of [null], a property
    written on a primitive under ['use strict']), or that reaches a value of
    the wrong shape where JavaScript would coerce it (a string compared as a
    date, an array used as a profile table), or that goes through a table of
    items with a key that every object inherits ([toString], [__proto__],
    ...), has result [None]: the embedding says what the code does on the
    other runs.  In the table of profiles a name that every object inherits
    as a function is gone through as the code does; [__proto__] and [length]
    are not.

    The first part has the merge on trees, the download of the provider,
    the history and the coordinator, with its requests in flight; the second
    has the merge again on a store of objects with references, for what it
    writes; the third has the start of the module, the change hook of the
    checklist, the label of the last sync, and the provider with its token,
    its file id, its upload and the configuration it saves. *)

From Stdlib Require Import List Ascii String ZArith Bool Lia DecimalString.
Import ListNotations.
Local Open Scope string_scope.
Local Open Scope list_scope.
Local Open Scope Z_scope.

Declare Scope js_scope.
Delimit Scope js_scope with js.

Notation "x <- c ;; k" := (match c with Some x => k | None => None end)
  (at level 61, c at next level, right associativity) : js_scope.
Local Open Scope js_scope.

(* ===================================================================== *)
(** ** JSON values *)
(* ===================================================================== *)

Unset Elimination Schemes.
Inductive value : Type :=
| VNull
| VBool (b : bool)
| VNum (n : Z)
| VStr (s : string)
| VArr (l : list value)
| VObj (o : list (string * value)).
Set Elimination Schemes.

Definition obj : Type := list (string * value).

(** [o[k]] on an object: the binding of [k], [None] for [undefined]. *)
Fixpoint lookup {A : Type} (k : string) (o : list (string * A)) : option A :=
  match o with
  | [] => None
  | (k', v) :: o' => if String.eqb k k' then Some v else lookup k o'
  end.

(** [o[k] = v]: an existing property keeps its place, a new one goes last. *)
Fixpoint set_prop {A : Type} (k : string) (v : A) (o : list (string * A))
    : list (string * A) :=
  match o with
  | [] => [(k, v)]
  | (k', v') :: o' =>
      if String.eqb k k' then (k, v) :: o' else (k', v') :: set_prop k v o'
  end.

Definition keys {A : Type} (o : list (string * A)) : list string := map fst o.

(** JavaScript truthiness of a JSON value. *)
Definition truthy (v : value) : bool :=
  match v with
  | VNull => false
  | VBool b => b
  | VNum n => negb (n =? 0)
  | VStr s => negb (String.eqb s "")
  | VArr _ => true
  | VObj _ => true
  end.

(** [v.k] for a [v] that is not [null]: primitives and arrays have none of
    the properties read here. *)
Definition field (v : value) (k : string) : option value :=
  match v with
  | VObj o => lookup k o
  | _ => None
  end.

(** [x || {}] in a place where the result is enumerated and indexed. *)
Definition or_empty (x : option value) : option obj :=
  match x with
  | None => Some []
  | Some v =>
      if truthy v then match v with VObj o => Some o | _ => None end
      else Some []
  end.

(** [x || 0] in a place where the result is used as a number. *)
Definition or_zero (x : option value) : option Z :=
  match x with
  | None => Some 0
  | Some v =>
      if truthy v then match v with VNum n => Some n | _ => None end
      else Some 0
  end.

(** [(m && m.k) || 0] for [m = p.syncMeta] or [m = doc._syncMeta]. *)
Definition meta_num (m : option value) (k : string) : option Z :=
  match m with
  | None => Some 0
  | Some mv => if truthy mv then or_zero (field mv k) else Some 0
  end.

(** The names that every object inherits from [Object.prototype], and
    [length], by which [$.each] takes an object for an array: with such a name
    for a key, [k in o], [o[k]] and [o[k] = v] are not the test, the read and
    the write of an own property. *)
Definition reservedNames : list string :=
  ["constructor"; "hasOwnProperty"; "isPrototypeOf"; "propertyIsEnumerable";
   "toLocaleString"; "toString"; "valueOf"; "__proto__";
   "__defineGetter__"; "__defineSetter__"; "__lookupGetter__";
   "__lookupSetter__"; "length"].

Definition plain_name (k : string) : bool :=
  negb (existsb (String.eqb k) reservedNames).

(** The names made of decimal digits.  The array indices are among them,
    and those JavaScript lists before the other names of an object, in
    ascending order, whatever the order of creation. *)
Definition isDigit (c : ascii) : bool :=
  (48 <=? nat_of_ascii c)%nat && (nat_of_ascii c <=? 57)%nat.

Fixpoint digits (s : string) : bool :=
  match s with
  | EmptyString => true
  | String c s' => isDigit c && digits s'
  end.

Definition numeric (k : string) : bool := negb (String.eqb k "") && digits k.

(** The properties that [$.each] and [$.extend] go through, [for (k in o)];
    an object with a reserved name among its keys is not gone through
    here. *)
Definition enumerate {A : Type} (o : list (string * A))
    : option (list (string * A)) :=
  if forallb (fun kv => plain_name (fst kv)) o then Some o else None.

(** Those of the inherited names whose value is a function.  For such a
    name [k] and an object [o] without a property [k] of its own, [k in o] is
    true and [o[k]] is that function of [Object.prototype]; [__proto__] gives
    the prototype itself and is not among them. *)
Definition inheritedFunctions : list string :=
  ["constructor"; "hasOwnProperty"; "isPrototypeOf"; "propertyIsEnumerable";
   "toLocaleString"; "toString"; "valueOf";
   "__defineGetter__"; "__defineSetter__"; "__lookupGetter__";
   "__lookupSetter__"].

Definition inherited (k : string) : bool :=
  existsb (String.eqb k) inheritedFunctions.

(** The properties that [$.each(remoteProfs, ...)] goes through: a profile
    named after an inherited function is an own property like the others; a
    table with [__proto__] or [length] among its names is not gone through
    here. *)
Definition enumerateProfiles {A : Type} (o : list (string * A))
    : option (list (string * A)) :=
  if forallb (fun kv => plain_name (fst kv) || inherited (fst kv)) o
  then Some o else None.

(** [$.extend(target, src)]: every property of [src] assigned to [target]. *)
Definition extend (target src : obj) : option obj :=
  props <- enumerate src ;;
  Some (fold_left (fun t kv => set_prop (fst kv) (snd kv) t) props target).

(** [JSON.parse(JSON.stringify(v))]: the tree rebuilt node by node. *)
Fixpoint clone (v : value) : value :=
  match v with
  | VArr l => VArr (map clone l)
  | VObj o => VObj (map (fun kv => (fst kv, clone (snd kv))) o)
  | _ => v
  end.

(** Structural equality, the test [JSON.stringify(a) === JSON.stringify(b)]. *)
Fixpoint value_eqb (a b : value) : bool :=
  match a, b with
  | VNull, VNull => true
  | VBool x, VBool y => Bool.eqb x y
  | VNum x, VNum y => x =? y
  | VStr x, VStr y => String.eqb x y
  | VArr x, VArr y =>
      (fix go (x y : list value) : bool :=
         match x, y with
         | [], [] => true
         | a :: x', b :: y' => value_eqb a b && go x' y'
         | _, _ => false
         end) x y
  | VObj x, VObj y =>
      (fix go (x y : obj) : bool :=
         match x, y with
         | [], [] => true
         | (k, a) :: x', (k', b) :: y' =>
             String.eqb k k' && value_eqb a b && go x' y'
         | _, _ => false
         end) x y
  | _, _ => false
  end.

Fixpoint nodupb (l : list string) : bool :=
  match l with
  | [] => true
  | k :: l' => negb (existsb (String.eqb k) l') && nodupb l'
  end.

(** Objects as JavaScript has them: one binding per key, at every depth. *)
Fixpoint wf_value (v : value) : bool :=
  match v with
  | VArr l => forallb wf_value l
  | VObj o => nodupb (keys o) && forallb (fun kv => wf_value (snd kv)) o
  | _ => true
  end.

(* ===================================================================== *)
(** ** Field-level merge *)
(* ===================================================================== *)

Section Merge.

(** The storage key of the document, which is also the name of its profile
    table; an ordinary name, declared by the host page's scripts. *)
Variable profilesKey : string.

(** The body of the inner [$.each(rp.checklistData || {}, ...)]. *)
Definition mergeItem (localTs remoteTs : obj)
    (acc : obj * obj) (item : string * value) : option (obj * obj) :=
  let '(mergedData, mergedTs) := acc in
  let '(itemId, rVal) := item in
  rt <- or_zero (lookup itemId remoteTs) ;;
  lt <- or_zero (lookup itemId localTs) ;;
  if lt <? rt
  then Some (set_prop itemId rVal mergedData, set_prop itemId (VNum rt) mergedTs)
  else Some (mergedData, mergedTs).

(** A loop whose body may throw. *)
Fixpoint each {A B : Type} (f : A -> B -> option A) (l : list B) (a : A)
    : option A :=
  match l with
  | [] => Some a
  | x :: l' => a' <- f a x ;; each f l' a'
  end.

Definition nonMergeable : list string :=
  ["style"; "journey"; "hide_completed"; "collapsed"; "map_settings"].

(** [if (rp[k] !== undefined) lp[k] = rp[k]] *)
Definition takeField (rp : value) (lp : obj) (k : string) : obj :=
  match field rp k with
  | Some v => set_prop k v lp
  | None => lp
  end.

(** The body of the outer loop for a profile that both sides have:
    [lp] is the profile of the copy, [rp] the remote one. *)
Definition mergeProfile (lp rp : value) : option value :=
  match lp, rp with
  | _, VNull => None
  | VObj lo, _ =>
      localTs  <- or_empty (lookup "checklistTimestamps" lo) ;;
      remoteTs <- or_empty (field rp "checklistTimestamps") ;;
      ldata    <- or_empty (lookup "checklistData" lo) ;;
      mergedData <- extend [] ldata ;;
      mergedTs <- extend [] localTs ;;
      rdata    <- or_empty (field rp "checklistData") ;;
      items    <- enumerate rdata ;;
      acc <- each (mergeItem localTs remoteTs) items (mergedData, mergedTs) ;;
      let lo1 := set_prop "checklistData" (VObj (fst acc)) lo in
      let lo2 := set_prop "checklistTimestamps" (VObj (snd acc)) lo1 in
      lSyncAt <- meta_num (lookup "syncMeta" lo2) "lastSyncAt" ;;
      rSyncAt <- meta_num (field rp "syncMeta") "lastSyncAt" ;;
      if lSyncAt <? rSyncAt
      then Some (VObj (fold_left (takeField rp) nonMergeable lo2))
      else Some (VObj lo2)
  | _, _ => None
  end.

(** The body of [$.each(remoteProfs, ...)].  The test is
    [profileName in mergedProfs], which is also true of a name that
    [mergedProfs] has not and every object inherits as a function: [lp] is
    then that function, the body runs on it as on a profile without tables
    (it has none of the properties read, and the dates it may hold from an
    earlier merge change no result), its writes go to the function, which no
    document holds, and [mergedProfs] stays as it is. *)
Definition mergeEntry (mergedProfs : obj) (entry : string * value)
    : option obj :=
  let '(profileName, rp) := entry in
  match lookup profileName mergedProfs with
  | None =>
      if inherited profileName
      then lp' <- mergeProfile (VObj []) rp ;; Some mergedProfs
      else Some (set_prop profileName rp mergedProfs)
  | Some lp =>
      lp' <- mergeProfile lp rp ;;
      Some (set_prop profileName lp' mergedProfs)
  end.

Definition mergeProfiles (local remote : value) : option value :=
  if negb (truthy remote) then Some local
  else
    match clone local with
    | VObj merged =>
        remoteProfs <- or_empty (field remote profilesKey) ;;
        mergedProfs <- or_empty (lookup profilesKey merged) ;;
        entries <- enumerateProfiles remoteProfs ;;
        mergedProfs' <- each mergeEntry entries mergedProfs ;;
        Some (VObj (set_prop profilesKey (VObj mergedProfs') merged))
    | _ => None
    end.

(** Readers used to state what the merge does: the profile table of a
    document, [(d && d[profilesKey]) || {}], one profile of it, and one
    item and one date of a profile. *)
Definition profilesOf (d : value) : option obj :=
  or_empty (field d profilesKey).

Definition profileOf (d : value) (name : string) : option value :=
  ps <- profilesOf d ;; lookup name ps.

Definition itemOf (p : value) (itemId : string) : option value :=
  data <- or_empty (field p "checklistData") ;; lookup itemId data.

Definition stampOf (p : value) (itemId : string) : option value :=
  ts <- or_empty (field p "checklistTimestamps") ;; lookup itemId ts.

Definition syncAtOf (p : value) : option Z :=
  meta_num (field p "syncMeta") "lastSyncAt".

Definition is_some {A : Type} (x : option A) : bool :=
  match x with Some _ => true | None => false end.

Definition plain {A : Type} (o : list (string * A)) : bool :=
  forallb (fun kv => plain_name (fst kv)) o.

(** Profiles that a merge with themselves leaves as they are: both tables
    are there, with plain names, and every date the merge reads is a
    number. *)
Definition settled_profile (p : value) : bool :=
  match p with
  | VObj po =>
      match lookup "checklistData" po, lookup "checklistTimestamps" po with
      | Some (VObj data), Some (VObj ts) =>
          plain data && plain ts
          && forallb (fun kv => is_some (or_zero (lookup (fst kv) ts))) data
          && is_some (syncAtOf p)
      | _, _ => false
      end
  | _ => false
  end.

(** Profiles and documents on which the merge returns: the tables that
    are there are objects with plain names, the dates are numbers or absent,
    and a profile is an object. *)
Definition shaped_profile (p : value) : bool :=
  match p with
  | VObj po =>
      match or_empty (lookup "checklistData" po),
            or_empty (lookup "checklistTimestamps" po) with
      | Some data, Some ts =>
          plain data && plain ts
          && forallb (fun kv => is_some (or_zero (Some (snd kv)))) ts
          && is_some (syncAtOf p)
      | _, _ => false
      end
  | _ => false
  end.

Definition shaped (d : value) : bool :=
  match d with
  | VObj o =>
      match or_empty (lookup profilesKey o) with
      | Some ps => plain ps && forallb (fun kv => shaped_profile (snd kv)) ps
      | None => false
      end
  | _ => false
  end.

(** Documents that a merge with themselves leaves as they are: the profile
    table is there and every profile in it is settled. *)
Definition settled (d : value) : bool :=
  match field d profilesKey with
  | Some (VObj ps) =>
      forallb (fun kv => plain_name (fst kv) && settled_profile (snd kv)) ps
  | _ => false
  end.

End Merge.

(* ===================================================================== *)
(** ** The Google Drive provider: download *)
(* ===================================================================== *)

(** How a promise settles; [Failed msg] is a rejection with an error whose
    [message] is [msg]. *)
Inductive outcome (A : Type) : Type :=
| Resolved (a : A)
| Failed (msg : string).
Arguments Resolved {A} a.
Arguments Failed {A} msg.

(** What [fetch] hands to its [then]: the [ok] flag of the response and what
    [r.json()] makes of its body, [None] when the body is not JSON. *)
Record response : Type := Response { ok : bool; body : option value }.

(** How one authorised request ends: the token or the transport rejects, or
    Drive answers. *)
Inductive reply : Type :=
| Rejected (msg : string)
| Answered (r : response).

Section Provider.

(** The messages of the [SyntaxError] of [r.json()] and of the [TypeError]
    of a property read on [null]; the JavaScript engine words them. *)
Variables syntaxErrorMsg typeErrorMsg : string.

(** [_findFile]: the cached file id, or else the first id of the listing.
    [fileId] is [self.fileId], [VNull] while there is none; the result is
    what the promise settles with and [self.fileId] afterwards.  A listing
    whose [files] is not an array is one without files. *)
Definition findFile (fileId : value) (listing : reply) : outcome value :=
  if truthy fileId then Resolved fileId
  else
    match listing with
    | Rejected msg => Failed msg
    | Answered r =>
        match body r with
        | None => Failed syntaxErrorMsg
        | Some VNull => Failed typeErrorMsg
        | Some data =>
            match field data "files" with
            | Some (VArr (VNull :: _)) => Failed typeErrorMsg
            | Some (VArr (f :: _)) =>
                Resolved (match field f "id" with Some i => i | None => VNull end)
            | _ => Resolved fileId
            end
        end
    end.

(** [pull]; a resolved [VNull] is the [null] of JavaScript. *)
Definition pull (fileId : value) (listing media : reply) : outcome value :=
  match findFile fileId listing with
  | Failed msg => Failed msg
  | Resolved fid =>
      if negb (truthy fid) then Resolved VNull
      else
        match media with
        | Rejected msg => Failed msg
        | Answered r =>
            if negb (ok r) then Resolved VNull
            else match body r with
                 | Some v => Resolved v
                 | None => Failed syntaxErrorMsg
                 end
        end
  end.

End Provider.

(** The Drive side of a download, to say when a remote object exists: the
    file of the application folder, if there is one, and the state of the
    service at each of the two requests. *)
Record driveFile : Type := DriveFile { fileName : string; content : value }.

Inductive service : Type :=
| Up
| ErrorStatus (error : value)
| Down (msg : string).

Definition serveListing (file : option driveFile) (s : service) : reply :=
  match s with
  | Up =>
      Answered (Response true (Some (VObj [("files", VArr
        match file with
        | Some f => [VObj [("id", VStr (fileName f))]]
        | None => []
        end)])))
  | ErrorStatus e => Answered (Response false (Some (VObj [("error", e)])))
  | Down msg => Rejected msg
  end.

Definition serveMedia (file : option driveFile) (s : service) : reply :=
  match s with
  | Up =>
      match file with
      | Some f => Answered (Response true (Some (content f)))
      | None => Answered (Response false (Some (VObj [("error", VStr "notFound")])))
      end
  | ErrorStatus e => Answered (Response false (Some (VObj [("error", e)])))
  | Down msg => Rejected msg
  end.

(* ===================================================================== *)
(** ** Version history *)
(* ===================================================================== *)

Definition MAX_HISTORY : nat := 10.

(** One entry of the history; [data] stands for the text
    [JSON.stringify(data)]. *)
Record snapshot : Type := Snapshot { timestamp : Z; data : value }.

(** [saveVersionSnapshot], on the list that [_loadHistory] reads and
    [localStorage.setItem] writes back. *)
Definition saveVersionSnapshot (now : Z) (d : value) (history : list snapshot)
    : list snapshot :=
  let history := Snapshot now d :: history in
  if (MAX_HISTORY <? List.length history)%nat then firstn MAX_HISTORY history
  else history.

(** The pushes of a run, oldest first, each with the clock reading of its
    snapshot, saved one after the other. *)
Definition savePushes (pushes : list (Z * value)) (h : list snapshot)
    : list snapshot :=
  fold_left (fun h p => saveVersionSnapshot (fst p) (snd p) h) pushes h.

Definition snapshotsOf (pushes : list (Z * value)) : list snapshot :=
  map (fun p => Snapshot (fst p) (snd p)) pushes.

(* ===================================================================== *)
(** ** The coordinator *)
(* ===================================================================== *)

Inductive syncState : Type := inactive | pending | syncing | synced | error.

Definition is_syncing (s : syncState) : bool :=
  match s with syncing => true | _ => false end.

(** A request that has been sent and has not settled, with what its
    [then] and [catch] have captured. *)
Inductive request : Type :=
| SyncPush (localData : value)
| Pull
| MergePush (merged : value) (dataChanged : bool).

(** The variables of the module, the document in [$.jStorage] ([None] before
    the first write), the history in [localStorage], the requests in flight
    and the calls of [onComplete], latest first. *)
Record coordinator : Type := Coordinator {
  activeProvider : bool;
  pendingChanges : bool;
  debounceTimer : bool;
  currentState : syncState;
  lastSyncTime : option Z;
  lastErrorMsg : string;
  stored : option value;
  history : list snapshot;
  inFlight : list request;
  completions : list bool
}.

Definition setState (s : syncState) (c : coordinator) : coordinator :=
  Coordinator (activeProvider c) (pendingChanges c) (debounceTimer c) s
    (lastSyncTime c) (lastErrorMsg c) (stored c) (history c) (inFlight c)
    (completions c).

Definition setProvider (b : bool) (c : coordinator) : coordinator :=
  Coordinator b (pendingChanges c) (debounceTimer c) (currentState c)
    (lastSyncTime c) (lastErrorMsg c) (stored c) (history c) (inFlight c)
    (completions c).

Definition setPending (b : bool) (c : coordinator) : coordinator :=
  Coordinator (activeProvider c) b (debounceTimer c) (currentState c)
    (lastSyncTime c) (lastErrorMsg c) (stored c) (history c) (inFlight c)
    (completions c).

Definition setDebounce (b : bool) (c : coordinator) : coordinator :=
  Coordinator (activeProvider c) (pendingChanges c) b (currentState c)
    (lastSyncTime c) (lastErrorMsg c) (stored c) (history c) (inFlight c)
    (completions c).

Definition setLastSyncTime (t : Z) (c : coordinator) : coordinator :=
  Coordinator (activeProvider c) (pendingChanges c) (debounceTimer c)
    (currentState c) (Some t) (lastErrorMsg c) (stored c) (history c)
    (inFlight c) (completions c).

Definition setLastErrorMsg (m : string) (c : coordinator) : coordinator :=
  Coordinator (activeProvider c) (pendingChanges c) (debounceTimer c)
    (currentState c) (lastSyncTime c) m (stored c) (history c) (inFlight c)
    (completions c).

Definition setStored (d : value) (c : coordinator) : coordinator :=
  Coordinator (activeProvider c) (pendingChanges c) (debounceTimer c)
    (currentState c) (lastSyncTime c) (lastErrorMsg c) (Some d) (history c)
    (inFlight c) (completions c).

Definition setHistory (h : list snapshot) (c : coordinator) : coordinator :=
  Coordinator (activeProvider c) (pendingChanges c) (debounceTimer c)
    (currentState c) (lastSyncTime c) (lastErrorMsg c) (stored c) h
    (inFlight c) (completions c).

Definition setInFlight (l : list request) (c : coordinator) : coordinator :=
  Coordinator (activeProvider c) (pendingChanges c) (debounceTimer c)
    (currentState c) (lastSyncTime c) (lastErrorMsg c) (stored c) (history c)
    l (completions c).

(** A call [onComplete(b)]. *)
Definition onComplete (b : bool) (c : coordinator) : coordinator :=
  Coordinator (activeProvider c) (pendingChanges c) (debounceTimer c)
    (currentState c) (lastSyncTime c) (lastErrorMsg c) (stored c) (history c)
    (inFlight c) (b :: completions c).

(** Modelled from the spec: the local store is read and overwritten as a
    whole value, [$.jStorage.get(profilesKey, {})] and
    [$.jStorage.set(profilesKey, d)]; jStorage itself is a library of the
    page. *)
Definition getLocal (c : coordinator) : value :=
  match stored c with Some d => d | None => VObj [] end.

(** [{ lastSyncAt: now, version: version }] *)
Definition syncMeta (now version : Z) : value :=
  VObj [("lastSyncAt", VNum now); ("version", VNum version)].

(** [d._syncMeta = m] *)
Definition setSyncMeta (m : value) (d : value) : option value :=
  match d with
  | VObj o => Some (VObj (set_prop "_syncMeta" m o))
  | _ => None
  end.

(** [(d._syncMeta && d._syncMeta.version) || 0], and the same for
    [lastSyncAt]. *)
Definition versionOf (d : value) : option Z :=
  meta_num (field d "_syncMeta") "version".

Definition lastSyncAtOf (d : value) : option Z :=
  meta_num (field d "_syncMeta") "lastSyncAt".

(** [err.message || fallback] *)
Definition messageOr (msg fallback : string) : string :=
  if String.eqb msg "" then fallback else msg.

Section Coordinator.

Variable profilesKey : string.

(** The message of the [TypeError] of [activeProvider.push] when
    [activeProvider] is [null]. *)
Variable typeErrorMsg : string.

(** [doSync]; the version it sends is [v + 1], which is the sum of the
    code for a version below 2^53 in size (from there on the sum of the code,
    on floating-point numbers, is no longer the sum of integers). *)
Definition doSync (now : Z) (c : coordinator) : option coordinator :=
  if negb (activeProvider c) || is_syncing (currentState c) then Some c
  else
    let c := setState syncing c in
    let localData := getLocal c in
    v <- versionOf localData ;;
    localData <- setSyncMeta (syncMeta now (v + 1)) localData ;;
    Some (setInFlight (inFlight c ++ [SyncPush localData]) c).

(** The [then] and the [catch] of the push of [doSync]. *)
Definition syncPushSettled (now : Z) (localData : value) (r : outcome value)
    (c : coordinator) : coordinator :=
  match r with
  | Resolved _ =>
      let c := setStored localData c in
      let c := setHistory (saveVersionSnapshot now localData (history c)) c in
      let c := setLastSyncTime now c in
      let c := setPending false c in
      setState synced c
  | Failed msg =>
      setState error (setLastErrorMsg (messageOr msg "Unknown error") c)
  end.

Definition doPullAndMerge (c : coordinator) : coordinator :=
  if negb (activeProvider c) then onComplete false c
  else
    let c := setState syncing c in
    setInFlight (inFlight c ++ [Pull]) c.

(** The [then] and the [catch] of the pull of [doPullAndMerge].  When the
    local document is the current one, [merged] is [localData] itself, so the
    two texts compared for [dataChanged] are one text.  The version is counted
    as in [doSync], for versions below 2^53 in size. *)
Definition pullSettled (now : Z) (r : outcome value) (c : coordinator)
    : option coordinator :=
  match r with
  | Failed msg =>
      Some (onComplete false
              (setState error
                 (setLastErrorMsg (messageOr msg "Could not reach cloud") c)))
  | Resolved remoteData =>
      if negb (truthy remoteData)
      then c <- doSync now c ;; Some (onComplete false c)
      else
        let localData := getLocal c in
        localSyncAt <- lastSyncAtOf localData ;;
        remoteSyncAt <- lastSyncAtOf remoteData ;;
        merged <- (if localSyncAt <? remoteSyncAt
                   then mergeProfiles profilesKey localData remoteData
                   else Some localData) ;;
        lv <- versionOf localData ;;
        rv <- versionOf remoteData ;;
        merged <- setSyncMeta (syncMeta now (Z.max lv rv + 1)) merged ;;
        let dataChanged :=
          if localSyncAt <? remoteSyncAt
          then negb (value_eqb merged localData) else false in
        let c := setStored merged c in
        if activeProvider c
        then Some (setInFlight (inFlight c ++ [MergePush merged dataChanged]) c)
        else Some (onComplete false
                     (setState error
                        (setLastErrorMsg
                           (messageOr typeErrorMsg "Could not reach cloud") c)))
  end.

(** The [then] and the [catch] of the push of [doPullAndMerge]. *)
Definition mergePushSettled (now : Z) (merged : value) (dataChanged : bool)
    (r : outcome value) (c : coordinator) : coordinator :=
  match r with
  | Resolved _ =>
      let c := setHistory (saveVersionSnapshot now merged (history c)) c in
      let c := setLastSyncTime now c in
      let c := setPending false c in
      onComplete dataChanged (setState synced c)
  | Failed msg =>
      onComplete false
        (setState error (setLastErrorMsg (messageOr msg "Unknown error") c))
  end.

Definition notifyChange (c : coordinator) : coordinator :=
  if negb (activeProvider c) then c
  else setDebounce true (setState pending (setPending true c)).

(** A write of the document by the page, seen by the wrapped
    [$.jStorage.set]. *)
Definition localWrite (d : value) (c : coordinator) : coordinator :=
  notifyChange (setStored d c).

Definition deactivate (c : coordinator) : coordinator :=
  setState inactive (setPending false (setProvider false (setDebounce false c))).

(** [_loadHistory], the [getHistory] of the public interface. *)
Definition getHistory (c : coordinator) : list snapshot := history c.

(** What can happen to the coordinator, with the clock reading where the
    code reads [Date.now()]; [Settle i r] settles the [i]-th request in
    flight with [r]. *)
Inductive event : Type :=
| LocalWrite (d : value)
| NotifyChange
| DebounceFires (now : Z)
| PeriodicTick (now : Z)
| SyncNow (now : Z)
| PullAndMerge
| Settle (i : nat) (r : outcome value) (now : Z)
| Deactivate.

Fixpoint remove_nth {A : Type} (i : nat) (l : list A) {struct l}
    : list A :=
  match l, i with
  | [], _ => []
  | _ :: l', O => l'
  | x :: l', S i' => x :: remove_nth i' l'
  end.

Definition step (c : coordinator) (e : event) : option coordinator :=
  match e with
  | LocalWrite d => Some (localWrite d c)
  | NotifyChange => Some (notifyChange c)
  | DebounceFires now =>
      if debounceTimer c then doSync now (setDebounce false c) else Some c
  | PeriodicTick now => if pendingChanges c then doSync now c else Some c
  | SyncNow now => doSync now c
  | PullAndMerge => Some (doPullAndMerge c)
  | Settle i r now =>
      match nth_error (inFlight c) i with
      | None => Some c
      | Some q =>
          let c := setInFlight (remove_nth i (inFlight c)) c in
          match q with
          | SyncPush localData => Some (syncPushSettled now localData r c)
          | Pull => pullSettled now r c
          | MergePush merged dataChanged =>
              Some (mergePushSettled now merged dataChanged r c)
          end
      end
  | Deactivate => Some (deactivate c)
  end.

Definition run (c : coordinator) (es : list event) : option coordinator :=
  each step es c.

End Coordinator.

(* ===================================================================== *)
(** ** The merge on a store of objects *)
(* ===================================================================== *)

(** The same [mergeProfiles], with the objects where JavaScript has them:
    in a store, reached by reference, written in place.  A computation takes
    the store and returns the store it leaves, with its result or, when it
    throws, with [None]. *)
Module Store.

Definition loc : Type := nat.

(** What a variable or a property holds. *)
Inductive jsval : Type :=
| JNull
| JBool (b : bool)
| JNum (n : Z)
| JStr (s : string)
| JRef (l : loc).

Inductive cell : Type :=
| CObj (props : list (string * jsval))
| CArr (elems : list jsval).

Definition store : Type := list cell.

Definition M (A : Type) : Type := store -> store * option A.

Definition ret {A : Type} (a : A) : M A := fun s => (s, Some a).

Definition throw {A : Type} : M A := fun s => (s, None).

Definition bind {A B : Type} (m : M A) (f : A -> M B) : M B :=
  fun s =>
    match m s with
    | (s', Some a) => f a s'
    | (s', None) => (s', None)
    end.

Declare Scope store_scope.
Delimit Scope store_scope with store.
Notation "x <- c ;; k" := (bind c (fun x => k))
  (at level 61, c at next level, right associativity) : store_scope.
Notation "c ;; k" := (bind c (fun _ => k))
  (at level 61, right associativity) : store_scope.
Local Open Scope store_scope.

Fixpoint update {A : Type} (l : nat) (x : A) (s : list A) {struct s}
    : list A :=
  match s, l with
  | [], _ => []
  | _ :: s', O => x :: s'
  | y :: s', S l' => y :: update l' x s'
  end.

Definition alloc (c : cell) : M loc := fun s => (s ++ [c], Some (List.length s)).

Definition readCell (l : loc) : M cell := fun s => (s, nth_error s l).

Definition writeCell (l : loc) (c : cell) : M unit :=
  fun s =>
    match nth_error s l with
    | Some _ => (update l c s, Some tt)
    | None => (s, None)
    end.

(** A loop whose body works on the store. *)
Fixpoint forEach {B : Type} (f : B -> M unit) (l : list B) : M unit :=
  match l with
  | [] => ret tt
  | x :: l' => f x ;; forEach f l'
  end.

Definition truthy (v : jsval) : bool :=
  match v with
  | JNull => false
  | JBool b => b
  | JNum n => negb (n =? 0)
  | JStr s => negb (String.eqb s "")
  | JRef _ => true
  end.

(** [v.k]; it throws on [null]. *)
Definition getProp (v : jsval) (k : string) : M (option jsval) :=
  match v with
  | JNull => throw
  | JRef l =>
      c <- readCell l ;;
      match c with
      | CObj props => ret (lookup k props)
      | CArr _ => ret None
      end
  | _ => ret None
  end.

(** [v.k = x]; it throws on [null] and, the script being strict, on a
    primitive. *)
Definition setProp (v : jsval) (k : string) (x : jsval) : M unit :=
  match v with
  | JRef l =>
      c <- readCell l ;;
      match c with
      | CObj props => writeCell l (CObj (set_prop k x props))
      | CArr _ => throw
      end
  | _ => throw
  end.

(** The own properties of the object at [l]. *)
Definition propsOf (l : loc) : M (list (string * jsval)) :=
  c <- readCell l ;;
  match c with
  | CObj props => ret props
  | CArr _ => throw
  end.

(** [for (k in o)] on the object at [l], as [enumerate] above; here the
    table of profiles too is gone through only when it has no reserved name. *)
Definition forIn (l : loc) : M (list (string * jsval)) :=
  props <- propsOf l ;;
  match enumerate props with
  | Some props => ret props
  | None => throw
  end.

(** [x || {}] in a place where the result is enumerated and indexed; the
    literal makes a new object, and an array is not taken for a table. *)
Definition or_empty (x : option jsval) : M loc :=
  match x with
  | Some (JRef l) =>
      c <- readCell l ;;
      match c with
      | CObj _ => ret l
      | CArr _ => throw
      end
  | Some v => if truthy v then throw else alloc (CObj [])
  | None => alloc (CObj [])
  end.

(** [x || 0] *)
Definition or_zero (x : option jsval) : M Z :=
  match x with
  | None => ret 0
  | Some v =>
      if truthy v then match v with JNum n => ret n | _ => throw end
      else ret 0
  end.

(** [(m && m.k) || 0] *)
Definition meta_num (m : option jsval) (k : string) : M Z :=
  match m with
  | None => ret 0
  | Some mv => if truthy mv then (x <- getProp mv k ;; or_zero x) else ret 0
  end.

(** [$.extend({}, src)] *)
Definition extend (src : loc) : M loc :=
  target <- alloc (CObj []) ;;
  props <- forIn src ;;
  forEach (fun kv => setProp (JRef target) (fst kv) (snd kv)) props ;;
  ret target.

(** [JSON.stringify]: the tree under [v].  A path of references longer
    than the store has cells goes through a cell twice, and
    [JSON.stringify] throws on a cycle. *)
Fixpoint reify (fuel : nat) (s : store) (v : jsval) : option value :=
  match v with
  | JNull => Some VNull
  | JBool b => Some (VBool b)
  | JNum n => Some (VNum n)
  | JStr x => Some (VStr x)
  | JRef l =>
      match fuel with
      | O => None
      | S fuel' =>
          match nth_error s l with
          | Some (CObj props) =>
              option_map VObj
                ((fix go (props : list (string * jsval)) : option obj :=
                    match props with
                    | [] => Some []
                    | (k, x) :: props' =>
                        match reify fuel' s x, go props' with
                        | Some t, Some ts => Some ((k, t) :: ts)
                        | _, _ => None
                        end
                    end) props)
          | Some (CArr elems) =>
              option_map VArr
                ((fix go (elems : list jsval) : option (list value) :=
                    match elems with
                    | [] => Some []
                    | x :: elems' =>
                        match reify fuel' s x, go elems' with
                        | Some t, Some ts => Some (t :: ts)
                        | _, _ => None
                        end
                    end) elems)
          | None => None
          end
      end
  end.

Definition stringify (v : jsval) : M value :=
  fun s => (s, reify (S (List.length s)) s v).

(** A list gone through from its head, with the results in order. *)
Definition mapM {A B : Type} (f : A -> M B) : list A -> M (list B) :=
  fix go (l : list A) : M (list B) :=
    match l with
    | [] => ret []
    | x :: l' => v <- f x ;; vs <- go l' ;; ret (v :: vs)
    end.

(** [JSON.parse]: new objects for the tree, children first. *)
Fixpoint parse (t : value) : M jsval :=
  match t with
  | VNull => ret JNull
  | VBool b => ret (JBool b)
  | VNum n => ret (JNum n)
  | VStr x => ret (JStr x)
  | VArr l =>
      elems <- mapM parse l ;;
      a <- alloc (CArr elems) ;;
      ret (JRef a)
  | VObj o =>
      props <- mapM (fun kx => v <- parse (snd kx) ;; ret (fst kx, v)) o ;;
      a <- alloc (CObj props) ;;
      ret (JRef a)
  end.

Section Merge.

Variable profilesKey : string.

(** The body of the inner loop; [mergedData] and [mergedTs] are the two
    objects made by [$.extend]. *)
Definition mergeItem (localTs remoteTs mergedData mergedTs : loc)
    (item : string * jsval) : M unit :=
  let '(itemId, rVal) := item in
  x <- getProp (JRef remoteTs) itemId ;;
  rt <- or_zero x ;;
  y <- getProp (JRef localTs) itemId ;;
  lt <- or_zero y ;;
  if lt <? rt
  then setProp (JRef mergedData) itemId rVal ;;
       setProp (JRef mergedTs) itemId (JNum rt)
  else ret tt.

(** [if (rp[k] !== undefined) lp[k] = rp[k]] *)
Definition takeField (lp rp : jsval) (k : string) : M unit :=
  x <- getProp rp k ;;
  match x with
  | Some v => setProp lp k v
  | None => ret tt
  end.

(** The body of the outer loop for a profile that both sides have. *)
Definition mergeProfile (lp rp : jsval) : M unit :=
  x <- getProp lp "checklistTimestamps" ;;
  localTs <- or_empty x ;;
  x <- getProp rp "checklistTimestamps" ;;
  remoteTs <- or_empty x ;;
  x <- getProp lp "checklistData" ;;
  ldata <- or_empty x ;;
  mergedData <- extend ldata ;;
  mergedTs <- extend localTs ;;
  x <- getProp rp "checklistData" ;;
  rdata <- or_empty x ;;
  items <- forIn rdata ;;
  forEach (mergeItem localTs remoteTs mergedData mergedTs) items ;;
  setProp lp "checklistData" (JRef mergedData) ;;
  setProp lp "checklistTimestamps" (JRef mergedTs) ;;
  x <- getProp lp "syncMeta" ;;
  lSyncAt <- meta_num x "lastSyncAt" ;;
  x <- getProp rp "syncMeta" ;;
  rSyncAt <- meta_num x "lastSyncAt" ;;
  if lSyncAt <? rSyncAt
  then forEach (takeField lp rp) nonMergeable
  else ret tt.

(** The body of [$.each(remoteProfs, ...)]. *)
Definition mergeEntry (mergedProfs : loc) (entry : string * jsval) : M unit :=
  let '(profileName, rp) := entry in
  props <- propsOf mergedProfs ;;
  match lookup profileName props with
  | None => setProp (JRef mergedProfs) profileName rp
  | Some lp => mergeProfile lp rp
  end.

Definition mergeProfiles (local remote : jsval) : M jsval :=
  if negb (truthy remote) then ret local
  else
    text <- stringify local ;;
    merged <- parse text ;;
    x <- getProp remote profilesKey ;;
    remoteProfs <- or_empty x ;;
    y <- (if truthy merged then getProp merged profilesKey else ret None) ;;
    mergedProfs <- or_empty y ;;
    entries <- forIn remoteProfs ;;
    forEach (mergeEntry mergedProfs) entries ;;
    setProp merged profilesKey (JRef mergedProfs) ;;
    ret merged.

End Merge.

(** Stores as JavaScript has them: a reference leads to a cell of the
    store, and an object has one binding per key. *)
Definition valid (n : nat) (v : jsval) : bool :=
  match v with
  | JRef l => (l <? n)%nat
  | _ => true
  end.

Definition wf_cell (n : nat) (c : cell) : bool :=
  match c with
  | CObj props => nodupb (keys props) && forallb (fun kv => valid n (snd kv)) props
  | CArr elems => forallb (valid n) elems
  end.

Definition wf_store (s : store) : bool := forallb (wf_cell (List.length s)) s.

(** What a run leaves alone: [keeps n U s s'] when the store [s'] has every
    cell of [s] and the cells below [n] that are in [U] are as in [s];
    [touches n U m Q] when the computation [m], started in a store of [n]
    cells or more, keeps them so and returns a result in [Q] if any. *)
Definition keeps (n : nat) (U : loc -> Prop) (s s' : store) : Prop :=
  (List.length s <= List.length s')%nat /\
  forall l, (l < n)%nat -> U l -> nth_error s' l = nth_error s l.

Definition touches {A : Type} (n : nat) (U : loc -> Prop) (m : M A)
    (Q : A -> Prop) : Prop :=
  forall s, (n <= List.length s)%nat ->
    keeps n U s (fst (m s)) /\ forall a, snd (m s) = Some a -> Q a.

Definition everywhere : loc -> Prop := fun _ => True.

(** The references that a cell holds. *)
Definition refOf (v : jsval) : list loc :=
  match v with JRef l => [l] | _ => [] end.

Definition refs (c : cell) : list loc :=
  match c with
  | CObj props => flat_map (fun kv => refOf (snd kv)) props
  | CArr elems => flat_map refOf elems
  end.

(** The cells that [JSON.parse] adds to a store [s]: each holds references
    to earlier cells only, none below [base]. *)
Definition grown (base : nat) (s s' : store) : Prop :=
  exists ext,
    s' = s ++ ext /\
    forall i c, nth_error ext i = Some c ->
      Forall (fun l => (base <= l < List.length s + i)%nat) (refs c).

(** What the merge leaves: the store [s0] of before the call as it was,
    and for result a reference to an object that [s0] has not. *)
Definition leaves_inputs (s0 : store) (r : store * option jsval) : Prop :=
  keeps (List.length s0) everywhere s0 (fst r) /\
  forall v, snd r = Some v -> exists m, v = JRef m /\ (List.length s0 <= m)%nat.

(** The table of merged profiles during the outer loop: it does not hold
    itself, and it holds an object from before the call only under a name
    that the loop has been through. *)
Definition adopted_only (n0 : nat) (mergedProfs : loc) (visited : list string)
    (s : store) : Prop :=
  forall props, nth_error s mergedProfs = Some (CObj props) ->
    forall k l, lookup k props = Some (JRef l) ->
      l <> mergedProfs /\ ((l < n0)%nat -> In k visited).

End Store.

(* ===================================================================== *)
(** ** The start of the module, and what its variables say together *)
(* ===================================================================== *)

(** The variables as the module declares them, with the provider that
    [init] makes when a configuration is saved, and with what the page has
    in [$.jStorage] and in the history. *)
Definition initial (hasProvider : bool) (d : option value) (h : list snapshot)
    : coordinator :=
  Coordinator hasProvider false false inactive None "" d h [] [].

(** The pending flag and the timer are set only with a provider, the state
    pending goes with the pending flag, and the state synced with a time of
    the last sync. *)
Definition coherent (c : coordinator) : bool :=
  implb (pendingChanges c) (activeProvider c)
  && implb (debounceTimer c) (activeProvider c)
  && implb (match currentState c with pending => true | _ => false end)
       (pendingChanges c)
  && implb (match currentState c with synced => true | _ => false end)
       (is_some (lastSyncTime c)).

(* ===================================================================== *)
(** ** The change hook of the checklist *)
(* ===================================================================== *)

(** The property name that [p.current] makes in [p[profilesKey][p.current]]:
    the string itself, and [undefined] when there is none; a name made from a
    number, a boolean or an object is not modelled. *)
Definition currentName (p : value) : option string :=
  match field p "current" with
  | None => Some "undefined"
  | Some (VStr s) => Some s
  | Some _ => None
  end.

(** [if (!prof.checklistTimestamps) prof.checklistTimestamps = {}] *)
Definition withStamps (fields : obj) : obj :=
  match lookup "checklistTimestamps" fields with
  | Some ts => if truthy ts then fields
               else set_prop "checklistTimestamps" (VObj []) fields
  | None => set_prop "checklistTimestamps" (VObj []) fields
  end.

Section Hooks.

Variable profilesKey : string.

(** The wrapper of [window.setItem], from [var p = $.jStorage.get(...)] to
    the write of [p]: the document it hands to [$.jStorage.set], [Some None]
    when the test of the current profile fails and nothing is written, and
    [None] when it throws (a property of [null], a property set on a number or
    a string) or leaves the fragment (an array or a string for a table, a
    reserved name). *)
Definition stampItem (now : Z) (id : string) (p : value)
    : option (option value) :=
  match p with
  | VNull => None
  | VObj po =>
      match lookup profilesKey po with
      | None => Some None
      | Some table =>
          if negb (truthy table) then Some None
          else
            match table with
            | VObj profs =>
                name <- currentName p ;;
                if negb (plain_name name) then None
                else
                  match lookup name profs with
                  | None => Some None
                  | Some prof =>
                      if negb (truthy prof) then Some None
                      else
                        match prof with
                        | VObj fields =>
                            let fields := withStamps fields in
                            match lookup "checklistTimestamps" fields with
                            | Some (VObj ts) =>
                                if plain_name id
                                then
                                  let ts := set_prop id (VNum now) ts in
                                  let fields :=
                                    set_prop "checklistTimestamps" (VObj ts) fields in
                                  let profs := set_prop name (VObj fields) profs in
                                  Some (Some (VObj (set_prop profilesKey (VObj profs) po)))
                                else None
                            | _ => None
                            end
                        | _ => None
                        end
                  end
            | VBool _ | VNum _ => Some None
            | _ => None
            end
      end
  | VBool _ | VNum _ => Some None
  | _ => None
  end.

(** The wrapper of [window.setItem] after the page's own [setItem] has
    returned: the stamp, written with [_internalWrite] set, and
    [notifyChange]. *)
Definition setItem (startup : bool) (now : Z) (id : string) (c : coordinator)
    : option coordinator :=
  if startup then Some c
  else
    w <- stampItem now id (getLocal c) ;;
    match w with
    | Some p => Some (notifyChange (setStored p c))
    | None => Some (notifyChange c)
    end.

End Hooks.

(* ===================================================================== *)
(** ** The label of the last sync *)
(* ===================================================================== *)

(** [String(n)] for an integer. *)
Definition numeral (n : Z) : string := NilZero.string_of_int (Z.to_int n).

(** [_timeAgo(ts)] at the time [now]; the times are integers, and
    [Math.floor] of their quotient is the quotient of [Z]. *)
Definition _timeAgo (now ts : Z) : string :=
  let d := now - ts in
  if d <? 60000 then "just now"
  else if d <? 3600000 then numeral (d / 60000) ++ " min ago"
  else if d <? 86400000 then numeral (d / 3600000) ++ " hr ago"
  else numeral (d / 86400000) ++ " days ago".

(** [syncConfig && syncConfig.provider], the test of [init] and, negated,
    of [updateOptionsUI]. *)
Definition configured (syncConfig : value) : bool :=
  truthy syncConfig
  && match field syncConfig "provider" with
     | Some p => truthy p
     | None => false
     end.

(** The text that [updateOptionsUI] gives to [#syncLastSyncTime], and
    [None] when it gives none: on a page without the panel of the options
    ([optionsPage] is [$('#syncInactive').length] not being 0), and while no
    provider is configured. *)
Definition lastSyncLabel (optionsPage : bool) (syncConfig : value) (now : Z)
    (c : coordinator) : option string :=
  if negb optionsPage then None
  else if negb (configured syncConfig) then None
  else
    Some (match lastSyncTime c with
          | Some t => if t =? 0 then "Not yet synced this session"
                      else ("Last sync: " ++ _timeAgo now t)%string
          | None => "Not yet synced this session"
          end).

(* ===================================================================== *)
(** ** The Google Drive provider: token, file id and upload *)
(* ===================================================================== *)

(** The provider with the fields it keeps and the saved configuration it
    writes to.  A method takes the state before and what the environment
    does at each request, and returns the state after, the calls of [fetch]
    it made and how its promise settles. *)
Module Drive.

Definition SYNC_FILE_NAME : string := "roundtable-sync.json".

(** The fields of a [GoogleDriveProvider]. *)
Record provider : Type := Provider {
  accessToken : value;
  tokenExpiry : value;
  fileId : value
}.

(** [x || d] *)
Definition or_else (d : value) (x : option value) : value :=
  match x with
  | Some v => if truthy v then v else d
  | None => d
  end.

(** [new GoogleDriveProvider(cfg)]; a property read on [null] throws. *)
Definition GoogleDriveProvider (cfg : value) : option provider :=
  match cfg with
  | VNull => None
  | _ =>
      Some (Provider (or_else VNull (field cfg "accessToken"))
                     (or_else (VNum 0) (field cfg "tokenExpiry"))
                     (or_else VNull (field cfg "fileId")))
  end.

(** An item of [localStorage]: the JSON text of a tree, or a text that
    [JSON.parse] refuses (the empty text, which [|| 'null'] replaces, is one
    of these: both load as [null]). *)
Inductive item : Type :=
| Json (v : value)
| NotJson.

(** The variable [syncConfig] and the item under [SYNC_CONFIG_KEY]. *)
Record config : Type := Config {
  syncConfig : value;
  localItem : option item
}.

Definition loadSyncConfig (c : config) : config :=
  Config (match localItem c with Some (Json v) => v | _ => VNull end)
         (localItem c).

Definition saveSyncConfig (c : config) : config :=
  Config (syncConfig c) (Some (Json (syncConfig c))).

Definition clearSyncConfig (c : config) : config := Config VNull None.

(** [syncConfig.k = v]: [Some None] is the [TypeError] on [null]; a
    configuration that is no object and not [null] is not modelled. *)
Definition assign (k : string) (v : value) (c : config)
    : option (option config) :=
  match syncConfig c with
  | VObj props => Some (Some (Config (VObj (set_prop k v props)) (localItem c)))
  | VNull => Some None
  | _ => None
  end.

(** An object literal without the properties whose value is [undefined],
    which [JSON.stringify] leaves out and every read here takes for absent. *)
Definition defined (l : list (string * option value)) : obj :=
  flat_map (fun kv => match snd kv with Some v => [(fst kv, v)] | None => [] end) l.

Record session : Type := Session {
  self : provider;
  conf : config
}.

(** What the token client hands to its callback. *)
Record tokenResponse : Type := TokenResponse {
  error : string;
  access_token : string;
  expires_in : Z
}.

(** Google Identity Services at one request for a token: the script does
    not load, or the callback is called, at the time [when]. *)
Inductive gis : Type :=
| ScriptFails
| Responds (when : Z) (resp : tokenResponse).

(** What the environment does at one [_fetch]: the clock when it is
    called, the token client if it is asked, and the network. *)
Record exchange : Type := Exchange {
  clock : Z;
  consent : gis;
  net : reply
}.

(** The body of the upload, [boundary] around the two JSON texts. *)
Record multipart : Type := Multipart {
  boundary : string;
  metadata : value;
  media : value
}.

(** A call [fetch(url, opts)]: [opts.method] and the Content-Type of
    [opts.headers] when they are given, the Authorization header, and the
    body. *)
Record call : Type := Call {
  url : string;
  method : option string;
  contentType : option string;
  authorization : string;
  payload : option multipart
}.

Record result (A : Type) : Type := Result {
  after : session;
  calls : list call;
  settled : outcome A
}.
Arguments Result {A} after calls settled.
Arguments after {A} r.
Arguments calls {A} r.
Arguments settled {A} r.

Definition _tokenValid (now : Z) (p : provider) : option bool :=
  if truthy (accessToken p)
  then match tokenExpiry p with
       | VNum e => Some (now <? e - 60000)
       | _ => None
       end
  else Some false.

(** [_getToken(forcePrompt)].  [None] when the token in hand is no string,
    and when the callback throws on a configuration that is [null], which
    leaves the promise unsettled. *)
Definition _getToken (forcePrompt : bool) (x : exchange) (d : session)
    : option (session * outcome string) :=
  valid <- (if forcePrompt then Some false else _tokenValid (clock x) (self d)) ;;
  if (valid : bool)
  then match accessToken (self d) with
       | VStr token => Some (d, Resolved token)
       | _ => None
       end
  else
    match consent x with
    | ScriptFails => Some (d, Failed "Failed to load Google Identity Services")
    | Responds when resp =>
        if negb (String.eqb (error resp) "") then Some (d, Failed (error resp))
        else
          let token := VStr (access_token resp) in
          let expiry := VNum (when + expires_in resp * 1000) in
          c1 <- assign "accessToken" token (conf d) ;;
          c1 <- c1 ;;
          c2 <- assign "tokenExpiry" expiry c1 ;;
          c2 <- c2 ;;
          Some (Session (Provider token expiry (fileId (self d)))
                        (saveSyncConfig c2),
                Resolved (access_token resp))
    end.

Definition _fetch (url : string) (method contentType : option string)
    (payload : option multipart) (x : exchange) (d : session)
    : option (result response) :=
  t <- _getToken false x d ;;
  match snd t with
  | Failed msg => Some (Result (fst t) [] (Failed msg))
  | Resolved token =>
      Some (Result (fst t)
              [Call url method contentType ("Bearer " ++ token)%string payload]
              (match net x with
               | Rejected msg => Failed msg
               | Answered r => Resolved r
               end))
  end.

(** [self.fileId = i; syncConfig.fileId = i; saveSyncConfig()]: the state
    after, and whether the second assignment went through. *)
Definition rememberFile (i : value) (d : session) : option (session * bool) :=
  let p := Provider (accessToken (self d)) (tokenExpiry (self d)) i in
  c <- assign "fileId" i (conf d) ;;
  match c with
  | Some c => Some (Session p (saveSyncConfig c), true)
  | None => Some (Session p (conf d), false)
  end.

(** The files of a listing, [data.files] when it is there with a length
    above 0; a string and an object with a length are not modelled. *)
Definition filesOf (data : value) : option (list value) :=
  match field data "files" with
  | None => Some []
  | Some (VArr l) => Some l
  | Some (VStr s) => if String.eqb s "" then Some [] else None
  | Some (VObj o) =>
      match lookup "length" o with
      | None => Some []
      | Some _ => None
      end
  | Some _ => Some []
  end.

(** An exchange in which Drive, if it answers with a JSON body, names the
    file [fid] in it or names none. *)
Definition namesFile (fid : string) (x : exchange) : bool :=
  match net x with
  | Rejected _ => true
  | Answered r =>
      match body r with
      | Some res =>
          negb (truthy (or_else VNull (field res "id")))
          || value_eqb (or_else VNull (field res "id")) (VStr fid)
      | None => true
      end
  end.

(** The address of the listing; [encodeURIComponent] leaves the name of
    the file as it is. *)
Definition listUrl : string :=
  ("https://www.googleapis.com/drive/v3/files"
   ++ "?spaces=appDataFolder&q=name%3D%27" ++ SYNC_FILE_NAME
   ++ "%27&fields=files(id)")%string.

Section Methods.

Variables syntaxErrorMsg typeErrorMsg : string.

(** [r.json()] and the first property read on what it gives. *)
Definition json (r : response) : outcome value :=
  match body r with
  | None => Failed syntaxErrorMsg
  | Some VNull => Failed typeErrorMsg
  | Some data => Resolved data
  end.

Definition _findFile (x : exchange) (d : session) : option (result value) :=
  if truthy (fileId (self d)) then Some (Result d [] (Resolved (fileId (self d))))
  else
    f <- _fetch listUrl None None None x d ;;
    match settled f with
    | Failed msg => Some (Result (after f) (calls f) (Failed msg))
    | Resolved r =>
        match json r with
        | Failed msg => Some (Result (after f) (calls f) (Failed msg))
        | Resolved data =>
            files <- filesOf data ;;
            match files with
            | [] =>
                Some (Result (after f) (calls f)
                        (Resolved (fileId (self (after f)))))
            | VNull :: _ =>
                Some (Result (after f) (calls f) (Failed typeErrorMsg))
            | file :: _ =>
                i <- field file "id" ;;
                m <- rememberFile i (after f) ;;
                Some (Result (fst m) (calls f)
                        (if snd m then Resolved i else Failed typeErrorMsg))
            end
        end
    end.

Definition uploadUrl (fileId : value) : option string :=
  if truthy fileId
  then match fileId with
       | VStr s =>
           Some ("https://www.googleapis.com/upload/drive/v3/files/" ++ s
                 ++ "?uploadType=multipart")%string
       | _ => None
       end
  else Some "https://www.googleapis.com/upload/drive/v3/files?uploadType=multipart".

(** The calls that [push] makes: the listing, the creation of the file
    and the update of the file [fileId]. *)
Definition listCall (token : string) : call :=
  Call listUrl None None ("Bearer " ++ token)%string None.

Definition meta : value :=
  VObj [("name", VStr SYNC_FILE_NAME); ("parents", VArr [VStr "appDataFolder"])].

Definition createCall (token : string) (data : value) : call :=
  Call "https://www.googleapis.com/upload/drive/v3/files?uploadType=multipart"
    (Some "POST") (Some "multipart/related; boundary=rthold_sync_boundary")
    ("Bearer " ++ token)%string
    (Some (Multipart "rthold_sync_boundary" meta data)).

Definition updateCall (fileId token : string) (data : value) : call :=
  Call ("https://www.googleapis.com/upload/drive/v3/files/" ++ fileId
        ++ "?uploadType=multipart")%string
    (Some "PATCH") (Some "multipart/related; boundary=rthold_sync_boundary")
    ("Bearer " ++ token)%string
    (Some (Multipart "rthold_sync_boundary" meta data)).

(** [push(data)], with the exchange of [_findFile] and the exchange of the
    upload. *)
Definition push (data : value) (find upload : exchange) (d : session)
    : option (result value) :=
  f <- _findFile find d ;;
  match settled f with
  | Failed msg => Some (Result (after f) (calls f) (Failed msg))
  | Resolved fileId =>
      url <- uploadUrl fileId ;;
      u <- _fetch url (Some (if truthy fileId then "PATCH" else "POST"))
             (Some "multipart/related; boundary=rthold_sync_boundary")
             (Some (Multipart "rthold_sync_boundary" meta data))
             upload (after f) ;;
      let sent := calls f ++ calls u in
      match settled u with
      | Failed msg => Some (Result (after u) sent (Failed msg))
      | Resolved r =>
          match json r with
          | Failed msg => Some (Result (after u) sent (Failed msg))
          | Resolved res =>
              if truthy (or_else VNull (field res "id"))
              then
                m <- rememberFile (or_else VNull (field res "id")) (after u) ;;
                Some (Result (fst m) sent
                        (if snd m then Resolved res else Failed typeErrorMsg))
              else Some (Result (after u) sent (Resolved res))
          end
      end
  end.

(** Pushes made one after the other, each with its document and the
    exchanges of its [_findFile] and of its upload: the session after the
    last one, and the calls of each. *)
Fixpoint pushes (l : list (value * exchange * exchange)) (d : session)
    : option (session * list (list call)) :=
  match l with
  | [] => Some (d, [])
  | (data, find, upload) :: l' =>
      r <- push data find upload d ;;
      rest <- pushes l' (after r) ;;
      Some (fst rest, calls r :: snd rest)
  end.

Definition mediaUrl (fileId : value) : option string :=
  match fileId with
  | VStr s =>
      Some ("https://www.googleapis.com/drive/v3/files/" ++ s ++ "?alt=media")%string
  | _ => None
  end.

(** [pull()], with the exchange of [_findFile] and the exchange of the
    download. *)
Definition pull (find download : exchange) (d : session)
    : option (result value) :=
  f <- _findFile find d ;;
  match settled f with
  | Failed msg => Some (Result (after f) (calls f) (Failed msg))
  | Resolved fileId =>
      if negb (truthy fileId)
      then Some (Result (after f) (calls f) (Resolved VNull))
      else
        url <- mediaUrl fileId ;;
        u <- _fetch url None None None download (after f) ;;
        let sent := calls f ++ calls u in
        match settled u with
        | Failed msg => Some (Result (after u) sent (Failed msg))
        | Resolved r =>
            if negb (ok r) then Some (Result (after u) sent (Resolved VNull))
            else
              match body r with
              | Some v => Some (Result (after u) sent (Resolved v))
              | None => Some (Result (after u) sent (Failed syntaxErrorMsg))
              end
        end
  end.

(** [signIn()], with the token client of the exchange and its network for
    the request of the account; it resolves with the account and the token. *)
Definition signIn (x : exchange) (p : provider)
    : provider * list call * outcome value :=
  match consent x with
  | ScriptFails => (p, [], Failed "Failed to load Google Identity Services")
  | Responds when resp =>
      if negb (String.eqb (error resp) "") then (p, [], Failed (error resp))
      else
        let token := VStr (access_token resp) in
        let expiry := VNum (when + expires_in resp * 1000) in
        (Provider token expiry (fileId p),
         [Call "https://www.googleapis.com/oauth2/v3/userinfo" None None
            ("Bearer " ++ access_token resp)%string None],
         match net x with
         | Rejected msg => Failed msg
         | Answered r =>
             match json r with
             | Failed msg => Failed msg
             | Resolved info =>
                 Resolved (VObj (defined [("email", field info "email");
                                          ("name", field info "name");
                                          ("accessToken", Some token);
                                          ("tokenExpiry", Some expiry)]))
             end
         end)
  end.

End Methods.

(** [_connectGoogle] after the sign-in has resolved with [info]: the new
    configuration, saved, and the provider made from it. *)
Definition connected (info : value) (c : config) : option session :=
  match info with
  | VNull => None
  | _ =>
      let cfg :=
        VObj (defined [("provider", Some (VStr "google_drive"));
                       ("accountEmail", field info "email");
                       ("accountName", field info "name");
                       ("accessToken", field info "accessToken");
                       ("tokenExpiry", field info "tokenExpiry");
                       ("fileId", Some VNull)]) in
      p <- GoogleDriveProvider cfg ;;
      Some (Session p (saveSyncConfig (Config cfg (localItem c))))
  end.

(** The start of [init]: the configuration loaded, and the provider made
    from it when it names one. *)
Definition init (c : config) : option (config * option provider) :=
  let c := loadSyncConfig c in
  if truthy (syncConfig c) && truthy (or_else VNull (field (syncConfig c) "provider"))
  then p <- GoogleDriveProvider (syncConfig c) ;; Some (c, Some p)
  else Some (c, None).

(** The fields of a provider as [new GoogleDriveProvider] reads them back:
    a value that is not truthy is [null], or 0 for the expiry. *)
Definition normal (p : provider) : provider :=
  Provider (or_else VNull (Some (accessToken p)))
           (or_else (VNum 0) (Some (tokenExpiry p)))
           (or_else VNull (Some (fileId p))).

(** The saved configuration is the text of [syncConfig], which is an
    object that names a provider and holds the fields of the provider in
    use. *)
Definition mirrored (d : session) : Prop :=
  exists props,
    syncConfig (conf d) = VObj props /\
    localItem (conf d) = Some (Json (VObj props)) /\
    truthy (or_else VNull (lookup "provider" props)) = true /\
    GoogleDriveProvider (VObj props) = Some (normal (self d)).

End Drive.

(* ===================================================================== *)
(** ** Documents and coordinators of the concrete runs *)
(* ===================================================================== *)

Module Runs.

Definition pk : string := "profiles".

Definition profile (x : bool) (t : Z) : value :=
  VObj [("checklistData", VObj [("itemX", VBool x)]);
        ("checklistTimestamps", VObj [("itemX", VNum t)])].

Definition document (p : value) : value := VObj [(pk, VObj [("Default", p)])].

Definition trips : value :=
  VObj [(pk, VObj [("Default", profile false 200); ("Trip2", profile true 50)])].

Definition darkLocal : value :=
  VObj [("journey", VStr "j1"); ("syncMeta", VObj [("lastSyncAt", VNum 1)])].

Definition lightRemote : value :=
  VObj [("style", VStr "light"); ("syncMeta", VObj [("lastSyncAt", VNum 2)])].

Definition versioned (v : Z) (p : value) : value :=
  VObj [(pk, VObj [("Default", p)]); ("_syncMeta", syncMeta 10 v)].

Definition idle (d : value) : coordinator :=
  Coordinator true true false pending None "" (Some d) [] [] [].

Definition busy (d : value) : coordinator :=
  Coordinator true true false syncing None "" (Some d) [] [SyncPush d] [].

Definition eleven : list (Z * value) :=
  map (fun n => (n, VNum n)) [1; 2; 3; 4; 5; 6; 7; 8; 9; 10; 11].

(** A store with two documents, as [$.jStorage.get] and [r.json()] leave
    them, and the references to the two. *)
Definition twoDocuments (local remote : value)
    : Store.store * (Store.jsval * Store.jsval) :=
  match Store.parse local [] with
  | (s1, Some l) =>
      match Store.parse remote s1 with
      | (s2, Some r) => (s2, (l, r))
      | (s2, None) => (s2, (l, Store.JNull))
      end
  | (s1, None) => (s1, (Store.JNull, Store.JNull))
  end.

Definition store0 : Store.store :=
  fst (twoDocuments (document (profile true 100)) trips).

Definition local0 : Store.jsval :=
  fst (snd (twoDocuments (document (profile true 100)) trips)).

Definition remote0 : Store.jsval :=
  snd (snd (twoDocuments (document (profile true 100)) trips)).

(** The store after [mergeProfiles] on the two documents, and the tree
    under its result. *)
Definition mergedTree (local remote : value) : option value :=
  let '(s, (l, r)) := twoDocuments local remote in
  match Store.mergeProfiles pk l r s with
  | (s', Some m) => Store.reify (S (List.length s')) s' m
  | (_, None) => None
  end.

(** A family of profiles and of documents, well shaped and not, to set
    the two merges side by side: a document has none, one or two of the
    profiles, under the names A and B, or has no table, or is no object. *)
Definition someProfiles : list value :=
  [ profile true 100;
    VObj [("checklistData", VObj [("itemX", VBool true); ("itemY", VBool false)]);
          ("checklistTimestamps", VObj [("itemY", VNum 150)]);
          ("style", VStr "dark");
          ("syncMeta", VObj [("lastSyncAt", VNum 5)])];
    VObj [("checklistData", VObj [("itemY", VBool true)]);
          ("collapsed", VObj [("bosses", VBool true)]);
          ("syncMeta", VObj [("lastSyncAt", VNum 9)])];
    lightRemote;
    VObj [];
    VNull;
    VObj [("checklistData", VObj [("itemX", VBool false)]);
          ("checklistTimestamps", VObj [("itemX", VStr "late")])] ].

Definition someDocuments : list value :=
  [ VObj []; VNull; VNum 7; VArr []; VObj [(pk, VArr [])] ]
  ++ map (fun p => VObj [(pk, VObj [("A", p)]); ("current", VStr "A")]) someProfiles
  ++ flat_map (fun p =>
       map (fun q => VObj [("_syncMeta", syncMeta 1 1);
                           (pk, VObj [("B", q); ("A", p)])])
         (firstn 3 someProfiles)) someProfiles.

Definition agree (local remote : value) : bool :=
  match mergeProfiles pk local remote with
  | Some t =>
      match mergedTree local remote with
      | Some t' => value_eqb t t'
      | None => false
      end
  | None => true
  end.

Definition returns (local remote : value) : bool :=
  is_some (mergeProfiles pk local remote).

End Runs.

(** More documents, coordinators and sessions for the concrete runs. *)
Module MoreRuns.

Import Runs.

(** The merged document, [null] when the merge stops. *)
Definition mergedOf (local remote : value) : value :=
  match mergeProfiles pk local remote with
  | Some m => m
  | None => VNull
  end.

Definition twoItems : value :=
  VObj [("checklistData", VObj [("itemX", VBool true); ("itemY", VBool false)]);
        ("checklistTimestamps", VObj [("itemY", VNum 150)])].

Definition withSolo : value :=
  VObj [(pk, VObj [("Solo", profile true 10); ("Default", profile true 100)])].

Definition onDefault : value :=
  VObj [(pk, VObj [("Default", profile true 100)]); ("current", VStr "Default")].

(** A remote document with a profile named after a function that every
    object inherits. *)
Definition withToString : value :=
  VObj [(pk, VObj [("Default", profile false 200); ("toString", profile true 50)])].

(** A remote document of version [v] that another device has synced at
    the time [t]. *)
Definition syncedAt (t v : Z) (p : value) : value :=
  VObj [(pk, VObj [("Default", p)]); ("_syncMeta", syncMeta t v)].

(** A push cycle and a pull-and-merge cycle that overlap: the push is
    sent at the time 1000, the pull is sent and resolves at the time 2000 with
    a remote document, and then the push succeeds. *)
Definition overlapping (remote : value) : list event :=
  [SyncNow 1000; PullAndMerge; Settle 1 (Resolved remote) 2000;
   Settle 0 (Resolved VNull) 3000].

(** The coordinator after the events, the one before when a step stops. *)
Definition afterRun (c : coordinator) (es : list event) : coordinator :=
  match run pk "TypeError" c es with
  | Some c' => c'
  | None => c
  end.

(** A remote document synced at the time 20, later than [versioned]. *)
Definition newer (v : Z) (p : value) : value :=
  VObj [(pk, VObj [("Default", p)]); ("_syncMeta", syncMeta 20 v)].

(** The coordinator after its pull has resolved with [remote]. *)
Definition pulled (now : Z) (remote : value) (c : coordinator) : coordinator :=
  match pullSettled pk "TypeError" now (Resolved remote) c with
  | Some c' => c'
  | None => c
  end.

(** A session that has no token yet, and one that has a token until the
    time 5000000 and knows the file [fileId]. *)
Definition unsigned : Drive.session :=
  Drive.Session (Drive.Provider VNull (VNum 0) VNull)
    (Drive.Config (VObj [("provider", VStr "google_drive")]) None).

Definition signedIn (fileId : value) : Drive.session :=
  let cfg := VObj [("provider", VStr "google_drive");
                   ("accessToken", VStr "tok");
                   ("tokenExpiry", VNum 5000000);
                   ("fileId", fileId)] in
  Drive.Session (Drive.Provider (VStr "tok") (VNum 5000000) fileId)
    (Drive.Config cfg (Some (Drive.Json cfg))).

(** The token client grants [tok] for an hour at the time 1000. *)
Definition grant : Drive.exchange :=
  Drive.Exchange 1000 (Drive.Responds 1000 (Drive.TokenResponse "" "tok" 3600))
    (Rejected "offline").

(** Drive answers at the time [now] with the status and the body. *)
Definition answers (now : Z) (status : bool) (b : value) : Drive.exchange :=
  Drive.Exchange now Drive.ScriptFails (Answered (Response status (Some b))).

Definition unauthorized : value :=
  VObj [("error", VObj [("code", VNum 401); ("message", VStr "Invalid Credentials")])].

(** Two later pushes: Drive answers the first with the id f1 and the
    second with an error status and no id. *)
Definition laterPushes : list (value * Drive.exchange * Drive.exchange) :=
  [(document (profile false 200), answers 2000 true unauthorized,
    answers 2001 true (VObj [("id", VStr "f1")]));
   (document (profile true 300), answers 3000 true unauthorized,
    answers 3001 false unauthorized)].

(** What [pull] gives on a session that knows the file f1, with Drive
    answering the download with a document. *)
Definition download : Drive.exchange :=
  answers 1001 true (document (profile true 100)).

Definition pulledFile : Drive.result value :=
  match Drive.pull "SyntaxError" "TypeError" (answers 1000 true unauthorized)
          download (signedIn (VStr "f1")) with
  | Some r => r
  | None => Drive.Result (signedIn (VStr "f1")) [] (Failed "")
  end.

End MoreRuns.

(* ===================================================================== *)
(** * Properties *)
(* ===================================================================== *)

(** ** Objects *)

Lemma value_ind (P : value -> Prop)
    (Hnull : P VNull)
    (Hbool : forall b, P (VBool b))
    (Hnum : forall n, P (VNum n))
    (Hstr : forall s, P (VStr s))
    (Harr : forall l, Forall P l -> P (VArr l))
    (Hobj : forall o, Forall (fun kv => P (snd kv)) o -> P (VObj o)) :
  forall v, P v.
Proof.
  fix IH 1. intros [ | b | n | s | l | o ].
  - exact Hnull.
  - apply Hbool.
  - apply Hnum.
  - apply Hstr.
  - apply Harr. induction l as [ | x l IHl ]; constructor; [ apply IH | exact IHl ].
  - apply Hobj. induction o as [ | kv o IHo ]; constructor; [ apply IH | exact IHo ].
Qed.

Lemma clone_id : forall v, clone v = v.
Proof.
  induction v as [ | | | | l IHl | o IHo ] using value_ind; simpl; try reflexivity.
  - f_equal. induction IHl as [ | x l Hx _ IH ]; simpl; [ reflexivity | ].
    now rewrite Hx, IH.
  - f_equal. induction IHo as [ | [k x] o Hx _ IH ]; simpl; [ reflexivity | ].
    simpl in Hx. now rewrite Hx, IH.
Qed.

Lemma value_eqb_eq : forall a b, value_eqb a b = true <-> a = b.
Proof.
  induction a as [ | x | x | x | l IHl | o IHo ] using value_ind;
    intros [ | y | y | y | l' | o' ]; simpl;
    try (split; [ discriminate | intros [=] ]); try tauto.
  - rewrite Bool.eqb_true_iff. split; [ now intros -> | now intros [= ->] ].
  - rewrite Z.eqb_eq. split; [ now intros -> | now intros [= ->] ].
  - rewrite String.eqb_eq. split; [ now intros -> | now intros [= ->] ].
  - revert l'. induction IHl as [ | x l Hx _ IH ]; intros [ | y l' ];
      try (split; [ discriminate | intros [=] ]); try tauto.
    rewrite andb_true_iff, Hx, IH.
    split; [ now intros [-> [= ->]] | now intros [= -> ->] ].
  - revert o'. induction IHo as [ | [k x] o Hx _ IH ]; intros [ | [k' y] o' ];
      try (split; [ discriminate | intros [=] ]); try tauto.
    simpl in Hx. rewrite !andb_true_iff, String.eqb_eq, Hx, IH.
    split; [ now intros [[-> ->] [= ->]] | now intros [= -> -> ->] ].
Qed.

Lemma lookup_set_prop_eq {A : Type} k (v : A) o :
  lookup k (set_prop k v o) = Some v.
Proof.
  induction o as [ | [k' v'] o IH ]; simpl.
  - now rewrite String.eqb_refl.
  - destruct (String.eqb k k') eqn:E; simpl.
    + now rewrite String.eqb_refl.
    + now rewrite E.
Qed.

Lemma lookup_set_prop_neq {A : Type} k k' (v : A) o :
  k <> k' -> lookup k (set_prop k' v o) = lookup k o.
Proof.
  intros Hne. induction o as [ | [k0 v0] o IH ]; simpl.
  - destruct (String.eqb_spec k k'); [ contradiction | reflexivity ].
  - destruct (String.eqb_spec k' k0) as [-> | Hk0]; simpl.
    + destruct (String.eqb_spec k k0); [ contradiction | reflexivity ].
    + now rewrite IH.
Qed.

Lemma set_prop_same {A : Type} k (v : A) o :
  lookup k o = Some v -> set_prop k v o = o.
Proof.
  induction o as [ | [k' v'] o IH ]; simpl; [ discriminate | ].
  destruct (String.eqb_spec k k') as [-> | Hne].
  - now intros [= ->].
  - intros H. now rewrite IH.
Qed.

Lemma lookup_None_keys {A : Type} k (o : list (string * A)) :
  lookup k o = None <-> ~ In k (keys o).
Proof.
  induction o as [ | [k' v'] o IH ]; simpl.
  - tauto.
  - destruct (String.eqb_spec k k') as [-> | Hne].
    + split; [ discriminate | intros H; exfalso; apply H; now left ].
    + rewrite IH. split; [ intros H [E | HI]; [ now subst | tauto ] | tauto ].
Qed.

Lemma set_prop_fresh {A : Type} k (v : A) o :
  lookup k o = None -> set_prop k v o = o ++ [(k, v)].
Proof.
  induction o as [ | [k' v'] o IH ]; simpl; [ reflexivity | ].
  destruct (String.eqb_spec k k'); [ discriminate | ].
  intros H. now rewrite IH.
Qed.

Lemma nodupb_NoDup l : nodupb l = true <-> NoDup l.
Proof.
  induction l as [ | k l IH ]; simpl.
  - split; [ constructor | reflexivity ].
  - rewrite andb_true_iff, negb_true_iff, IH. split.
    + intros [Hk Hl]. constructor; [ | exact Hl ].
      intros HI. apply Bool.not_true_iff_false in Hk. apply Hk.
      apply existsb_exists. exists k. split; [ exact HI | apply String.eqb_refl ].
    + intros H. inversion H as [ | ? ? Hk Hl ]; subst. split; [ | exact Hl ].
      apply Bool.not_true_iff_false. intros HE.
      apply existsb_exists in HE. destruct HE as [x [HI Hx]].
      apply String.eqb_eq in Hx. now subst.
Qed.

Lemma enumerate_Some {A : Type} (o o' : list (string * A)) :
  enumerate o = Some o' -> o' = o.
Proof.
  unfold enumerate. destruct (forallb _ o); [ now intros [= <-] | discriminate ].
Qed.

Lemma enumerateProfiles_Some {A : Type} (o o' : list (string * A)) :
  enumerateProfiles o = Some o' -> o' = o.
Proof.
  unfold enumerateProfiles. destruct (forallb _ o); [ now intros [= <-] | discriminate ].
Qed.

Lemma plain_enumerateProfiles {A : Type} (o : list (string * A)) :
  forallb (fun kv => plain_name (fst kv)) o = true -> enumerateProfiles o = Some o.
Proof.
  intros H. unfold enumerateProfiles.
  replace (forallb _ o) with true; [ reflexivity | ].
  symmetry. apply forallb_forall. intros kv HI. rewrite forallb_forall in H.
  now rewrite (H kv HI).
Qed.

Lemma plain_not_inherited k : plain_name k = true -> inherited k = false.
Proof.
  unfold plain_name, inherited. rewrite negb_true_iff. intros H.
  apply Bool.not_true_iff_false. intros HI. apply Bool.not_true_iff_false in H.
  apply H. apply existsb_exists in HI. destruct HI as (x & Hx & E).
  apply existsb_exists. exists x. split; [ | exact E ].
  unfold inheritedFunctions, reservedNames in *. simpl in *.
  repeat (destruct Hx as [<- | Hx]; [ tauto | ]). contradiction.
Qed.

Lemma assign_all_app (t o : obj) :
  NoDup (keys (t ++ o)) ->
  fold_left (fun t kv => set_prop (fst kv) (snd kv) t) o t = t ++ o.
Proof.
  revert t. induction o as [ | [k v] o IH ]; intros t H; simpl.
  - now rewrite app_nil_r.
  - assert (Hk : lookup k t = None).
    { apply lookup_None_keys. intros HI. unfold keys in H.
      rewrite map_app in H. simpl in H. apply NoDup_remove_2 in H.
      apply H. apply in_or_app. now left. }
    rewrite (set_prop_fresh _ _ _ Hk), IH; rewrite <- app_assoc; [ reflexivity | exact H ].
Qed.

Lemma extend_nil o d : NoDup (keys o) -> extend [] o = Some d -> d = o.
Proof.
  intros Hnd. unfold extend.
  destruct (enumerate o) as [props | ] eqn:E; [ | discriminate ].
  apply enumerate_Some in E. subst props. intros [= <-]. now apply assign_all_app.
Qed.

Lemma extend_nil_plain o :
  NoDup (keys o) -> forallb (fun kv => plain_name (fst kv)) o = true ->
  extend [] o = Some o.
Proof.
  intros Hnd Hp. unfold extend, enumerate. rewrite Hp. f_equal.
  now apply assign_all_app.
Qed.

Lemma wf_obj_keys o : wf_value (VObj o) = true -> NoDup (keys o).
Proof. simpl. rewrite andb_true_iff. intros [H _]. now apply nodupb_NoDup. Qed.

Lemma wf_obj_lookup o k v :
  wf_value (VObj o) = true -> lookup k o = Some v -> wf_value v = true.
Proof.
  simpl. rewrite andb_true_iff. intros [_ H]. rewrite forallb_forall in H.
  induction o as [ | [k' v'] o IH ]; simpl; [ discriminate | ].
  destruct (String.eqb_spec k k') as [-> | Hne].
  - intros [= ->]. apply (H (k', v)). now left.
  - intros Hl. apply IH; [ | exact Hl ]. intros x Hx. apply H. now right.
Qed.

Lemma wf_field v k x :
  wf_value v = true -> field v k = Some x -> wf_value x = true.
Proof.
  destruct v; simpl; try discriminate. intros H. now apply wf_obj_lookup.
Qed.

Lemma wf_or_empty x o :
  (forall v, x = Some v -> wf_value v = true) ->
  or_empty x = Some o -> wf_value (VObj o) = true.
Proof.
  intros Hx. destruct x as [v | ]; simpl.
  - destruct (truthy v); [ | now intros [= <-] ].
    destruct v; try discriminate. intros [= <-]. exact (Hx _ eq_refl).
  - now intros [= <-].
Qed.

Lemma In_lookup {A : Type} k (v : A) o :
  NoDup (keys o) -> In (k, v) o -> lookup k o = Some v.
Proof.
  induction o as [ | [k' v'] o IH ]; simpl; [ tauto | ].
  intros Hnd [E | HI].
  - injection E as -> ->. now rewrite String.eqb_refl.
  - inversion Hnd as [ | ? ? Hk Ho ]; subst.
    destruct (String.eqb_spec k k') as [-> | Hne]; [ | now apply IH ].
    exfalso. apply Hk. change k' with (fst (k', v)). now apply in_map.
Qed.

Lemma lookup_In {A : Type} k (v : A) o : lookup k o = Some v -> In (k, v) o.
Proof.
  induction o as [ | [k' v'] o IH ]; simpl; [ discriminate | ].
  destruct (String.eqb_spec k k') as [-> | Hne].
  - intros [= ->]. now left.
  - intros H. right. now apply IH.
Qed.

(** ** The item loop *)

Lemma each_mergeItem_spec localTs remoteTs rdata :
  forall d0 t0 d t,
    NoDup (keys rdata) ->
    each (mergeItem localTs remoteTs) rdata (d0, t0) = Some (d, t) ->
    forall itemId,
      match lookup itemId rdata with
      | None => lookup itemId d = lookup itemId d0 /\ lookup itemId t = lookup itemId t0
      | Some rVal =>
          exists rt lt,
            or_zero (lookup itemId remoteTs) = Some rt /\
            or_zero (lookup itemId localTs) = Some lt /\
            if lt <? rt
            then lookup itemId d = Some rVal /\ lookup itemId t = Some (VNum rt)
            else lookup itemId d = lookup itemId d0 /\ lookup itemId t = lookup itemId t0
      end.
Proof.
  induction rdata as [ | [k v] rdata IH ]; intros d0 t0 d t Hnd Hrun itemId.
  - simpl in *. now injection Hrun as <- <-.
  - inversion Hnd as [ | ? ? Hk Hnd' ]; subst.
    cbn [each mergeItem] in Hrun.
    destruct (or_zero (lookup k remoteTs)) as [rt | ] eqn:Ert; [ | discriminate ].
    destruct (or_zero (lookup k localTs)) as [lt | ] eqn:Elt; [ | discriminate ].
    cbn [lookup]. destruct (String.eqb_spec itemId k) as [-> | Hne].
    + assert (Hfresh : lookup k rdata = None) by now apply lookup_None_keys.
      exists rt, lt. repeat split; try assumption.
      destruct (lt <? rt); specialize (IH _ _ _ _ Hnd' Hrun k);
        rewrite Hfresh in IH; destruct IH as [Hd Ht]; rewrite Hd, Ht;
        [ now rewrite !lookup_set_prop_eq | tauto ].
    + assert (Hstep : forall d1 t1,
                 each (mergeItem localTs remoteTs) rdata (d1, t1) = Some (d, t) ->
                 lookup itemId d1 = lookup itemId d0 ->
                 lookup itemId t1 = lookup itemId t0 ->
                 match lookup itemId rdata with
                 | None => lookup itemId d = lookup itemId d0 /\
                           lookup itemId t = lookup itemId t0
                 | Some rVal =>
                     exists rt lt,
                       or_zero (lookup itemId remoteTs) = Some rt /\
                       or_zero (lookup itemId localTs) = Some lt /\
                       if lt <? rt
                       then lookup itemId d = Some rVal /\ lookup itemId t = Some (VNum rt)
                       else lookup itemId d = lookup itemId d0 /\
                            lookup itemId t = lookup itemId t0
                 end).
      { intros d1 t1 H1 Hd1 Ht1. specialize (IH _ _ _ _ Hnd' H1 itemId).
        destruct (lookup itemId rdata); [ | now rewrite <- Hd1, <- Ht1 ].
        destruct IH as (rt' & lt' & H2 & H3 & H4). exists rt', lt'.
        repeat split; try assumption.
        destruct (lt' <? rt'); [ exact H4 | now rewrite <- Hd1, <- Ht1 ]. }
      destruct (lt <? rt).
      * apply (Hstep _ _ Hrun); now apply lookup_set_prop_neq.
      * now apply (Hstep _ _ Hrun).
Qed.

Lemma each_mergeItem_self ts data acc :
  (forall k v, In (k, v) data -> or_zero (lookup k ts) <> None) ->
  each (mergeItem ts ts) data acc = Some acc.
Proof.
  revert acc. induction data as [ | [k v] data IH ]; intros [d t] Hnum.
  - reflexivity.
  - cbn [each mergeItem].
    destruct (or_zero (lookup k ts)) as [n | ] eqn:E.
    + rewrite Z.ltb_irrefl. apply IH. intros k' v' HI. apply (Hnum k' v'). now right.
    + exfalso. apply (Hnum k v); [ now left | exact E ].
Qed.

(** ** The five fields that are not merged item by item *)

Lemma takeFields_other rp k ks :
  ~ In k ks -> forall lo, lookup k (fold_left (takeField rp) ks lo) = lookup k lo.
Proof.
  induction ks as [ | k' ks IH ]; intros Hk lo; simpl; [ reflexivity | ].
  rewrite IH by (intros HI; apply Hk; now right).
  unfold takeField. destruct (field rp k'); [ | reflexivity ].
  apply lookup_set_prop_neq. intros ->. apply Hk. now left.
Qed.

Lemma takeFields_in rp k ks :
  In k ks -> forall lo,
    lookup k (fold_left (takeField rp) ks lo) =
      match field rp k with Some v => Some v | None => lookup k lo end.
Proof.
  induction ks as [ | k' ks IH ]; intros Hk lo; simpl; [ contradiction | ].
  destruct (in_dec string_dec k ks) as [HI | HnI].
  - rewrite (IH HI). unfold takeField.
    destruct (field rp k) eqn:E; [ reflexivity | ].
    destruct (field rp k') eqn:E'; [ | reflexivity ].
    apply lookup_set_prop_neq. intros ->. congruence.
  - destruct Hk as [-> | Hk]; [ | contradiction ].
    rewrite (takeFields_other _ _ _ HnI). unfold takeField.
    destruct (field rp k); [ apply lookup_set_prop_eq | reflexivity ].
Qed.

(** ** One profile *)

Ltac bind_inv H :=
  repeat match type of H with
    | match ?c with Some _ => _ | None => None end = Some _ =>
        let E := fresh "E" in destruct c eqn:E; [ | discriminate H ]
    end.

Lemma wf_table v k o :
  wf_value v = true -> or_empty (field v k) = Some o -> NoDup (keys o).
Proof.
  intros Hv Ho. apply wf_obj_keys. apply (wf_or_empty _ _ (fun x Hx => wf_field _ _ _ Hv Hx) Ho).
Qed.

Lemma not_merged_key k : In k nonMergeable -> k <> "checklistData" /\ k <> "checklistTimestamps" /\ k <> "syncMeta".
Proof.
  unfold nonMergeable. simpl. intros H.
  repeat (destruct H as [<- | H]; [ repeat split; discriminate | ]). contradiction.
Qed.

Lemma merged_key_kept rp k lo :
  ~ In k nonMergeable ->
  lookup k (fold_left (takeField rp) nonMergeable lo) = lookup k lo.
Proof. intros H. now apply takeFields_other. Qed.

Lemma mergeProfile_shape lp rp mp :
  mergeProfile lp rp = Some mp ->
  exists lo localTs remoteTs ldata rdata d0 t0 d t l r,
    lp = VObj lo /\
    or_empty (field lp "checklistTimestamps") = Some localTs /\
    or_empty (field rp "checklistTimestamps") = Some remoteTs /\
    or_empty (field lp "checklistData") = Some ldata /\
    or_empty (field rp "checklistData") = Some rdata /\
    extend [] ldata = Some d0 /\ extend [] localTs = Some t0 /\
    each (mergeItem localTs remoteTs) rdata (d0, t0) = Some (d, t) /\
    syncAtOf lp = Some l /\ syncAtOf rp = Some r /\
    let lo2 := set_prop "checklistTimestamps" (VObj t)
                 (set_prop "checklistData" (VObj d) lo) in
    mp = VObj (if l <? r then fold_left (takeField rp) nonMergeable lo2 else lo2).
Proof.
  unfold mergeProfile. intros H.
  destruct lp as [ | | | | | lo ]; try (destruct rp; discriminate H).
  assert (Hrp : rp <> VNull) by (intros ->; discriminate H).
  assert (H' : (localTs <- or_empty (lookup "checklistTimestamps" lo) ;;
      remoteTs <- or_empty (field rp "checklistTimestamps") ;;
      ldata    <- or_empty (lookup "checklistData" lo) ;;
      mergedData <- extend [] ldata ;;
      mergedTs <- extend [] localTs ;;
      rdata    <- or_empty (field rp "checklistData") ;;
      items    <- enumerate rdata ;;
      acc <- each (mergeItem localTs remoteTs) items (mergedData, mergedTs) ;;
      let lo1 := set_prop "checklistData" (VObj (fst acc)) lo in
      let lo2 := set_prop "checklistTimestamps" (VObj (snd acc)) lo1 in
      lSyncAt <- meta_num (lookup "syncMeta" lo2) "lastSyncAt" ;;
      rSyncAt <- meta_num (field rp "syncMeta") "lastSyncAt" ;;
      if lSyncAt <? rSyncAt
      then Some (VObj (fold_left (takeField rp) nonMergeable lo2))
      else Some (VObj lo2)) = Some mp)
    by (destruct rp; first [ exact H | exfalso; apply Hrp; reflexivity ]).
  clear H.
  destruct (or_empty (lookup "checklistTimestamps" lo)) as [localTs | ] eqn:E1;
    [ | discriminate H' ].
  destruct (or_empty (field rp "checklistTimestamps")) as [remoteTs | ] eqn:E2;
    [ | discriminate H' ].
  destruct (or_empty (lookup "checklistData" lo)) as [ldata | ] eqn:E3;
    [ | discriminate H' ].
  destruct (extend [] ldata) as [d0 | ] eqn:E4; [ | discriminate H' ].
  destruct (extend [] localTs) as [t0 | ] eqn:E5; [ | discriminate H' ].
  destruct (or_empty (field rp "checklistData")) as [rdata | ] eqn:E6;
    [ | discriminate H' ].
  destruct (enumerate rdata) as [items | ] eqn:E7; [ | discriminate H' ].
  apply enumerate_Some in E7. subst items.
  destruct (each (mergeItem localTs remoteTs) rdata (d0, t0)) as [ [d t] | ] eqn:E8;
    [ | discriminate H' ].
  cbv zeta in H'. cbn [fst snd] in H'.
  rewrite !lookup_set_prop_neq in H' by discriminate.
  destruct (meta_num (lookup "syncMeta" lo) "lastSyncAt") as [l | ] eqn:E9;
    [ | discriminate H' ].
  destruct (meta_num (field rp "syncMeta") "lastSyncAt") as [r | ] eqn:E10;
    [ | discriminate H' ].
  exists lo, localTs, remoteTs, ldata, rdata, d0, t0, d, t, l, r.
  cbn [field]. unfold syncAtOf. cbn [field].
  repeat split; try assumption.
  destruct (l <? r); now injection H' as <-.
Qed.

Lemma mergeProfile_items lp rp mp itemId rVal rt lt :
  wf_value lp = true -> wf_value rp = true ->
  mergeProfile lp rp = Some mp ->
  itemOf rp itemId = Some rVal ->
  or_zero (stampOf rp itemId) = Some rt ->
  or_zero (stampOf lp itemId) = Some lt ->
  (lt < rt -> itemOf mp itemId = Some rVal /\ stampOf mp itemId = Some (VNum rt)) /\
  (rt <= lt -> itemOf mp itemId = itemOf lp itemId /\
               stampOf mp itemId = stampOf lp itemId).
Proof.
  intros Hlp Hrp Hm Hitem Hrt Hlt.
  destruct (mergeProfile_shape _ _ _ Hm)
    as (lo & localTs & remoteTs & ldata & rdata & d0 & t0 & d & t & l & r &
        -> & ElTs & ErTs & Eld & Erd & Ed0 & Et0 & Erun & _ & _ & ->).
  apply extend_nil in Ed0; [ subst d0 | eapply (wf_table _ _ _ Hlp); eassumption ].
  apply extend_nil in Et0; [ subst t0 | eapply (wf_table _ _ _ Hlp); eassumption ].
  unfold itemOf, stampOf in *. rewrite ?ElTs, ?ErTs, ?Eld, ?Erd in *.
  cbn [field].
  assert (Hd : forall lo', lookup "checklistData"
             (if l <? r then fold_left (takeField rp) nonMergeable lo' else lo')
             = lookup "checklistData" lo').
  { intros lo'. destruct (l <? r); [ | reflexivity ].
    apply merged_key_kept. intros HI. now apply not_merged_key in HI. }
  assert (Ht : forall lo', lookup "checklistTimestamps"
             (if l <? r then fold_left (takeField rp) nonMergeable lo' else lo')
             = lookup "checklistTimestamps" lo').
  { intros lo'. destruct (l <? r); [ | reflexivity ].
    apply merged_key_kept. intros HI. now apply not_merged_key in HI. }
  rewrite Hd, Ht, lookup_set_prop_eq, lookup_set_prop_neq by discriminate.
  rewrite lookup_set_prop_eq. cbn [or_empty truthy].
  pose proof (each_mergeItem_spec _ _ _ _ _ _ _ (wf_table _ _ _ Hrp Erd) Erun itemId) as S.
  rewrite Hitem in S. destruct S as (rt' & lt' & Hrt' & Hlt' & S).
  rewrite Hrt in Hrt'. rewrite Hlt in Hlt'. injection Hrt' as <-. injection Hlt' as <-.
  destruct (Z.ltb_spec lt rt); split; intros; try lia; exact S.
Qed.

Lemma mergeProfile_fields lp rp mp k :
  mergeProfile lp rp = Some mp ->
  In k nonMergeable ->
  exists l r,
    syncAtOf lp = Some l /\ syncAtOf rp = Some r /\
    field mp k =
      if l <? r
      then match field rp k with Some v => Some v | None => field lp k end
      else field lp k.
Proof.
  intros Hm Hk.
  destruct (mergeProfile_shape _ _ _ Hm)
    as (lo & localTs & remoteTs & ldata & rdata & d0 & t0 & d & t & l & r &
        -> & _ & _ & _ & _ & _ & _ & _ & Hl & Hr & ->).
  exists l, r. repeat split; try assumption. cbn [field].
  destruct (not_merged_key _ Hk) as (K1 & K2 & _).
  destruct (l <? r).
  - rewrite (takeFields_in _ _ _ Hk). destruct (field rp k); [ reflexivity | ].
    now rewrite !lookup_set_prop_neq.
  - now rewrite !lookup_set_prop_neq.
Qed.

Lemma mergeProfile_self p :
  wf_value p = true -> settled_profile p = true -> mergeProfile p p = Some p.
Proof.
  intros Hwf Hs. destruct p as [ | | | | | po ]; try discriminate Hs.
  unfold settled_profile in Hs.
  destruct (lookup "checklistData" po) as [ [ | | | | | data ] | ] eqn:Ed; try discriminate Hs.
  destruct (lookup "checklistTimestamps" po) as [ [ | | | | | ts ] | ] eqn:Et; try discriminate Hs.
  rewrite !andb_true_iff in Hs. destruct Hs as [[[Hpd Hpt] Hnum] Hsync].
  unfold plain in Hpd, Hpt.
  destruct (syncAtOf (VObj po)) as [n | ] eqn:En; [ clear Hsync | discriminate Hsync ].
  unfold mergeProfile. cbn [field]. rewrite Ed, Et. cbn [or_empty truthy].
  rewrite !extend_nil_plain; try assumption;
    try (apply wf_obj_keys; eapply wf_obj_lookup; [ exact Hwf | eassumption ]).
  unfold enumerate at 1. rewrite Hpd.
  rewrite each_mergeItem_self.
  - cbn [fst snd]. cbv zeta.
    rewrite (set_prop_same _ _ _ Ed), (set_prop_same _ _ _ Et).
    unfold syncAtOf in En. cbn [field] in En. rewrite En.
    now rewrite Z.ltb_irrefl.
  - intros k v HI. rewrite forallb_forall in Hnum. specialize (Hnum _ HI).
    cbn [fst] in Hnum. now destruct (or_zero (lookup k ts)).
Qed.

(** ** The profile loop *)

Lemma each_mergeEntry_spec rps :
  forall mps mps',
    NoDup (keys rps) ->
    each mergeEntry rps mps = Some mps' ->
    forall name,
      match lookup name rps with
      | None => lookup name mps' = lookup name mps
      | Some rp =>
          match lookup name mps with
          | None =>
              if inherited name
              then lookup name mps' = None /\ mergeProfile (VObj []) rp <> None
              else lookup name mps' = Some rp
          | Some lp => exists mp, mergeProfile lp rp = Some mp /\
                                  lookup name mps' = Some mp
          end
      end.
Proof.
  induction rps as [ | [k rp] rps IH ]; intros mps mps' Hnd Hrun name.
  - simpl in *. now injection Hrun as <-.
  - inversion Hnd as [ | ? ? Hk Hnd' ]; subst.
    cbn [each mergeEntry] in Hrun. cbn [lookup].
    destruct (String.eqb_spec name k) as [-> | Hne].
    + assert (Hfresh : lookup k rps = None) by now apply lookup_None_keys.
      destruct (lookup k mps) as [lp | ] eqn:El.
      * destruct (mergeProfile lp rp) as [mp | ] eqn:Em; [ | discriminate Hrun ].
        specialize (IH _ _ Hnd' Hrun k). rewrite Hfresh in IH.
        exists mp. split; [ reflexivity | ]. now rewrite IH, lookup_set_prop_eq.
      * destruct (inherited k).
        -- destruct (mergeProfile (VObj []) rp); [ | discriminate Hrun ].
           specialize (IH _ _ Hnd' Hrun k). rewrite Hfresh in IH.
           split; [ now rewrite IH | discriminate ].
        -- specialize (IH _ _ Hnd' Hrun k). rewrite Hfresh in IH.
           now rewrite IH, lookup_set_prop_eq.
    + assert (Hstep : forall mps1,
                 each mergeEntry rps mps1 = Some mps' ->
                 lookup name mps1 = lookup name mps ->
                 match lookup name rps with
                 | None => lookup name mps' = lookup name mps
                 | Some rp0 =>
                     match lookup name mps with
                     | None =>
                         if inherited name
                         then lookup name mps' = None /\
                              mergeProfile (VObj []) rp0 <> None
                         else lookup name mps' = Some rp0
                     | Some lp => exists mp, mergeProfile lp rp0 = Some mp /\
                                             lookup name mps' = Some mp
                     end
                 end).
      { intros mps1 H1 E1. specialize (IH _ _ Hnd' H1 name). now rewrite E1 in IH. }
      destruct (lookup k mps) as [lp | ];
        [ destruct (mergeProfile lp rp) as [mp | ]; [ | discriminate Hrun ]
        | destruct (inherited k);
          [ destruct (mergeProfile (VObj []) rp); [ | discriminate Hrun ] | ] ];
        apply (Hstep _ Hrun); try reflexivity; now apply lookup_set_prop_neq.
Qed.

Lemma each_mergeEntry_self l mps :
  (forall name p, In (name, p) l ->
                  lookup name mps = Some p /\ mergeProfile p p = Some p) ->
  each mergeEntry l mps = Some mps.
Proof.
  induction l as [ | [name p] l IH ]; intros H; [ reflexivity | ].
  cbn [each mergeEntry].
  destruct (H name p (or_introl eq_refl)) as [El Em]. rewrite El, Em.
  rewrite (set_prop_same _ _ _ El). apply IH.
  intros name' p' HI. apply H. now right.
Qed.

(** ** The whole document *)

Section MergeProps.

Variable profilesKey : string.

Lemma mergeProfiles_null local remote :
  truthy remote = false -> mergeProfiles profilesKey local remote = Some local.
Proof. intros H. unfold mergeProfiles. now rewrite H. Qed.

Lemma mergeProfiles_spec local remote merged :
  truthy remote = true -> wf_value remote = true ->
  mergeProfiles profilesKey local remote = Some merged ->
  exists lps rps mps,
    profilesOf profilesKey local = Some lps /\
    profilesOf profilesKey remote = Some rps /\
    profilesOf profilesKey merged = Some mps /\
    forall name,
      match lookup name rps with
      | None => lookup name mps = lookup name lps
      | Some rp =>
          match lookup name lps with
          | None =>
              if inherited name
              then lookup name mps = None /\ mergeProfile (VObj []) rp <> None
              else lookup name mps = Some rp
          | Some lp => exists mp, mergeProfile lp rp = Some mp /\
                                  lookup name mps = Some mp
          end
      end.
Proof.
  intros Ht Hwf Hm. unfold mergeProfiles in Hm. rewrite Ht, clone_id in Hm.
  cbn [negb] in Hm. destruct local as [ | | | | | lo ]; try discriminate Hm.
  destruct (or_empty (field remote profilesKey)) as [rps | ] eqn:Er;
    [ | discriminate Hm ].
  destruct (or_empty (lookup profilesKey lo)) as [lps | ] eqn:El;
    [ | discriminate Hm ].
  destruct (enumerateProfiles rps) as [entries | ] eqn:Ee; [ | discriminate Hm ].
  apply enumerateProfiles_Some in Ee. subst entries.
  destruct (each mergeEntry rps lps) as [mps | ] eqn:Em; [ | discriminate Hm ].
  injection Hm as <-.
  exists lps, rps, mps. unfold profilesOf. cbn [field].
  rewrite lookup_set_prop_eq. repeat split; try assumption.
  apply each_mergeEntry_spec; [ | assumption ].
  eapply wf_table; eassumption.
Qed.

Lemma or_zero_lookup ts k :
  forallb (fun kv => is_some (or_zero (Some (snd kv)))) ts = true ->
  or_zero (lookup k ts) <> None.
Proof.
  intros H. destruct (lookup k ts) as [v | ] eqn:E; [ | discriminate ].
  apply lookup_In in E. rewrite forallb_forall in H. specialize (H _ E).
  cbn [snd] in H. now destruct (or_zero (Some v)).
Qed.

Lemma each_mergeItem_returns localTs remoteTs :
  (forall k, or_zero (lookup k localTs) <> None) ->
  (forall k, or_zero (lookup k remoteTs) <> None) ->
  forall items acc, each (mergeItem localTs remoteTs) items acc <> None.
Proof.
  intros Hl Hr. induction items as [ | [k v] items IH ]; intros [d t].
  - discriminate.
  - cbn [each mergeItem].
    destruct (or_zero (lookup k remoteTs)) as [rt | ] eqn:Er; [ | now apply Hr in Er ].
    destruct (or_zero (lookup k localTs)) as [lt | ] eqn:El; [ | now apply Hl in El ].
    destruct (lt <? rt); apply IH.
Qed.

Lemma mergeProfile_returns lp rp :
  shaped_profile lp = true -> shaped_profile rp = true ->
  mergeProfile lp rp <> None.
Proof.
  intros Hl Hr. destruct lp as [ | | | | | lo ]; try discriminate Hl.
  destruct rp as [ | | | | | ro ]; try discriminate Hr.
  unfold shaped_profile in Hl, Hr. unfold mergeProfile. cbn [field].
  destruct (or_empty (lookup "checklistData" lo)) as [ldata | ]; [ | discriminate Hl ].
  destruct (or_empty (lookup "checklistTimestamps" lo)) as [localTs | ];
    [ | discriminate Hl ].
  destruct (or_empty (lookup "checklistData" ro)) as [rdata | ]; [ | discriminate Hr ].
  destruct (or_empty (lookup "checklistTimestamps" ro)) as [remoteTs | ];
    [ | discriminate Hr ].
  rewrite !andb_true_iff in Hl, Hr.
  destruct Hl as [[[Hld Hlt] Hln] Hls]. destruct Hr as [[[Hrd Hrt] Hrn] Hrs].
  unfold plain in *. unfold extend, enumerate. rewrite Hld, Hlt, Hrd.
  match goal with
  | |- (acc <- ?e ;; _) <> None =>
      pose proof (each_mergeItem_returns localTs remoteTs
                    (fun k => or_zero_lookup _ k Hln)
                    (fun k => or_zero_lookup _ k Hrn) rdata) as Hacc;
      destruct e as [acc | ] eqn:Eacc
  end.
  2: { exfalso. eapply Hacc. exact Eacc. }
  cbv zeta. rewrite !lookup_set_prop_neq by discriminate.
  unfold syncAtOf in Hls, Hrs. cbn [field] in Hls, Hrs.
  destruct (meta_num (lookup "syncMeta" lo) "lastSyncAt"); [ | discriminate Hls ].
  destruct (meta_num (lookup "syncMeta" ro) "lastSyncAt"); [ | discriminate Hrs ].
  now destruct (z <? z0).
Qed.

Lemma each_mergeEntry_returns entries :
  forall mps,
    NoDup (keys entries) ->
    (forall name rp, In (name, rp) entries ->
       shaped_profile rp = true /\
       forall lp, lookup name mps = Some lp -> shaped_profile lp = true) ->
    each mergeEntry entries mps <> None.
Proof.
  induction entries as [ | [name rp] entries IH ]; intros mps Hnd H.
  - discriminate.
  - inversion Hnd as [ | ? ? Hname Hnd' ]; subst.
    destruct (H name rp (or_introl eq_refl)) as [Hrp Hlp].
    assert (Hnext : forall mps1,
               (forall k, k <> name -> lookup k mps1 = lookup k mps) ->
               each mergeEntry entries mps1 <> None).
    { intros mps1 Hsame. apply IH; [ exact Hnd' | ].
      intros name' rp' HI. destruct (H name' rp' (or_intror HI)) as [H1 H2].
      split; [ exact H1 | ]. intros lp. rewrite Hsame; [ apply H2 | ].
      intros ->. apply Hname. change name with (fst (name, rp')). now apply in_map. }
    cbn [each mergeEntry]. destruct (lookup name mps) as [lp | ] eqn:El.
    + destruct (mergeProfile lp rp) as [lp' | ] eqn:Em.
      * apply Hnext. intros k Hk. now apply lookup_set_prop_neq.
      * exfalso. now apply (mergeProfile_returns lp rp (Hlp lp eq_refl) Hrp).
    + destruct (inherited name).
      * destruct (mergeProfile (VObj []) rp) as [lp' | ] eqn:Em.
        -- apply Hnext. reflexivity.
        -- exfalso. now apply (mergeProfile_returns (VObj []) rp eq_refl Hrp).
      * apply Hnext. intros k Hk. now apply lookup_set_prop_neq.
Qed.

(** On well-formed documents of the expected shape, [mergeProfiles]
    returns. *)
Lemma mergeProfiles_returns local remote :
  wf_value remote = true ->
  shaped profilesKey local = true -> shaped profilesKey remote = true ->
  exists merged, mergeProfiles profilesKey local remote = Some merged.
Proof.
  intros Hwf Hl Hr. destruct local as [ | | | | | lo ]; try discriminate Hl.
  destruct remote as [ | | | | | ro ]; try discriminate Hr.
  unfold shaped in Hl, Hr. unfold mergeProfiles. rewrite clone_id.
  cbn [truthy negb field].
  destruct (or_empty (lookup profilesKey lo)) as [lps | ] eqn:El; [ | discriminate Hl ].
  destruct (or_empty (lookup profilesKey ro)) as [rps | ] eqn:Er; [ | discriminate Hr ].
  rewrite !andb_true_iff in Hl, Hr. destruct Hl as [_ Hl]. destruct Hr as [Hp Hr].
  unfold plain in Hp. rewrite (plain_enumerateProfiles _ Hp).
  destruct (each mergeEntry rps lps) as [mps | ] eqn:Em; [ now eexists | ].
  exfalso. revert Em. apply each_mergeEntry_returns.
  - apply (wf_table (VObj ro) profilesKey); [ exact Hwf | exact Er ].
  - intros name rp HI. rewrite forallb_forall in Hl, Hr. split.
    + exact (Hr _ HI).
    + intros lp Hlp. apply lookup_In in Hlp. exact (Hl _ Hlp).
Qed.

End MergeProps.

Section MergeClaims.

Variable profilesKey : string.

Lemma wf_profileOf d name p :
  wf_value d = true -> profileOf profilesKey d name = Some p -> wf_value p = true.
Proof.
  intros Hd. unfold profileOf, profilesOf.
  destruct (or_empty (field d profilesKey)) as [ps | ] eqn:E; [ | discriminate ].
  apply wf_obj_lookup. apply (wf_or_empty _ _ (fun x Hx => wf_field _ _ _ Hd Hx) E).
Qed.

Lemma merged_profile_of_both local remote merged name lp rp :
  truthy remote = true -> wf_value remote = true ->
  mergeProfiles profilesKey local remote = Some merged ->
  profileOf profilesKey local name = Some lp ->
  profileOf profilesKey remote name = Some rp ->
  exists mp, mergeProfile lp rp = Some mp /\
             profileOf profilesKey merged name = Some mp.
Proof.
  intros Ht Hwf Hm Hl Hr.
  destruct (mergeProfiles_spec _ _ _ _ Ht Hwf Hm) as (lps & rps & mps & El & Er & Em & S).
  unfold profileOf in *. rewrite El in Hl. rewrite Er in Hr. rewrite Em.
  specialize (S name). now rewrite Hr, Hl in S.
Qed.



(** C4, as the code has it.  For a profile that both documents have, with
    [l] and [r] the local and the remote [syncMeta.lastSyncAt] (0 when there
    is none), and [k] one of style, journey, hide_completed, collapsed and
    map_settings: when [r] is strictly greater, the merged profile has the
    remote [k] if the remote profile defines [k] and the local [k] if it does
    not; otherwise it has the local [k]. *)
Theorem merge_settings_follow_newer_sync
    local remote merged name lp rp k :
  truthy remote = true -> wf_value remote = true ->
  mergeProfiles profilesKey local remote = Some merged ->
  profileOf profilesKey local name = Some lp ->
  profileOf profilesKey remote name = Some rp ->
  In k nonMergeable ->
  exists mp l r,
    profileOf profilesKey merged name = Some mp /\
    syncAtOf lp = Some l /\ syncAtOf rp = Some r /\
    (l < r -> field mp k =
                match field rp k with Some v => Some v | None => field lp k end) /\
    (r <= l -> field mp k = field lp k).
Proof.
  intros Ht Hwf Hm Hl Hr Hk.
  destruct (merged_profile_of_both _ _ _ _ _ _ Ht Hwf Hm Hl Hr) as (mp & Hmp & Hof).
  destruct (mergeProfile_fields _ _ _ _ Hmp Hk) as (l & r & El & Er & E).
  exists mp, l, r. repeat split; try assumption; intros H; rewrite E.
  - now destruct (Z.ltb_spec l r); [ | lia ].
  - now destruct (Z.ltb_spec l r); [ lia | ].
Qed.

(** C2, as the code has it.  Merging with a null remote returns the local
    document as it is, whatever it is; merging a document with itself returns
    it as it is when it has its profile table and each profile has its
    checklistData and checklistTimestamps. *)
Theorem merge_idempotent_on_settled D :
  mergeProfiles profilesKey D VNull = Some D /\
  (wf_value D = true -> settled profilesKey D = true ->
   mergeProfiles profilesKey D D = Some D).
Proof.
  split; [ reflexivity | ]. intros Hwf Hs. unfold settled in Hs.
  destruct D as [ | | | | | o ]; try discriminate Hs. cbn [field] in Hs.
  destruct (lookup profilesKey o) as [ [ | | | | | ps ] | ] eqn:E; try discriminate Hs.
  unfold mergeProfiles. rewrite clone_id. cbn [truthy negb field]. rewrite E.
  cbn [or_empty truthy].
  pose proof (wf_obj_lookup _ _ _ Hwf E) as Hps.
  assert (Hplain : enumerateProfiles ps = Some ps).
  { apply plain_enumerateProfiles.
    apply forallb_forall. intros kv HI. rewrite forallb_forall in Hs.
    specialize (Hs kv HI). now apply andb_true_iff in Hs. }
  rewrite Hplain, each_mergeEntry_self.
  - now rewrite (set_prop_same _ _ _ E).
  - intros name p HI. split.
    + apply In_lookup; [ now apply wf_obj_keys | exact HI ].
    + rewrite forallb_forall in Hs. apply mergeProfile_self;
        [ | specialize (Hs _ HI); now apply andb_true_iff in Hs ].
      simpl in Hps. apply andb_true_iff in Hps. destruct Hps as [_ Hps].
      rewrite forallb_forall in Hps. exact (Hps _ HI).
Qed.

End MergeClaims.

(** ** The provider *)

Section ProviderClaims.

Variables syntaxErrorMsg typeErrorMsg : string.

Lemma findFile_cached fileId listing :
  truthy fileId = true ->
  findFile syntaxErrorMsg typeErrorMsg fileId listing = Resolved fileId.
Proof. intros H. unfold findFile. now rewrite H. Qed.

Lemma findFile_fails fileId listing msg :
  findFile syntaxErrorMsg typeErrorMsg fileId listing = Failed msg <->
  truthy fileId = false /\
  (listing = Rejected msg \/
   exists r, listing = Answered r /\
     (body r = None /\ msg = syntaxErrorMsg \/
      (body r = Some VNull \/
       exists data rest, body r = Some data /\
                         field data "files" = Some (VArr (VNull :: rest))) /\
      msg = typeErrorMsg)).
Proof.
  unfold findFile. destruct (truthy fileId) eqn:Et.
  - split; [ discriminate | now intros [[=] _] ].
  - destruct listing as [m | [k b]]; cbn [body].
    + split.
      * intros [= ->]. split; [ reflexivity | now left ].
      * intros (_ & [[= ->] | (r & [=] & _)]). reflexivity.
    + split.
      * intros H. split; [ reflexivity | ]. right. eexists.
        split; [ reflexivity | ]. cbn [body].
        destruct b as [data | ].
        -- right.
           destruct data as [ | x | x | x | x | o ];
             try (injection H as <-; split; [ now left | reflexivity ]);
             try discriminate H.
           cbn [field] in H.
           destruct (lookup "files" o)
             as [ [ | ? | ? | ? | [ | [ | ? | ? | ? | ? | ? ] ? ] | ? ] | ] eqn:Ef;
             try discriminate H.
           injection H as <-. split; [ | reflexivity ]. right.
           eexists. eexists. split; [ reflexivity | exact Ef ].
        -- left. injection H as <-. now split.
      * intros (_ & [[=] | (r & [= <-] & H)]). cbn [body] in H.
        destruct H as [[-> ->] | [[-> | (data & rest & -> & Hf)] ->]];
          try reflexivity.
        destruct data as [ | x | x | x | x | o ]; try discriminate Hf.
        cbn [field] in Hf |- *. now rewrite Hf.
Qed.


End ProviderClaims.

(** ** The history *)

Lemma saveVersionSnapshot_firstn now d h :
  saveVersionSnapshot now d h = firstn MAX_HISTORY (Snapshot now d :: h).
Proof.
  unfold saveVersionSnapshot. cbv zeta.
  destruct (Nat.ltb_spec MAX_HISTORY (List.length (Snapshot now d :: h))) as [H | H].
  - reflexivity.
  - symmetry. now apply firstn_all2.
Qed.

Lemma firstn_app_firstn {A : Type} n (l1 l2 : list A) :
  firstn n (l1 ++ firstn n l2) = firstn n (l1 ++ l2).
Proof.
  rewrite !firstn_app, firstn_firstn. do 2 f_equal. lia.
Qed.

Lemma savePushes_firstn pushes :
  forall h, pushes <> [] ->
    savePushes pushes h = firstn MAX_HISTORY (rev (snapshotsOf pushes) ++ h).
Proof.
  induction pushes as [ | [now d] pushes IH ]; intros h Hne; [ contradiction | ].
  unfold savePushes. cbn [fold_left fst snd]. fold (savePushes pushes).
  rewrite saveVersionSnapshot_firstn.
  destruct pushes as [ | p pushes ].
  - reflexivity.
  - rewrite IH by discriminate.
    change (snapshotsOf ((now, d) :: p :: pushes))
      with (Snapshot now d :: snapshotsOf (p :: pushes)).
    cbn [rev]. rewrite <- !app_assoc. cbn [app].
    apply firstn_app_firstn.
Qed.

(** ** The coordinator *)

Section CoordinatorClaims.

Variable profilesKey : string.
Variable typeErrorMsg : string.

Lemma saveVersionSnapshot_length now d h :
  (List.length (saveVersionSnapshot now d h) <= MAX_HISTORY)%nat.
Proof. rewrite saveVersionSnapshot_firstn. apply firstn_le_length. Qed.

Lemma doSync_history now c c' : doSync now c = Some c' -> history c' = history c.
Proof.
  unfold doSync.
  destruct (negb (activeProvider c) || is_syncing (currentState c));
    [ now intros [= <-] | ].
  cbv zeta. destruct (versionOf _); [ | discriminate ].
  destruct (setSyncMeta _ _); [ | discriminate ]. now intros [= <-].
Qed.

Lemma pullSettled_history now r c c' :
  pullSettled profilesKey typeErrorMsg now r c = Some c' -> history c' = history c.
Proof.
  unfold pullSettled. destruct r as [remote | msg]; [ | now intros [= <-] ].
  destruct (negb (truthy remote)).
  - destruct (doSync now c) as [c1 | ] eqn:E; [ | discriminate ].
    intros [= <-]. apply doSync_history in E. exact E.
  - cbv zeta. repeat (match goal with
                      | |- (match ?x with Some _ => _ | None => None end) = _ -> _ =>
                          destruct x; [ | discriminate ]
                      end).
    match goal with
    | |- context [activeProvider (setStored ?d c)] =>
        change (activeProvider (setStored d c)) with (activeProvider c)
    end.
    destruct (activeProvider c); now intros [= <-].
Qed.

(** Whatever happens, the history never has more than 10 entries. *)
Lemma step_history_cap c e c' :
  (List.length (history c) <= MAX_HISTORY)%nat ->
  step profilesKey typeErrorMsg c e = Some c' ->
  (List.length (history c') <= MAX_HISTORY)%nat.
Proof.
  intros Hc. destruct e as [ d | | now | now | now | | i r now | ]; cbn [step].
  - intros [= <-]. unfold localWrite, notifyChange.
    now destruct (negb (activeProvider (setStored d c))).
  - intros [= <-]. unfold notifyChange. now destruct (negb (activeProvider c)).
  - destruct (debounceTimer c); [ | now intros [= <-] ].
    intros H. apply doSync_history in H. now rewrite H.
  - destruct (pendingChanges c); [ | now intros [= <-] ].
    intros H. apply doSync_history in H. now rewrite H.
  - intros H. apply doSync_history in H. now rewrite H.
  - intros [= <-]. unfold doPullAndMerge. now destruct (negb (activeProvider c)).
  - destruct (nth_error (inFlight c) i) as [ [d | | d changed] | ];
      [ | | | now intros [= <-] ]; cbv zeta.
    + intros [= <-]. destruct r; [ apply saveVersionSnapshot_length | exact Hc ].
    + intros H. apply pullSettled_history in H. now rewrite H.
    + intros [= <-]. destruct r; [ apply saveVersionSnapshot_length | exact Hc ].
  - now intros [= <-].
Qed.

Lemma run_history_cap es :
  forall c c',
    (List.length (history c) <= MAX_HISTORY)%nat ->
    run profilesKey typeErrorMsg c es = Some c' ->
    (List.length (history c') <= MAX_HISTORY)%nat.
Proof.
  unfold run. induction es as [ | e es IH ]; intros c c' Hc; cbn [each].
  - now intros [= <-].
  - destruct (step profilesKey typeErrorMsg c e) as [c1 | ] eqn:E; [ | discriminate ].
    apply IH. now apply (step_history_cap c e).
Qed.

(** C7.  Each successful push, of [doSync] and of [doPullAndMerge], puts
    its snapshot at the front of the history and keeps the first 10 entries;
    after more than 10 pushes the history is the last 10 of them, the latest
    first; and no run of the coordinator takes the history beyond 10
    entries. *)
Theorem history_capped_newest_first :
  (forall c es c',
      (List.length (getHistory c) <= 10)%nat ->
      run profilesKey typeErrorMsg c es = Some c' ->
      (List.length (getHistory c') <= 10)%nat) /\
  (forall now d r c,
      getHistory (syncPushSettled now d (Resolved r) c)
      = saveVersionSnapshot now d (getHistory c)) /\
  (forall now d changed r c,
      getHistory (mergePushSettled now d changed (Resolved r) c)
      = saveVersionSnapshot now d (getHistory c)) /\
  (forall now d h,
      saveVersionSnapshot now d h = firstn 10 (Snapshot now d :: h)) /\
  (forall pushes h,
      (10 < List.length pushes)%nat ->
      List.length (savePushes pushes h) = 10%nat /\
      savePushes pushes h = firstn 10 (rev (snapshotsOf pushes))).
Proof.
  split; [ intros c es c'; apply run_history_cap | ].
  repeat split; try reflexivity.
  - apply saveVersionSnapshot_firstn.
  - rewrite savePushes_firstn by (destruct pushes; [ simpl in *; lia | discriminate ]).
    rewrite length_firstn, length_app, length_rev. unfold snapshotsOf.
    rewrite length_map. unfold MAX_HISTORY. lia.
  - rewrite savePushes_firstn by (destruct pushes; [ simpl in *; lia | discriminate ]).
    rewrite firstn_app.
    replace (MAX_HISTORY - List.length (rev (snapshotsOf pushes)))%nat with 0%nat.
    + now rewrite firstn_O, app_nil_r.
    + rewrite length_rev. unfold snapshotsOf. rewrite length_map.
      unfold MAX_HISTORY. lia.
Qed.

Lemma versionOf_stamped now v d d' :
  setSyncMeta (syncMeta now v) d = Some d' ->
  versionOf d' = Some v /\ lastSyncAtOf d' = Some now /\
  forall k, k <> "_syncMeta" -> field d' k = field d k.
Proof.
  destruct d as [ | | | | | o ]; try discriminate. intros [= <-].
  unfold versionOf, lastSyncAtOf. cbn [field]. rewrite lookup_set_prop_eq.
  repeat split.
  - simpl. now destruct (Z.eqb_spec v 0) as [-> | ].
  - simpl. now destruct (Z.eqb_spec now 0) as [-> | ].
  - intros k Hk. now apply lookup_set_prop_neq.
Qed.

Lemma doSync_starts now c o v :
  activeProvider c = true -> is_syncing (currentState c) = false ->
  getLocal c = VObj o -> versionOf (VObj o) = Some v ->
  doSync now c =
    Some (setInFlight
            (inFlight c ++
               [SyncPush (VObj (set_prop "_syncMeta" (syncMeta now (v + 1)) o))])
            (setState syncing c)).
Proof.
  intros Hp Hs Hl Hv. unfold doSync. rewrite Hp, Hs. cbn [negb orb].
  replace (getLocal (setState syncing c)) with (getLocal c) by reflexivity.
  rewrite Hl, Hv. reflexivity.
Qed.


(** C8, as the code has it.  [doSync] called while the state is syncing
    changes nothing.  [doPullAndMerge] does not look at the state: with a
    provider it sends its pull and sets the state to syncing whatever the
    state was, and without one it only calls [onComplete(false)]. *)
Theorem doSync_dropped_while_syncing :
  (forall now c, currentState c = syncing -> doSync now c = Some c) /\
  (forall c,
      activeProvider c = true ->
      inFlight (doPullAndMerge c) = inFlight c ++ [Pull] /\
      currentState (doPullAndMerge c) = syncing) /\
  (forall c,
      activeProvider c = false -> doPullAndMerge c = onComplete false c).
Proof.
  repeat split.
  - intros now c Hs. unfold doSync. rewrite Hs.
    now rewrite orb_true_r.
  - unfold doPullAndMerge. now rewrite H.
  - unfold doPullAndMerge. now rewrite H.
  - intros c H. unfold doPullAndMerge. now rewrite H.
Qed.

Lemma localWrites_keep c edits :
  activeProvider c = true -> pendingChanges c = true ->
  is_syncing (currentState c) = false ->
  activeProvider (fold_right localWrite c edits) = true /\
  pendingChanges (fold_right localWrite c edits) = true /\
  is_syncing (currentState (fold_right localWrite c edits)) = false /\
  inFlight (fold_right localWrite c edits) = inFlight c.
Proof.
  intros Hp Hc Hs. induction edits as [ | e edits IH ]; cbn [fold_right].
  - now repeat split.
  - destruct IH as (I1 & I2 & I3 & I4).
    generalize dependent (fold_right localWrite c edits). intros c3 I1 I2 I3 I4.
    unfold localWrite, notifyChange.
    replace (activeProvider (setStored e c3)) with (activeProvider c3) by reflexivity.
    rewrite I1. cbn. now repeat split.
Qed.

(** C9.  When the push of [doSync] fails, the message of the error is
    recorded ("Unknown error" when the error has an empty message), the state
    is error, and the pending flag, the stored document, the history and the
    provider are as they were; with the flag set and a provider, whatever the
    page writes afterwards, the next periodic tick sends the document that is
    stored then, with a new [_syncMeta] and all its other properties. *)
Theorem push_failure_keeps_pending now d msg c :
  let c' := syncPushSettled now d (Failed msg) c in
  (msg <> "" -> lastErrorMsg c' = msg) /\
  (msg = "" -> lastErrorMsg c' = "Unknown error") /\
  currentState c' = error /\
  pendingChanges c' = pendingChanges c /\
  stored c' = stored c /\
  history c' = history c /\
  activeProvider c' = activeProvider c /\
  (forall edits now2 o v,
      pendingChanges c = true -> activeProvider c = true ->
      getLocal (fold_right localWrite c' edits) = VObj o ->
      versionOf (VObj o) = Some v ->
      exists c2 d2,
        step profilesKey typeErrorMsg (fold_right localWrite c' edits)
          (PeriodicTick now2) = Some c2 /\
        inFlight c2 = inFlight c ++ [SyncPush d2] /\
        lastSyncAtOf d2 = Some now2 /\
        forall k, k <> "_syncMeta" -> field d2 k = lookup k o).
Proof.
  cbv zeta. split; [ | split ].
  - intros Hne. cbn. unfold messageOr.
    now destruct (String.eqb_spec msg "").
  - now intros ->.
  - repeat split.
    intros edits now2 o v Hpend Hprov.
    set (c' := syncPushSettled now d (Failed msg) c).
    set (c3 := fold_right localWrite c' edits).
    destruct (localWrites_keep c' edits Hprov Hpend eq_refl) as (I1 & I2 & I3 & I4).
    fold c3 in I1, I2, I3, I4. change (inFlight c') with (inFlight c) in I4.
    clearbody c3. intros Hl Hv.
    cbn [step]. rewrite I2.
    rewrite (doSync_starts now2 c3 o v I1 I3 Hl Hv).
    eexists. eexists. split; [ reflexivity | ].
    destruct (versionOf_stamped now2 (v + 1) (VObj o) _ eq_refl) as (_ & H2 & H3).
    split; [ | split ].
    + simpl. now rewrite I4.
    + exact H2.
    + exact H3.
Qed.

End CoordinatorClaims.

(* ===================================================================== *)
(** * Concrete runs *)
(* ===================================================================== *)

Import Runs MoreRuns.



(** C3, on the code.  The remote document has the profiles Default and
    toString, the local document has Default only: the merge returns, and
    the merged document has no profile toString.  With Trip2 for name the
    same profile is adopted. *)
Theorem merge_leaves_out_profile_named_toString :
  profileOf pk (document (profile true 100)) "toString" = None /\
  profileOf pk withToString "toString" = Some (profile true 50) /\
  mergeProfiles pk (document (profile true 100)) withToString
  = Some (document (profile false 200)) /\
  profileOf pk (document (profile false 200)) "toString" = None /\
  mergeProfiles pk (document (profile true 100)) trips = Some trips /\
  profileOf pk trips "Trip2" = Some (profile true 50).
Proof. repeat split. Qed.

Lemma merge_settings_follow_newer_sync_witness :
  exists mp l r,
    profileOf pk
      (document (VObj [("journey", VStr "j1");
                       ("syncMeta", VObj [("lastSyncAt", VNum 1)]);
                       ("checklistData", VObj []);
                       ("checklistTimestamps", VObj []);
                       ("style", VStr "light")])) "Default" = Some mp /\
    syncAtOf darkLocal = Some l /\ syncAtOf lightRemote = Some r /\
    (l < r -> field mp "style" =
                match field lightRemote "style" with
                | Some v => Some v
                | None => field darkLocal "style"
                end) /\
    (r <= l -> field mp "style" = field darkLocal "style").
Proof.
  apply (merge_settings_follow_newer_sync pk
           (document darkLocal) (document lightRemote) _ "Default"
           darkLocal lightRemote "style");
    try reflexivity.
  simpl. now left.
Defined.

(** Against C4 as the spec has it: the remote profile was synced later
    (2 against 1) and has no journey; the merged profile has the remote
    style and the local journey, which is not the block of either side. *)
Lemma merge_settings_not_one_block :
  exists merged mp,
    mergeProfiles pk (document darkLocal) (document lightRemote) = Some merged /\
    profileOf pk merged "Default" = Some mp /\
    syncAtOf darkLocal = Some 1 /\ syncAtOf lightRemote = Some 2 /\
    field mp "style" = field lightRemote "style" /\
    field mp "journey" = field darkLocal "journey" /\
    field mp "journey" <> field lightRemote "journey" /\
    field mp "style" <> field darkLocal "style".
Proof.
  eexists. eexists. repeat split; try reflexivity; discriminate.
Defined.

Lemma merge_idempotent_on_settled_witness :
  mergeProfiles pk (document (profile true 100)) (document (profile true 100))
  = Some (document (profile true 100)).
Proof.
  apply (proj2 (merge_idempotent_on_settled pk (document (profile true 100))));
    reflexivity.
Defined.

(** Against C2 as the spec has it: the empty document merged with itself
    gains an empty profile table, and a profile without dates merged with
    itself gains an empty table of dates. *)
Lemma merge_self_not_identity :
  mergeProfiles pk (VObj []) (VObj []) = Some (VObj [(pk, VObj [])]) /\
  mergeProfiles pk (VObj []) (VObj []) <> Some (VObj []) /\
  let p := VObj [("checklistData", VObj [("itemX", VBool true)])] in
  mergeProfiles pk (document p) (document p)
  = Some (document (VObj [("checklistData", VObj [("itemX", VBool true)]);
                          ("checklistTimestamps", VObj [])])) /\
  mergeProfiles pk (document p) (document p) <> Some (document p).
Proof.
  repeat split; try reflexivity; discriminate.
Defined.



Lemma history_capped_newest_first_witness :
  List.length (savePushes eleven []) = 10%nat /\
  savePushes eleven [] = firstn 10 (rev (snapshotsOf eleven)).
Proof.
  apply (proj2 (proj2 (proj2 (proj2 (history_capped_newest_first pk "TypeError"))))
           eleven []).
  simpl. lia.
Defined.



Lemma doSync_dropped_while_syncing_witness :
  doSync 1000 (busy (document (profile true 100)))
  = Some (busy (document (profile true 100))) /\
  inFlight (doPullAndMerge (busy (document (profile true 100))))
  = [SyncPush (document (profile true 100)); Pull].
Proof.
  split.
  - apply (proj1 doSync_dropped_while_syncing). reflexivity.
  - apply (proj1 (proj2 doSync_dropped_while_syncing)). reflexivity.
Defined.

(** Against C8 as the spec has it: in the state syncing, with the push of
    [doSync] in flight, [doPullAndMerge] is not dropped, and two requests
    are in flight; the same from an idle coordinator by the button
    "Sync now" followed by the pull of the page load. *)
Lemma pull_and_merge_not_dropped_while_syncing :
  let c := busy (document (profile true 100)) in
  currentState c = syncing /\
  doPullAndMerge c <> c /\
  List.length (inFlight (doPullAndMerge c)) = 2%nat /\
  exists c2 d,
    run pk "TypeError" (idle (document (profile true 100)))
      [SyncNow 1000; PullAndMerge] = Some c2 /\
    inFlight c2 = [SyncPush d; Pull].
Proof.
  repeat split.
  - discriminate.
  - eexists. eexists. split; reflexivity.
Defined.

Lemma push_failure_keeps_pending_witness :
  lastErrorMsg (syncPushSettled 1000 (versioned 4 (profile true 100))
                  (Failed "Failed to fetch")
                  (setState syncing (idle (versioned 3 (profile true 100)))))
  = "Failed to fetch" /\
  exists c2 d2,
    step pk "TypeError"
      (localWrite (versioned 3 (profile false 300))
         (syncPushSettled 1000 (versioned 4 (profile true 100))
            (Failed "Failed to fetch")
            (setState syncing (idle (versioned 3 (profile true 100))))))
      (PeriodicTick 2000) = Some c2 /\
    inFlight c2 = [SyncPush d2] /\
    lastSyncAtOf d2 = Some 2000 /\
    field d2 pk = field (versioned 3 (profile false 300)) pk.
Proof.
  pose proof (push_failure_keeps_pending pk "TypeError" 1000
                (versioned 4 (profile true 100)) "Failed to fetch"
                (setState syncing (idle (versioned 3 (profile true 100))))) as H.
  cbv zeta in H. destruct H as (Hmsg & _ & _ & _ & _ & _ & _ & H).
  split; [ apply Hmsg; discriminate | ].
  destruct (H [versioned 3 (profile false 300)] 2000
              [(pk, VObj [("Default", profile false 300)]);
               ("_syncMeta", syncMeta 10 3)] 3 eq_refl eq_refl eq_refl eq_refl)
    as (c2 & d2 & H1 & H2 & H3 & H4).
  exists c2, d2. repeat split; try assumption.
  apply H4. discriminate.
Defined.

(* ===================================================================== *)
(** * The merge writes to new objects only *)
(* ===================================================================== *)

Section StoreProps.

Import Store.
Local Open Scope nat_scope.

Lemma keeps_refl n U s : keeps n U s s.
Proof. split; [ lia | reflexivity ]. Qed.

Lemma keeps_trans n U s1 s2 s3 :
  n <= List.length s1 -> keeps n U s1 s2 -> keeps n U s2 s3 -> keeps n U s1 s3.
Proof.
  intros Hn [L1 K1] [L2 K2]. split; [ lia | ].
  intros l Hl HU. now rewrite K2, K1.
Qed.

Lemma keeps_weaken n n' (U U' : loc -> Prop) s s' :
  n' <= n -> (forall l, U' l -> U l) -> keeps n U s s' -> keeps n' U' s s'.
Proof.
  intros Hn HU [L K]. split; [ exact L | ].
  intros l Hl Hu. apply K; [ lia | now apply HU ].
Qed.

Lemma nth_error_update_neq {A : Type} l l' (x : A) s :
  l <> l' -> nth_error (update l' x s) l = nth_error s l.
Proof.
  revert l l'. induction s as [ | y s IH ]; intros l l' Hne; simpl.
  - reflexivity.
  - destruct l' as [ | l' ]; destruct l as [ | l ]; simpl; try reflexivity.
    + contradiction.
    + apply IH. lia.
Qed.

Lemma nth_error_update_eq {A : Type} l (x : A) s :
  l < List.length s -> nth_error (update l x s) l = Some x.
Proof.
  revert l. induction s as [ | y s IH ]; intros l Hl; simpl in *; [ lia | ].
  destruct l as [ | l ]; simpl; [ reflexivity | apply IH; lia ].
Qed.

Lemma length_update {A : Type} l (x : A) s :
  List.length (update l x s) = List.length s.
Proof.
  revert l. induction s as [ | y s IH ]; intros l; simpl; [ reflexivity | ].
  destruct l; simpl; [ reflexivity | now rewrite IH ].
Qed.

(** *** Rules *)

Lemma touches_ret {A : Type} n U (a : A) (Q : A -> Prop) :
  Q a -> touches n U (ret a) Q.
Proof.
  intros Ha s _. split; [ apply keeps_refl | ]. simpl. now intros ? [= <-].
Qed.

Lemma touches_throw {A : Type} n U (Q : A -> Prop) : touches n U throw Q.
Proof. intros s _. split; [ apply keeps_refl | discriminate ]. Qed.

Lemma touches_bind {A B : Type} n U (m : M A) (f : A -> M B) Q R :
  touches n U m Q -> (forall a, Q a -> touches n U (f a) R) ->
  touches n U (bind m f) R.
Proof.
  intros Hm Hf s Hs. destruct (Hm s Hs) as [K HQ]. unfold bind.
  destruct (m s) as [s1 [a | ]]; simpl in *.
  - destruct (Hf a (HQ a eq_refl) s1) as [K' HR]; [ destruct K; lia | ].
    split; [ | exact HR ]. now apply (keeps_trans _ _ _ s1).
  - split; [ exact K | discriminate ].
Qed.

Lemma touches_weaken {A : Type} n U (m : M A) (Q Q' : A -> Prop) :
  (forall a, Q a -> Q' a) -> touches n U m Q -> touches n U m Q'.
Proof.
  intros HQ Hm s Hs. destruct (Hm s Hs) as [K H]. split; [ exact K | ].
  intros a Ha. apply HQ, H, Ha.
Qed.

Lemma touches_alloc n U c : touches n U (alloc c) (fun l => n <= l).
Proof.
  intros s Hs. unfold alloc. simpl. split.
  - split; [ rewrite length_app; simpl; lia | ].
    intros l Hl _. apply nth_error_app1. lia.
  - intros a [= <-]. exact Hs.
Qed.

Lemma touches_readCell n U l : touches n U (readCell l) (fun _ => True).
Proof. intros s _. split; [ apply keeps_refl | trivial ]. Qed.

Lemma touches_writeCell n U l c :
  n <= l \/ ~ U l -> touches n U (writeCell l c) (fun _ => True).
Proof.
  intros Hl s _. unfold writeCell. split; [ | trivial ].
  destruct (nth_error s l); simpl; [ | apply keeps_refl ].
  split; [ now rewrite length_update | ].
  intros l' Hl' HU. apply nth_error_update_neq. intros ->. destruct Hl; [ lia | tauto ].
Qed.

Lemma touches_getProp n U v k : touches n U (getProp v k) (fun _ => True).
Proof.
  destruct v; simpl; try (now apply touches_ret); try apply touches_throw.
  eapply touches_bind; [ apply touches_readCell | ].
  intros [props | elems] _; now apply touches_ret.
Qed.

Lemma touches_setProp n U v k x :
  (forall l, v = JRef l -> n <= l \/ ~ U l) ->
  touches n U (setProp v k x) (fun _ => True).
Proof.
  intros Hv. destruct v; simpl; try apply touches_throw.
  eapply touches_bind; [ apply touches_readCell | ].
  intros [props | elems] _; [ | apply touches_throw ].
  apply touches_writeCell. now apply Hv.
Qed.

Lemma touches_propsOf n U l : touches n U (propsOf l) (fun _ => True).
Proof.
  eapply touches_bind; [ apply touches_readCell | ].
  intros [props | elems] _; [ now apply touches_ret | apply touches_throw ].
Qed.

Lemma touches_forIn n U l :
  touches n U (forIn l) (fun _ => True).
Proof.
  eapply touches_bind; [ apply touches_propsOf | ]. intros props _.
  destruct (enumerate props); [ now apply touches_ret | apply touches_throw ].
Qed.

Lemma touches_or_empty n U x : touches n U (Store.or_empty x) (fun _ => True).
Proof.
  assert (Hnew : touches n U (alloc (CObj [])) (fun _ => True))
    by (eapply touches_weaken; [ | apply touches_alloc ]; trivial).
  destruct x as [ [ | b | z | str | l ] | ]; simpl; try exact Hnew.
  - destruct b; [ apply touches_throw | exact Hnew ].
  - destruct (negb (z =? 0)%Z); [ apply touches_throw | exact Hnew ].
  - destruct (negb (str =? "")%string); [ apply touches_throw | exact Hnew ].
  - eapply touches_bind; [ apply touches_readCell | ].
    intros [props | elems] _; [ now apply touches_ret | apply touches_throw ].
Qed.

Lemma touches_or_zero n U x : touches n U (Store.or_zero x) (fun _ => True).
Proof.
  destruct x as [ v | ]; simpl; [ | now apply touches_ret ].
  destruct (Store.truthy v); [ | now apply touches_ret ].
  destruct v; try apply touches_throw. now apply touches_ret.
Qed.

Lemma touches_meta_num n U x k : touches n U (Store.meta_num x k) (fun _ => True).
Proof.
  destruct x as [ v | ]; simpl; [ | now apply touches_ret ].
  destruct (Store.truthy v); [ | now apply touches_ret ].
  eapply touches_bind; [ apply touches_getProp | ]. intros y _. apply touches_or_zero.
Qed.

Lemma touches_forEach {B : Type} n U (f : B -> M unit) l :
  (forall x, touches n U (f x) (fun _ => True)) ->
  touches n U (forEach f l) (fun _ => True).
Proof.
  intros Hf. induction l as [ | x l IH ]; simpl.
  - now apply touches_ret.
  - eapply touches_bind; [ apply Hf | ]. intros _ _. exact IH.
Qed.

Lemma touches_extend n U src : touches n U (Store.extend src) (fun t => n <= t).
Proof.
  unfold Store.extend.
  eapply touches_bind; [ apply touches_alloc | ]. intros t Ht. cbv beta in Ht.
  eapply touches_bind; [ apply touches_forIn | ]. intros props _.
  eapply touches_bind.
  - apply touches_forEach. intros kv. apply touches_setProp.
    intros l [= <-]. now left.
  - intros _ _. now apply touches_ret.
Qed.

(** *** One profile *)

Ltac touch :=
  eapply touches_bind;
  [ first [ apply touches_getProp | apply touches_or_empty | apply touches_or_zero
          | apply touches_extend | apply touches_propsOf
          | apply touches_forIn | apply touches_meta_num ]
  | cbv beta; intros ? ? ].

Lemma touches_mergeItem n U localTs remoteTs mergedData mergedTs item :
  n <= mergedData -> n <= mergedTs ->
  touches n U (Store.mergeItem localTs remoteTs mergedData mergedTs item)
    (fun _ => True).
Proof.
  intros Hd Ht. destruct item as [itemId rVal]. unfold Store.mergeItem.
  do 4 touch.
  match goal with |- touches _ _ (if ?b then _ else _) _ => destruct b end;
    [ | now apply touches_ret ].
  eapply touches_bind; [ | intros _ _ ];
    apply touches_setProp; intros l [= <-]; now left.
Qed.

Lemma touches_takeField n U lp rp k :
  (forall l, lp = JRef l -> n <= l \/ ~ U l) ->
  touches n U (Store.takeField lp rp k) (fun _ => True).
Proof.
  intros Hlp. unfold Store.takeField. touch.
  destruct a; [ now apply touches_setProp | now apply touches_ret ].
Qed.

Lemma touches_mergeProfile n U lp rp :
  (forall l, lp = JRef l -> n <= l \/ ~ U l) ->
  touches n U (Store.mergeProfile lp rp) (fun _ => True).
Proof.
  intros Hlp. unfold Store.mergeProfile.
  do 11 touch.
  eapply touches_bind.
  { apply touches_forEach. intros item. now apply touches_mergeItem. }
  intros _ _.
  eapply touches_bind; [ now apply touches_setProp | intros _ _ ].
  eapply touches_bind; [ now apply touches_setProp | intros _ _ ].
  do 4 touch.
  match goal with |- touches _ _ (if ?b then _ else _) _ => destruct b end;
    [ | now apply touches_ret ].
  apply touches_forEach. intros k. now apply touches_takeField.
Qed.

(** [mergeProfile], run on the profile at [l] in a store [s], leaves every
    other cell of [s] as it is. *)
Lemma mergeProfile_keeps lp rp s :
  keeps (List.length s) (fun l => lp <> JRef l) s
    (fst (Store.mergeProfile lp rp s)).
Proof.
  apply (touches_mergeProfile (List.length s) (fun l => lp <> JRef l) lp rp);
    [ | lia ].
  intros l ->. right. intros H. now apply H.
Qed.

(** *** The copy *)

Lemma grown_refl base s : grown base s s.
Proof.
  exists []. split; [ now rewrite app_nil_r | ]. intros [ | i ] c; discriminate.
Qed.

Lemma grown_length base s s' : grown base s s' -> List.length s <= List.length s'.
Proof. intros (ext & -> & _). rewrite length_app. lia. Qed.

Lemma grown_trans base s1 s2 s3 :
  grown base s1 s2 -> grown base s2 s3 -> grown base s1 s3.
Proof.
  intros (e1 & -> & H1) (e2 & -> & H2). exists (e1 ++ e2).
  split; [ now rewrite app_assoc | ].
  intros i c Hc. destruct (Nat.lt_ge_cases i (List.length e1)) as [Hi | Hi].
  - rewrite nth_error_app1 in Hc by exact Hi. now apply H1.
  - rewrite nth_error_app2 in Hc by exact Hi. apply H2 in Hc.
    eapply Forall_impl; [ | exact Hc ]. cbv beta. intros l. rewrite length_app. lia.
Qed.

Lemma grown_alloc base s c :
  Forall (fun l => base <= l < List.length s) (refs c) -> grown base s (s ++ [c]).
Proof.
  intros H. exists [c]. split; [ reflexivity | ].
  intros [ | [ | i ] ] c'; simpl; try discriminate. intros [= <-].
  eapply Forall_impl; [ | exact H ]. cbv beta. intros l. lia.
Qed.

Lemma grown_keeps base n U s s' :
  n <= List.length s -> grown base s s' -> keeps n U s s'.
Proof.
  intros Hn (ext & -> & _). split; [ rewrite length_app; lia | ].
  intros l Hl _. apply nth_error_app1. lia.
Qed.

Lemma grown_new_cell base s s' l c :
  grown base s s' -> List.length s <= l -> nth_error s' l = Some c ->
  Forall (fun l' => base <= l' < l) (refs c).
Proof.
  intros (ext & -> & H) Hl Hc. rewrite nth_error_app2 in Hc by exact Hl.
  apply H in Hc. eapply Forall_impl; [ | exact Hc ]. cbv beta. intros l'. lia.
Qed.

Lemma mapM_grown {A B : Type} base (f : A -> M B) (r : B -> list loc) l :
  Forall (fun x => forall s, base <= List.length s ->
            exists s1 v, f x s = (s1, Some v) /\ grown base s s1 /\
                         Forall (fun l => base <= l < List.length s1) (r v)) l ->
  forall s, base <= List.length s ->
    exists s1 vs, mapM f l s = (s1, Some vs) /\ grown base s s1 /\
                  Forall (fun l => base <= l < List.length s1) (flat_map r vs).
Proof.
  induction 1 as [ | x l Hx _ IH ]; intros s Hs.
  - exists s, []. repeat split; [ apply grown_refl | constructor ].
  - destruct (Hx s Hs) as (s1 & v & Ev & G1 & R1).
    pose proof (grown_length _ _ _ G1) as L1.
    destruct (IH s1) as (s2 & vs & Evs & G2 & R2); [ lia | ].
    pose proof (grown_length _ _ _ G2) as L2.
    exists s2, (v :: vs). simpl. unfold bind at 1. rewrite Ev.
    unfold bind at 1. fold (mapM f l). rewrite Evs. simpl.
    repeat split; [ now apply (grown_trans _ _ s1) | ].
    apply Forall_app. split; [ | exact R2 ].
    eapply Forall_impl; [ | exact R1 ]. cbv beta. intros l'. lia.
Qed.

Lemma parse_grown t :
  forall base s, base <= List.length s ->
    exists s1 v, parse t s = (s1, Some v) /\ grown base s s1 /\
                 Forall (fun l => base <= l < List.length s1) (refOf v).
Proof.
  induction t as [ | b | n | x | l IHl | o IHo ] using value_ind; intros base s Hs.
  - exists s, JNull. repeat split; [ apply grown_refl | constructor ].
  - exists s, (JBool b). repeat split; [ apply grown_refl | constructor ].
  - exists s, (JNum n). repeat split; [ apply grown_refl | constructor ].
  - exists s, (JStr x). repeat split; [ apply grown_refl | constructor ].
  - destruct (mapM_grown base parse refOf l) with (s := s)
      as (s1 & elems & E & G & R); [ | exact Hs | ].
    { eapply Forall_impl; [ | exact IHl ]. cbv beta. intros t Ht s' Hs'. now apply Ht. }
    pose proof (grown_length _ _ _ G) as L.
    exists (s1 ++ [CArr elems]), (JRef (List.length s1)).
    simpl. unfold bind at 1. rewrite E. unfold bind, alloc, ret. simpl.
    repeat split.
    + apply (grown_trans _ _ s1); [ exact G | ]. now apply grown_alloc.
    + constructor; [ | constructor ]. rewrite length_app. simpl. lia.
  - destruct (mapM_grown base (fun kx => bind (parse (snd kx)) (fun v => ret (fst kx, v)))
                (fun kv => refOf (snd kv)) o) with (s := s)
      as (s1 & props & E & G & R); [ | exact Hs | ].
    { eapply Forall_impl; [ | exact IHo ]. cbv beta. intros [k t] Ht s' Hs'.
      destruct (Ht base s' Hs') as (s1 & v & Ev & G & R).
      exists s1, (k, v). simpl. unfold bind. simpl in Ev. rewrite Ev. now repeat split. }
    pose proof (grown_length _ _ _ G) as L.
    exists (s1 ++ [CObj props]), (JRef (List.length s1)).
    simpl. unfold bind at 1. rewrite E. unfold bind, alloc, ret. simpl.
    repeat split.
    + apply (grown_trans _ _ s1); [ exact G | ]. now apply grown_alloc.
    + constructor; [ | constructor ]. rewrite length_app. simpl. lia.
Qed.

(** *** The profile loop *)

Lemma lookup_refs k l props :
  lookup k props = Some (JRef l) -> In l (refs (CObj props)).
Proof.
  intros H. apply lookup_In in H. simpl. apply in_flat_map.
  exists (k, JRef l). split; [ exact H | now left ].
Qed.

Lemma adopted_only_more n0 mp visited visited' s :
  (forall k, In k visited -> In k visited') ->
  adopted_only n0 mp visited s -> adopted_only n0 mp visited' s.
Proof.
  intros Hsub H props Hc k l Hl. destruct (H props Hc k l Hl) as [H1 H2].
  split; [ exact H1 | ]. intros Hlt. apply Hsub, H2, Hlt.
Qed.

Lemma setProp_run l k x s :
  setProp (JRef l) k x s =
    match nth_error s l with
    | Some (CObj props) => (update l (CObj (set_prop k x props)) s, Some tt)
    | _ => (s, None)
    end.
Proof.
  unfold setProp, bind, readCell, writeCell.
  destruct (nth_error s l) as [ [props | elems] | ] eqn:E; try reflexivity.
  now rewrite E.
Qed.

Lemma getProp_run l k s :
  getProp (JRef l) k s =
    match nth_error s l with
    | Some (CObj props) => (s, Some (lookup k props))
    | Some (CArr _) => (s, Some None)
    | None => (s, None)
    end.
Proof.
  unfold getProp, bind, readCell.
  destruct (nth_error s l) as [ [props | elems] | ]; reflexivity.
Qed.

Lemma propsOf_run l s :
  propsOf l s =
    match nth_error s l with
    | Some (CObj props) => (s, Some props)
    | _ => (s, None)
    end.
Proof.
  unfold propsOf, bind, readCell.
  destruct (nth_error s l) as [ [props | elems] | ]; reflexivity.
Qed.

Lemma forIn_inv l s s1 r :
  forIn l s = (s1, r) ->
  s1 = s /\ forall entries, r = Some entries -> nth_error s l = Some (CObj entries).
Proof.
  unfold forIn. unfold bind. rewrite propsOf_run.
  destruct (nth_error s l) as [ [props | elems] | ];
    try (intros [= <- <-]; split; [ reflexivity | discriminate ]).
  destruct (enumerate props) as [props' | ] eqn:E.
  - apply enumerate_Some in E. subst props'. intros [= <- <-].
    split; [ reflexivity | ]. now intros entries [= <-].
  - intros [= <- <-]. split; [ reflexivity | discriminate ].
Qed.

Lemma mergeEntry_run mp name rp s :
  Store.mergeEntry mp (name, rp) s =
    match nth_error s mp with
    | Some (CObj props) =>
        match lookup name props with
        | Some lp => Store.mergeProfile lp rp s
        | None => setProp (JRef mp) name rp s
        end
    | _ => (s, None)
    end.
Proof.
  unfold Store.mergeEntry. unfold bind at 1. rewrite propsOf_run.
  destruct (nth_error s mp) as [ [props | elems] | ]; try reflexivity.
  now destruct (lookup name props).
Qed.

Lemma mergeEntry_step n0 mp name rp visited s :
  n0 <= mp -> mp < List.length s ->
  ~ In name visited -> valid n0 rp = true ->
  adopted_only n0 mp visited s ->
  keeps n0 everywhere s (fst (Store.mergeEntry mp (name, rp) s)) /\
  mp < List.length (fst (Store.mergeEntry mp (name, rp) s)) /\
  adopted_only n0 mp (name :: visited) (fst (Store.mergeEntry mp (name, rp) s)).
Proof.
  intros Hmp Hlen Hname Hrp Hinv.
  assert (Hmore : adopted_only n0 mp (name :: visited) s).
  { eapply adopted_only_more; [ | exact Hinv ]. intros k Hk. now right. }
  rewrite mergeEntry_run.
  destruct (nth_error s mp) as [ [props | elems] | ] eqn:Ecell; cbn [fst];
    try (split; [ apply keeps_refl | split; [ exact Hlen | exact Hmore ] ]).
  destruct (lookup name props) as [lp | ] eqn:Elp.
  - pose proof (mergeProfile_keeps lp rp s) as [L K].
    assert (Hfresh : forall l, lp = JRef l -> l <> mp /\ n0 <= l).
    { intros l ->. destruct (Hinv props Ecell name l Elp) as [H1 H2].
      split; [ exact H1 | ]. destruct (Nat.lt_ge_cases l n0); [ | assumption ].
      exfalso. apply Hname. now apply H2. }
    split; [ split | split ].
    + exact L.
    + intros l Hl _. apply K; [ lia | ]. intros ->.
      destruct (Hfresh l eq_refl). lia.
    + lia.
    + intros props' Hc k l Hl.
      rewrite K in Hc by (try lia; intros ->; now destruct (Hfresh mp eq_refl)).
      now apply (Hmore props' Hc).
  - rewrite setProp_run, Ecell. cbn [fst].
    split; [ split | split ].
    + now rewrite length_update.
    + intros l Hl _. apply nth_error_update_neq. lia.
    + now rewrite length_update.
    + intros props' Hc k l Hl.
      rewrite nth_error_update_eq in Hc by exact Hlen. injection Hc as <-.
      destruct (String.eqb_spec k name) as [-> | Hne].
      * rewrite lookup_set_prop_eq in Hl. injection Hl as ->. simpl in Hrp.
        apply Nat.ltb_lt in Hrp. split; [ lia | intros _; now left ].
      * rewrite lookup_set_prop_neq in Hl by exact Hne.
        now apply (Hmore props Ecell).
Qed.

Lemma forEach_mergeEntry_keeps n0 mp entries :
  forall visited s,
    n0 <= mp -> mp < List.length s ->
    NoDup (keys entries) ->
    (forall k, In k (keys entries) -> ~ In k visited) ->
    (forall k v, In (k, v) entries -> valid n0 v = true) ->
    adopted_only n0 mp visited s ->
    keeps n0 everywhere s (fst (forEach (Store.mergeEntry mp) entries s)).
Proof.
  induction entries as [ | [name rp] entries IH ];
    intros visited s Hmp Hlen Hnd Hnew Hval Hinv.
  - apply keeps_refl.
  - inversion Hnd as [ | ? ? Hname Hnd' ]; subst.
    destruct (mergeEntry_step n0 mp name rp visited s Hmp Hlen)
      as (K1 & L1 & I1); try assumption.
    { apply Hnew. now left. }
    { apply (Hval name). now left. }
    cbn [forEach]. unfold bind at 1.
    destruct (Store.mergeEntry mp (name, rp) s) as [s1 [ [] | ]]; cbn [fst] in *;
      [ | exact K1 ].
    apply (keeps_trans _ _ _ s1); [ lia | exact K1 | ].
    apply (IH (name :: visited)); try assumption.
    + intros k Hk [<- | Hv]; [ contradiction | ].
      apply (Hnew k); [ now right | exact Hv ].
    + intros k v HI. apply (Hval k). now right.
Qed.

(** *** The whole document *)

Lemma bind_post {A B : Type} (m : M A) (f : A -> M B) s
    (G : store * option B -> Prop) :
  (forall s1, m s = (s1, None) -> G (s1, None)) ->
  (forall s1 a, m s = (s1, Some a) -> G (f a s1)) ->
  G (bind m f s).
Proof.
  intros HN HS. unfold bind. destruct (m s) as [s1 [a | ]]; [ now apply HS | now apply HN ].
Qed.

Lemma wf_store_cell s l c :
  wf_store s = true -> nth_error s l = Some c -> wf_cell (List.length s) c = true.
Proof.
  unfold wf_store. rewrite forallb_forall. intros H Hc. apply H.
  eapply nth_error_In, Hc.
Qed.

Lemma wf_cell_props n props :
  wf_cell n (CObj props) = true ->
  NoDup (keys props) /\ forall k v, In (k, v) props -> valid n v = true.
Proof.
  simpl. rewrite andb_true_iff, forallb_forall. intros [Hnd Hv]. split.
  - now apply nodupb_NoDup.
  - intros k v HI. exact (Hv (k, v) HI).
Qed.

Lemma keeps_prefix s0 s l :
  keeps (List.length s0) everywhere s0 s -> l < List.length s0 ->
  nth_error s l = nth_error s0 l.
Proof. intros [_ K] Hl. now apply K. Qed.

Lemma getProp_old s0 s v k s1 r :
  wf_store s0 = true -> valid (List.length s0) v = true ->
  keeps (List.length s0) everywhere s0 s ->
  getProp v k s = (s1, r) ->
  s1 = s /\ forall l, r = Some (Some (JRef l)) -> l < List.length s0.
Proof.
  intros Hwf Hv K. destruct v as [ | b | z | x | l ]; simpl;
    try (intros [= <- <-]; split; [ reflexivity | discriminate ]).
  fold (getProp (JRef l) k). rewrite getProp_run.
  simpl in Hv. apply Nat.ltb_lt in Hv.
  rewrite (keeps_prefix _ _ _ K Hv).
  destruct (nth_error s0 l) as [ [props | elems] | ] eqn:Ec;
    intros [= <- <-]; (split; [ reflexivity | try discriminate ]).
  intros l' [= Hl]. apply lookup_In in Hl.
  destruct (wf_cell_props _ _ (wf_store_cell _ _ _ Hwf Ec)) as [_ Hval].
  apply Hval in Hl. simpl in Hl. now apply Nat.ltb_lt in Hl.
Qed.

Lemma or_empty_run x s s1 r :
  Store.or_empty x s = (s1, r) ->
  (s1 = s /\ r = None) \/
  (s1 = s /\ exists l, x = Some (JRef l) /\ r = Some l) \/
  (s1 = s ++ [CObj []] /\ r = Some (List.length s)).
Proof.
  destruct x as [ [ | b | z | x | l ] | ]; simpl.
  - intros [= <- <-]. now right; right.
  - destruct b; intros [= <- <-]; [ now left | now right; right ].
  - destruct (negb (z =? 0)%Z); intros [= <- <-]; [ now left | now right; right ].
  - destruct (negb (x =? "")%string); intros [= <- <-]; [ now left | now right; right ].
  - unfold bind, readCell.
    destruct (nth_error s l) as [ [props | elems] | ]; intros [= <- <-];
      [ | now left | now left ].
    right; left. split; [ reflexivity | ]. now exists l.
  - intros [= <- <-]. now right; right.
Qed.

Lemma keeps_alloc n0 s0 s c :
  n0 <= List.length s -> keeps n0 everywhere s0 s ->
  keeps n0 everywhere s0 (s ++ [c]).
Proof.
  intros Hn [L K]. split; [ rewrite length_app; lia | ].
  intros l Hl HU. rewrite nth_error_app1 by lia. now apply K.
Qed.

Lemma merged_table n0 s0 s merged k s1 r :
  grown n0 s0 s -> List.length s0 <= n0 ->
  Forall (fun l => n0 <= l < List.length s) (refOf merged) ->
  (if Store.truthy merged then getProp merged k else ret None) s = (s1, r) ->
  s1 = s /\ forall l, r = Some (Some (JRef l)) -> n0 <= l < List.length s.
Proof.
  intros G Hn Rm. destruct merged as [ | b | z | x | m ]; simpl;
    try (intros [= <- <-]; split; [ reflexivity | discriminate ]).
  - destruct b; simpl; intros [= <- <-]; (split; [ reflexivity | discriminate ]).
  - destruct (negb (z =? 0)%Z); simpl; intros [= <- <-];
      (split; [ reflexivity | discriminate ]).
  - destruct (negb (x =? "")%string); simpl; intros [= <- <-];
      (split; [ reflexivity | discriminate ]).
  - fold (getProp (JRef m) k). rewrite getProp_run.
    simpl in Rm. inversion Rm as [ | ? ? Hm _ ]; subst.
    destruct (nth_error s m) as [ [props | elems] | ] eqn:Ec;
      intros [= <- <-]; (split; [ reflexivity | try discriminate ]).
    intros l [= Hl]. apply lookup_refs in Hl.
    pose proof (grown_new_cell _ _ _ _ _ G (proj1 (conj (Nat.le_trans _ _ _ Hn (proj1 Hm)) I)) Ec)
      as Hrefs.
    rewrite Forall_forall in Hrefs. specialize (Hrefs l Hl). lia.
Qed.

Lemma new_table_adopted_only n0 s0 s mp :
  grown n0 s0 s -> List.length s0 <= mp ->
  adopted_only n0 mp [] s.
Proof.
  intros G Hmp props Hc k l Hl. apply lookup_refs in Hl.
  pose proof (grown_new_cell _ _ _ _ _ G Hmp Hc) as Hrefs.
  rewrite Forall_forall in Hrefs. specialize (Hrefs l Hl). split; lia.
Qed.

Ltac bind_step :=
  match goal with
  | |- leaves_inputs ?s0 (bind _ _ _) =>
      apply (bind_post _ _ _ (leaves_inputs s0))
  end.

Section Whole.

Variable profilesKey : string.

Lemma mergeProfiles_leaves_inputs s0 local remote :
  wf_store s0 = true -> valid (List.length s0) remote = true ->
  Store.truthy remote = true ->
  leaves_inputs s0 (Store.mergeProfiles profilesKey local remote s0).
Proof.
  intros Hwf Hv Ht. unfold Store.mergeProfiles. rewrite Ht. cbn [negb].
  set (n0 := List.length s0) in *.
  assert (Hthrow : forall s, keeps n0 everywhere s0 s -> leaves_inputs s0 (s, None)).
  { intros s K. split; [ exact K | discriminate ]. }
  (* JSON.stringify *)
  bind_step; unfold stringify; [ intros s1 [= <- _]; apply Hthrow, keeps_refl | ].
  intros s1 text [= <- _].
  (* JSON.parse *)
  destruct (parse_grown text n0 s0 (le_n _)) as (s1 & merged & Ep & G1 & Rm).
  bind_step; [ intros s1' E | intros s1' merged' E ]; rewrite Ep in E;
    [ discriminate E | ].
  injection E as <- <-.
  pose proof (grown_keeps n0 n0 everywhere _ _ (le_n _) G1) as K1.
  pose proof (grown_length _ _ _ G1) as L1.
  (* remote[profilesKey] *)
  bind_step; [ intros s2 E | intros s2 x E ];
    destruct (getProp_old _ _ _ _ _ _ Hwf Hv K1 E) as [-> Hx];
    [ now apply Hthrow | ].
  clear E.
  (* || {} *)
  bind_step; [ intros s2 E | intros s2 rps E ];
    destruct (or_empty_run _ _ _ _ E) as [ [-> Hr] | [ [-> Hr] | [-> Hr] ] ];
    try (apply Hthrow; first [ exact K1 | apply keeps_alloc; [ lia | exact K1 ] ]);
    try discriminate Hr.
  all: match goal with |- leaves_inputs _ (_ ?s2') => set (s2 := s2') end.
  all: assert (G2 : grown n0 s0 s2)
         by (first [ exact G1
                   | apply (grown_trans _ _ s1); [ exact G1 | ];
                     apply grown_alloc; constructor ]).
  1: assert (Hrps : rps < List.length s2 /\
                    forall entries, nth_error s2 rps = Some (CObj entries) ->
                      NoDup (keys entries) /\
                      forall k v, In (k, v) entries -> valid n0 v = true).
  { destruct Hr as (l & -> & [= <-]). specialize (Hx rps eq_refl).
    split; [ subst s2; lia | ]. intros entries Hc. subst s2.
    rewrite (keeps_prefix _ _ _ K1 Hx) in Hc.
    apply (wf_cell_props _ _ (wf_store_cell _ _ _ Hwf Hc)). }
  2: assert (Hrps : rps < List.length s2 /\
                    forall entries, nth_error s2 rps = Some (CObj entries) ->
                      NoDup (keys entries) /\
                      forall k v, In (k, v) entries -> valid n0 v = true).
  2: { injection Hr as ->. subst s2. split; [ rewrite length_app; simpl; lia | ].
    intros entries Hc. rewrite nth_error_app2, Nat.sub_diag in Hc by lia.
    injection Hc as <-. split; [ constructor | intros k v [] ]. }
  all: clear Hr E.
  all: pose proof (grown_keeps n0 n0 everywhere _ _ (le_n _) G2) as K2.
  all: pose proof (grown_length _ _ _ G2) as L2.
  all: assert (Rm2 : Forall (fun l => n0 <= l < List.length s2) (refOf merged))
         by (eapply Forall_impl; [ | exact Rm ]; cbv beta; intros l;
             subst s2; rewrite ?length_app; simpl; lia).
  all: clearbody s2.
  all: clear Hx x Ep G1 Rm K1 L1 s1.
  (* merged[profilesKey] *)
  all: bind_step; [ intros s3 E | intros s3 y E ];
    destruct (merged_table _ _ _ _ _ _ _ G2 (le_n _) Rm2 E) as [-> Hy];
    [ now apply Hthrow | ]; clear E.
  (* || {} *)
  all: bind_step; [ intros s3 E | intros s3 mp E ];
    destruct (or_empty_run _ _ _ _ E) as [ [-> Hr] | [ [-> Hr] | [-> Hr] ] ];
    try (apply Hthrow; first [ exact K2 | apply keeps_alloc; [ lia | exact K2 ] ]);
    try discriminate Hr.
  all: match goal with |- leaves_inputs _ (_ ?s3') => set (s3 := s3') end.
  all: assert (G3 : grown n0 s0 s3)
         by (first [ exact G2
                   | apply (grown_trans _ _ s2); [ exact G2 | ];
                     apply grown_alloc; constructor ]).
  all: assert (Hmp : n0 <= mp < List.length s3)
         by (first
               [ destruct Hr as (l & -> & [= <-]); specialize (Hy mp eq_refl);
                 subst s3; lia
               | injection Hr as ->; subst s3; rewrite length_app; simpl; lia ]).
  all: assert (Hrps3 : forall entries, nth_error s3 rps = Some (CObj entries) ->
                        NoDup (keys entries) /\
                        forall k v, In (k, v) entries -> valid n0 v = true)
         by (intros entries Hc; apply (proj2 Hrps entries); subst s3;
             rewrite ?nth_error_app1 in Hc by apply Hrps; exact Hc).
  all: pose proof (new_table_adopted_only n0 s0 s3 mp G3 (proj1 Hmp)) as Hinv.
  all: pose proof (grown_keeps n0 n0 everywhere _ _ (le_n _) G3) as K3.
  all: assert (Rm3 : Forall (fun l => n0 <= l) (refOf merged))
         by (eapply Forall_impl; [ | exact Rm2 ]; cbv beta; intros l; lia).
  all: clearbody s3; clear Hr E Hy y Hrps Rm2 K2 L2 G2 s2 G3.
  (* $.each(remoteProfs, ...) *)
  all: bind_step; [ intros s4 E | intros s4 entries E ];
    destruct (forIn_inv _ _ _ _ E) as [-> Hent]; [ now apply Hthrow | ].
  all: destruct (Hrps3 entries (Hent entries eq_refl)) as [Hnd Hval].
  all: pose proof (forEach_mergeEntry_keeps n0 mp entries [] s3
                     (proj1 Hmp) (proj2 Hmp) Hnd (fun k _ H => H) Hval Hinv) as K4.
  all: assert (K04 : keeps n0 everywhere s0
                       (fst (forEach (Store.mergeEntry mp) entries s3)))
         by (apply (keeps_trans _ _ _ s3); [ lia | exact K3 | exact K4 ]).
  all: bind_step; [ intros s4 E4 | intros s4 u E4 ]; rewrite E4 in K04;
    cbn [fst] in K04; [ now apply Hthrow | ].
  all: assert (L4 : n0 <= List.length s4) by (destruct K04; lia).
  (* merged[profilesKey] = mergedProfs *)
  all: destruct merged as [ | b | z | x | m ];
    try (bind_step; [ intros s5 [= <-]; now apply Hthrow | discriminate ]).
  all: inversion Rm3 as [ | ? ? Hm _ ]; subst.
  all: bind_step; [ intros s5 E5 | intros s5 ? E5 ]; rewrite setProp_run in E5;
    destruct (nth_error s4 m) as [ [props | elems] | ];
    injection E5 as <-; try (now apply Hthrow).
  all: split; cbn [fst snd ret]; [ | intros v [= <-]; now exists m ].
  all: try exact K04.
  all: apply (keeps_trans _ _ _ s4); [ lia | exact K04 | ].
  all: split; [ now rewrite length_update | ].
  all: intros l Hl _; apply nth_error_update_neq; lia.
Qed.


End Whole.

End StoreProps.


(** The merge on the store and the merge on trees give the same document
    on the runs above, and both stop on a remote profile that is null, on a
    table that is an array, on a date that is a string and on a profile
    called __proto__.  (A profile called toString, which the merge on trees
    goes through, is not gone through on the store.) *)
Example store_merge_agrees_on_runs :
  mergedTree (document (profile true 100)) trips
  = mergeProfiles pk (document (profile true 100)) trips /\
  mergedTree trips (document (profile true 300))
  = mergeProfiles pk trips (document (profile true 300)) /\
  mergedTree (document (profile true 200)) (document (profile false 100))
  = mergeProfiles pk (document (profile true 200)) (document (profile false 100)) /\
  mergedTree (document darkLocal) (document lightRemote)
  = mergeProfiles pk (document darkLocal) (document lightRemote) /\
  mergedTree (document lightRemote) (document darkLocal)
  = mergeProfiles pk (document lightRemote) (document darkLocal) /\
  mergedTree (VObj []) (VObj []) = mergeProfiles pk (VObj []) (VObj []) /\
  mergedTree (VObj []) trips = mergeProfiles pk (VObj []) trips /\
  mergedTree trips (VNum 7) = mergeProfiles pk trips (VNum 7) /\
  mergedTree trips VNull = mergeProfiles pk trips VNull /\
  mergedTree (document (profile true 100)) (document VNull) = None /\
  mergeProfiles pk (document (profile true 100)) (document VNull) = None /\
  mergedTree (document (VObj [("checklistData", VArr [VBool true])]))
    (document (profile true 100)) = None /\
  mergeProfiles pk (document (VObj [("checklistData", VArr [VBool true])]))
    (document (profile true 100)) = None /\
  mergedTree (document (profile true 100))
    (document (VObj [("checklistData", VObj [("itemX", VBool false)]);
                     ("checklistTimestamps", VObj [("itemX", VStr "late")])]))
  = None /\
  mergeProfiles pk (document (profile true 100))
    (document (VObj [("checklistData", VObj [("itemX", VBool false)]);
                     ("checklistTimestamps", VObj [("itemX", VStr "late")])]))
  = None /\
  mergedTree (VObj []) (VObj [(pk, VObj [("__proto__", profile true 1)])]) = None /\
  mergeProfiles pk (VObj []) (VObj [(pk, VObj [("__proto__", profile true 1)])])
  = None.
Proof. repeat split. Qed.

(** And on every pair of documents of the family, 1089 of them, where the
    merge on trees returns, 596 times, the merge on the store returns the
    same tree. *)
Example store_merge_agrees_on_family :
  forallb (fun l => forallb (agree l) someDocuments) someDocuments = true /\
  Z.of_nat (List.length (list_prod someDocuments someDocuments)) = 1089 /\
  Z.of_nat (List.length (filter (fun lr => returns (fst lr) (snd lr))
                           (list_prod someDocuments someDocuments))) = 596.
Proof. repeat split; vm_compute; reflexivity. Qed.

(* ===================================================================== *)
(** * More of the merge *)
(* ===================================================================== *)

(** ** Objects, again *)

Lemma keys_set_prop_in {A : Type} k (v x : A) o :
  lookup k o = Some x -> keys (set_prop k v o) = keys o.
Proof.
  induction o as [ | [k' v'] o IH ]; simpl; [ discriminate | ].
  destruct (String.eqb_spec k k') as [-> | Hne]; simpl.
  - reflexivity.
  - intros H. now rewrite IH.
Qed.

Lemma keys_set_prop_fresh {A : Type} k (v : A) o :
  lookup k o = None -> keys (set_prop k v o) = keys o ++ [k].
Proof.
  intros H. rewrite (set_prop_fresh _ _ _ H). unfold keys. now rewrite map_app.
Qed.

Lemma set_prop_NoDup {A : Type} k (v : A) o :
  NoDup (keys o) -> NoDup (keys (set_prop k v o)).
Proof.
  intros H. destruct (lookup k o) as [x | ] eqn:E.
  - now rewrite (keys_set_prop_in _ _ _ _ E).
  - rewrite (keys_set_prop_fresh _ _ _ E).
    apply NoDup_app; [ exact H | repeat constructor; now intros [] | ].
    intros k' HI [<- | []]. now apply lookup_None_keys in E.
Qed.

Lemma forallb_set_prop {A : Type} (P : string * A -> bool) k (v : A) o :
  P (k, v) = true -> forallb P o = true -> forallb P (set_prop k v o) = true.
Proof.
  intros Hv. induction o as [ | [k' v'] o IH ]; simpl.
  - now rewrite Hv.
  - destruct (String.eqb k k'); simpl; rewrite !andb_true_iff; intros [H1 H2].
    + now rewrite Hv.
    + split; [ exact H1 | now apply IH ].
Qed.

Lemma set_prop_plain {A : Type} k (v : A) o :
  plain_name k = true -> plain o = true -> plain (set_prop k v o) = true.
Proof. intros Hk. unfold plain. now apply forallb_set_prop. Qed.

Lemma wf_set_prop k v o :
  wf_value (VObj o) = true -> wf_value v = true ->
  wf_value (VObj (set_prop k v o)) = true.
Proof.
  cbn [wf_value]. rewrite !andb_true_iff. intros [Hn Hf] Hv. split.
  - apply nodupb_NoDup. apply set_prop_NoDup. now apply nodupb_NoDup.
  - now apply forallb_set_prop.
Qed.

Lemma or_zero_num n : or_zero (Some (VNum n)) = Some n.
Proof. simpl. now destruct (Z.eqb_spec n 0) as [-> | ]. Qed.

Lemma extend_plain o d : extend [] o = Some d -> plain o = true.
Proof. unfold extend, enumerate, plain. now destruct (forallb _ o). Qed.

(** ** One profile, again *)

Lemma other_key_kept k l r rp lo' :
  ~ In k nonMergeable ->
  lookup k (if l <? r then fold_left (takeField rp) nonMergeable lo' else lo')
  = lookup k lo'.
Proof. intros H. destruct (l <? r); [ now apply merged_key_kept | reflexivity ]. Qed.

Ltac table_key :=
  let HI := fresh "HI" in
  intros HI; apply not_merged_key in HI; now destruct HI as (? & ? & ?).

Lemma mergeProfile_local_items lp rp mp itemId :
  wf_value lp = true -> wf_value rp = true ->
  mergeProfile lp rp = Some mp ->
  (itemOf rp itemId = None ->
   itemOf mp itemId = itemOf lp itemId /\ stampOf mp itemId = stampOf lp itemId) /\
  (is_some (itemOf lp itemId) = true -> is_some (itemOf mp itemId) = true).
Proof.
  intros Hlp Hrp Hm.
  destruct (mergeProfile_shape _ _ _ Hm)
    as (lo & localTs & remoteTs & ldata & rdata & d0 & t0 & d & t & l & r &
        -> & ElTs & ErTs & Eld & Erd & Ed0 & Et0 & Erun & _ & _ & ->).
  apply extend_nil in Ed0; [ subst d0 | eapply (wf_table _ _ _ Hlp); eassumption ].
  apply extend_nil in Et0; [ subst t0 | eapply (wf_table _ _ _ Hlp); eassumption ].
  unfold itemOf, stampOf. rewrite ElTs, Eld, Erd. cbn [field].
  rewrite !other_key_kept by table_key.
  rewrite lookup_set_prop_eq, lookup_set_prop_neq by discriminate.
  rewrite lookup_set_prop_eq. cbn [or_empty truthy].
  pose proof (each_mergeItem_spec _ _ _ _ _ _ _ (wf_table _ _ _ Hrp Erd) Erun itemId) as S.
  split.
  - intros Hn. rewrite Hn in S. destruct S as [-> ->]. now split.
  - intros Hl. destruct (lookup itemId rdata) as [rVal | ].
    + destruct S as (rt & lt & _ & _ & S). destruct (lt <? rt).
      * now destruct S as [-> _].
      * now destruct S as [-> _].
    + now destruct S as [-> _].
Qed.

Lemma mergeProfile_sources lp rp mp itemId v :
  wf_value lp = true -> wf_value rp = true ->
  mergeProfile lp rp = Some mp ->
  itemOf mp itemId = Some v ->
  itemOf lp itemId = Some v \/ itemOf rp itemId = Some v.
Proof.
  intros Hlp Hrp Hm.
  destruct (mergeProfile_shape _ _ _ Hm)
    as (lo & localTs & remoteTs & ldata & rdata & d0 & t0 & d & t & l & r &
        -> & ElTs & ErTs & Eld & Erd & Ed0 & Et0 & Erun & _ & _ & ->).
  apply extend_nil in Ed0; [ subst d0 | eapply (wf_table _ _ _ Hlp); eassumption ].
  apply extend_nil in Et0; [ subst t0 | eapply (wf_table _ _ _ Hlp); eassumption ].
  unfold itemOf. rewrite Eld, Erd. cbn [field].
  rewrite other_key_kept by table_key.
  rewrite lookup_set_prop_neq by discriminate.
  rewrite lookup_set_prop_eq. cbn [or_empty truthy].
  pose proof (each_mergeItem_spec _ _ _ _ _ _ _ (wf_table _ _ _ Hrp Erd) Erun itemId) as S.
  destruct (lookup itemId rdata) as [rVal | ].
  - destruct S as (rt & lt & _ & _ & S). destruct (lt <? rt).
    + destruct S as [-> _]. now right.
    + destruct S as [-> _]. now left.
  - destruct S as [-> _]. now left.
Qed.

Lemma each_mergeItem_tables localTs remoteTs items :
  forall d0 t0 d t,
    plain items = true ->
    each (mergeItem localTs remoteTs) items (d0, t0) = Some (d, t) ->
    NoDup (keys d0) -> NoDup (keys t0) -> plain d0 = true -> plain t0 = true ->
    NoDup (keys d) /\ NoDup (keys t) /\ plain d = true /\ plain t = true.
Proof.
  induction items as [ | [k v] items IH ]; intros d0 t0 d t Hp Hrun Hd Ht Pd Pt.
  - simpl in Hrun. injection Hrun as <- <-. now repeat split.
  - unfold plain in Hp. simpl in Hp. apply andb_true_iff in Hp. destruct Hp as [Hk Hp].
    cbn [each mergeItem] in Hrun.
    destruct (or_zero (lookup k remoteTs)) as [rt | ]; [ | discriminate ].
    destruct (or_zero (lookup k localTs)) as [lt | ]; [ | discriminate ].
    destruct (lt <? rt).
    + apply (IH _ _ _ _ Hp Hrun); auto using set_prop_NoDup, set_prop_plain.
    + now apply (IH _ _ _ _ Hp Hrun).
Qed.

Lemma each_mergeItem_fix ts remoteTs items acc :
  (forall k v, In (k, v) items ->
     exists rt lt, or_zero (lookup k remoteTs) = Some rt /\
                   or_zero (lookup k ts) = Some lt /\ rt <= lt) ->
  each (mergeItem ts remoteTs) items acc = Some acc.
Proof.
  revert acc. induction items as [ | [k v] items IH ]; intros [d t] H.
  - reflexivity.
  - cbn [each mergeItem].
    destruct (H k v (or_introl eq_refl)) as (rt & lt & -> & -> & Hle).
    destruct (Z.ltb_spec lt rt); [ lia | ].
    apply IH. intros k' v' HI. apply (H k' v'). now right.
Qed.

Lemma takeFields_fix rp ks :
  forall o,
    (forall k v, In k ks -> field rp k = Some v -> lookup k o = Some v) ->
    fold_left (takeField rp) ks o = o.
Proof.
  induction ks as [ | k ks IH ]; intros o H; simpl; [ reflexivity | ].
  assert (E : takeField rp o k = o).
  { unfold takeField. destruct (field rp k) as [v | ] eqn:Ev; [ | reflexivity ].
    apply set_prop_same. apply H; [ now left | exact Ev ]. }
  rewrite E. apply IH. intros k' v HI. apply H. now right.
Qed.

Lemma mergeProfile_remote_plain lp rp mp rdata :
  mergeProfile lp rp = Some mp ->
  or_empty (field rp "checklistData") = Some rdata -> plain rdata = true.
Proof.
  unfold mergeProfile. intros H Hr.
  destruct lp as [ | | | | | lo ]; try (destruct rp; discriminate H).
  assert (Hrp : rp <> VNull) by (intros ->; discriminate H).
  destruct rp as [ | b | n | s | a | ro ]; try contradiction;
    rewrite Hr in H; bind_inv H;
    match goal with
    | E : enumerate rdata = Some _ |- _ =>
        unfold enumerate in E; unfold plain; now destruct (forallb _ rdata)
    end.
Qed.

(** A profile that has taken in a remote profile takes nothing more from
    it. *)
Lemma mergeProfile_absorb lp rp mp :
  wf_value lp = true -> wf_value rp = true ->
  mergeProfile lp rp = Some mp -> mergeProfile mp rp = Some mp.
Proof.
  intros Hlp Hrp Hm.
  pose proof (fun rdata => mergeProfile_remote_plain _ _ _ rdata Hm) as Hplain.
  destruct (mergeProfile_shape _ _ _ Hm)
    as (lo & localTs & remoteTs & ldata & rdata & d0 & t0 & d & t & l & r &
        -> & ElTs & ErTs & Eld & Erd & Ed0 & Et0 & Erun & Hl & Hr & ->).
  specialize (Hplain _ Erd).
  pose proof (extend_plain _ _ Ed0) as Pd0. pose proof (extend_plain _ _ Et0) as Pt0.
  pose proof (wf_table _ _ _ Hlp Eld) as Nd0.
  pose proof (wf_table _ _ _ Hlp ElTs) as Nt0.
  pose proof (wf_table _ _ _ Hrp Erd) as Nr.
  apply extend_nil in Ed0; [ subst d0 | exact Nd0 ].
  apply extend_nil in Et0; [ subst t0 | exact Nt0 ].
  destruct (each_mergeItem_tables _ _ _ _ _ _ _ Hplain Erun Nd0 Nt0 Pd0 Pt0)
    as (Nd & Nt & Pd & Pt).
  assert (Hrp0 : rp <> VNull) by (intros ->; destruct lo; discriminate Hm).
  set (lo2 := set_prop "checklistTimestamps" (VObj t)
                (set_prop "checklistData" (VObj d) lo)).
  set (mo := if l <? r then fold_left (takeField rp) nonMergeable lo2 else lo2).
  assert (Kd : lookup "checklistData" mo = Some (VObj d)).
  { unfold mo. rewrite other_key_kept by table_key.
    unfold lo2. rewrite lookup_set_prop_neq by discriminate.
    apply lookup_set_prop_eq. }
  assert (Kt : lookup "checklistTimestamps" mo = Some (VObj t)).
  { unfold mo. rewrite other_key_kept by table_key. apply lookup_set_prop_eq. }
  assert (Ks : lookup "syncMeta" mo = lookup "syncMeta" lo).
  { unfold mo. rewrite other_key_kept by table_key.
    unfold lo2. now rewrite !lookup_set_prop_neq by discriminate. }
  assert (Hbody :
    (localTs <- or_empty (lookup "checklistTimestamps" mo) ;;
      remoteTs <- or_empty (field rp "checklistTimestamps") ;;
      ldata    <- or_empty (lookup "checklistData" mo) ;;
      mergedData <- extend [] ldata ;;
      mergedTs <- extend [] localTs ;;
      rdata    <- or_empty (field rp "checklistData") ;;
      items    <- enumerate rdata ;;
      acc <- each (mergeItem localTs remoteTs) items (mergedData, mergedTs) ;;
      let lo1 := set_prop "checklistData" (VObj (fst acc)) mo in
      let lo2 := set_prop "checklistTimestamps" (VObj (snd acc)) lo1 in
      lSyncAt <- meta_num (lookup "syncMeta" lo2) "lastSyncAt" ;;
      rSyncAt <- meta_num (field rp "syncMeta") "lastSyncAt" ;;
      if lSyncAt <? rSyncAt
      then Some (VObj (fold_left (takeField rp) nonMergeable lo2))
      else Some (VObj lo2)) = Some (VObj mo)).
  { rewrite Kt, Kd, ErTs, Erd. cbn [or_empty truthy].
    rewrite !extend_nil_plain by assumption.
    unfold enumerate. unfold plain in Hplain. rewrite Hplain.
    rewrite each_mergeItem_fix.
    - cbn [fst snd]. cbv zeta.
      rewrite (set_prop_same _ _ _ Kd), (set_prop_same _ _ _ Kt), Ks.
      unfold syncAtOf in Hl, Hr. cbn [field] in Hl. rewrite Hl, Hr.
      unfold mo. destruct (l <? r) eqn:Elr; [ | reflexivity ].
      do 2 f_equal. apply takeFields_fix. intros k v HI Hv.
      now rewrite (takeFields_in _ _ _ HI), Hv.
    - intros k v HI.
      pose proof (each_mergeItem_spec _ _ _ _ _ _ _ Nr Erun k) as S.
      rewrite (In_lookup _ _ _ Nr HI) in S.
      destruct S as (rt & lt & Hrt & Hlt & S). exists rt.
      destruct (Z.ltb_spec lt rt).
      + destruct S as [_ ->]. exists rt. rewrite or_zero_num.
        repeat split; [ exact Hrt | lia ].
      + destruct S as [_ ->]. exists lt. now repeat split. }
  unfold mergeProfile.
  destruct rp; first [ exact Hbody | exfalso; apply Hrp0; reflexivity ].
Qed.

(** ** The profile loop, again *)

Lemma each_mergeEntry_keys rps :
  forall mps mps',
    NoDup (keys rps) ->
    each mergeEntry rps mps = Some mps' ->
    keys mps' =
      keys mps ++ filter (fun k => negb (is_some (lookup k mps))
                                   && negb (inherited k)) (keys rps).
Proof.
  induction rps as [ | [k rp] rps IH ]; intros mps mps' Hnd Hrun.
  - simpl in *. injection Hrun as <-. now rewrite app_nil_r.
  - inversion Hnd as [ | ? ? Hk Hnd' ]; subst.
    cbn [each mergeEntry] in Hrun. cbn [keys map fst filter].
    fold (keys rps).
    assert (Hsame : forall mps1,
               (forall k', k' <> k -> lookup k' mps1 = lookup k' mps) ->
               filter (fun k0 => negb (is_some (lookup k0 mps1))
                                 && negb (inherited k0)) (keys rps)
               = filter (fun k0 => negb (is_some (lookup k0 mps))
                                   && negb (inherited k0)) (keys rps)).
    { intros mps1 H1. apply filter_ext_in. intros k' HI.
      rewrite H1; [ reflexivity | ]. intros ->. now apply Hk. }
    destruct (lookup k mps) as [lp | ] eqn:El; cbn [is_some negb andb].
    + destruct (mergeProfile lp rp) as [lp' | ]; [ | discriminate Hrun ].
      rewrite (IH _ _ Hnd' Hrun), (keys_set_prop_in _ _ _ _ El). f_equal.
      apply Hsame. intros k' Hk'. now apply lookup_set_prop_neq.
    + destruct (inherited k); cbn [negb].
      * destruct (mergeProfile (VObj []) rp); [ | discriminate Hrun ].
        apply (IH _ _ Hnd' Hrun).
      * rewrite (IH _ _ Hnd' Hrun), (keys_set_prop_fresh _ _ _ El), <- app_assoc.
        cbn [app]. do 2 f_equal.
        apply Hsame. intros k' Hk'. now apply lookup_set_prop_neq.
Qed.

Lemma each_mergeEntry_fresh rps :
  forall acc,
    plain rps = true ->
    NoDup (keys (acc ++ rps)) ->
    each mergeEntry rps acc = Some (acc ++ rps).
Proof.
  induction rps as [ | [k rp] rps IH ]; intros acc Hp H.
  - simpl. now rewrite app_nil_r.
  - cbn [each mergeEntry].
    unfold plain in Hp. cbn [forallb fst] in Hp. apply andb_true_iff in Hp.
    destruct Hp as [Hpk Hp].
    assert (Hk : lookup k acc = None).
    { apply lookup_None_keys. intros HI. unfold keys in H.
      rewrite map_app in H. simpl in H. apply NoDup_remove_2 in H.
      apply H. apply in_or_app. now left. }
    rewrite Hk, (plain_not_inherited _ Hpk), (set_prop_fresh _ _ _ Hk), IH;
      rewrite <- ?app_assoc; [ reflexivity | exact Hp | exact H ].
Qed.

Lemma each_mergeEntry_fix l mps :
  (forall name rp, In (name, rp) l ->
     (exists mp, lookup name mps = Some mp /\ mergeProfile mp rp = Some mp) \/
     (lookup name mps = None /\ inherited name = true /\
      mergeProfile (VObj []) rp <> None)) ->
  each mergeEntry l mps = Some mps.
Proof.
  induction l as [ | [name rp] l IH ]; intros H; [ reflexivity | ].
  cbn [each mergeEntry].
  destruct (H name rp (or_introl eq_refl)) as [(mp & El & Em) | (El & Ei & Em)].
  - rewrite El, Em. rewrite (set_prop_same _ _ _ El). apply IH.
    intros name' rp' HI. apply H. now right.
  - rewrite El, Ei. destruct (mergeProfile (VObj []) rp); [ | contradiction ].
    apply IH. intros name' rp' HI. apply H. now right.
Qed.

(** ** The whole document, again *)

Section MoreMerge.

Variable profilesKey : string.


(** X2.  For a profile that both documents have: an item that the remote
    profile has no value for keeps its local value and its local date,
    whatever date the remote profile has for it; and every item that the
    local profile has a value for has a value in the merged profile. *)
Theorem merge_keeps_local_items local remote merged name lp rp itemId :
  truthy remote = true ->
  wf_value local = true -> wf_value remote = true ->
  mergeProfiles profilesKey local remote = Some merged ->
  profileOf profilesKey local name = Some lp ->
  profileOf profilesKey remote name = Some rp ->
  exists mp,
    profileOf profilesKey merged name = Some mp /\
    (itemOf rp itemId = None ->
     itemOf mp itemId = itemOf lp itemId /\
     stampOf mp itemId = stampOf lp itemId) /\
    (is_some (itemOf lp itemId) = true -> is_some (itemOf mp itemId) = true).
Proof.
  intros Ht Hwl Hwr Hm Hl Hr.
  destruct (merged_profile_of_both _ _ _ _ _ _ _ Ht Hwr Hm Hl Hr) as (mp & Hmp & Hof).
  exists mp. split; [ exact Hof | ].
  apply mergeProfile_local_items; try assumption.
  - exact (wf_profileOf _ _ _ _ Hwl Hl).
  - exact (wf_profileOf _ _ _ _ Hwr Hr).
Qed.

(** X3.  The merge takes nothing from the remote document but profiles,
    and from a remote profile that the local document has too nothing but
    items, dates and the five settings: every other property of the document
    ([current], [_syncMeta], ...) and of such a profile ([syncMeta], ...) is
    the local one. *)
Theorem merge_takes_only_tables_and_settings local remote merged :
  truthy remote = true -> wf_value remote = true ->
  mergeProfiles profilesKey local remote = Some merged ->
  (forall k, k <> profilesKey -> field merged k = field local k) /\
  (forall name lp rp,
      profileOf profilesKey local name = Some lp ->
      profileOf profilesKey remote name = Some rp ->
      exists mp,
        profileOf profilesKey merged name = Some mp /\
        forall k, ~ In k nonMergeable ->
                  k <> "checklistData" -> k <> "checklistTimestamps" ->
                  field mp k = field lp k).
Proof.
  intros Ht Hwf Hm. split.
  - intros k Hk. unfold mergeProfiles in Hm. rewrite Ht, clone_id in Hm.
    cbn [negb] in Hm. destruct local as [ | | | | | lo ]; try discriminate Hm.
    bind_inv Hm. injection Hm as <-. cbn [field]. now apply lookup_set_prop_neq.
  - intros name lp rp Hl Hr.
    destruct (merged_profile_of_both _ _ _ _ _ _ _ Ht Hwf Hm Hl Hr) as (mp & Hmp & Hof).
    exists mp. split; [ exact Hof | ]. intros k H5 Hd Hts.
    destruct (mergeProfile_shape _ _ _ Hmp)
      as (lo & localTs & remoteTs & ldata & rdata & d0 & t0 & d & t & l & r &
          -> & _ & _ & _ & _ & _ & _ & _ & _ & _ & ->).
    cbn [field]. rewrite other_key_kept by exact H5.
    now rewrite !lookup_set_prop_neq.
Qed.

(** X4.  A local document that has no profile, as on a new device, takes
    the whole profile table of the remote document, when the names in it are
    ordinary ones: the merge returns the local document with that table. *)
Theorem merge_into_empty_adopts_remote lo remote rps :
  truthy remote = true -> wf_value remote = true ->
  profilesOf profilesKey remote = Some rps -> plain rps = true ->
  profilesOf profilesKey (VObj lo) = Some [] ->
  mergeProfiles profilesKey (VObj lo) remote
  = Some (VObj (set_prop profilesKey (VObj rps) lo)).
Proof.
  intros Ht Hwf Hr Hp Hl. unfold mergeProfiles. rewrite Ht, clone_id.
  cbn [negb]. unfold profilesOf in *. cbn [field] in Hl. rewrite Hr, Hl.
  rewrite (plain_enumerateProfiles _ Hp).
  rewrite each_mergeEntry_fresh; [ reflexivity | exact Hp | ].
  cbn [app]. eapply wf_table; eassumption.
Qed.

(** X5.  Merging the same remote document a second time changes nothing:
    when the profiles that only the remote document has have their two
    tables, the result of a merge merged again with the same remote document
    is that result. *)
Theorem merge_again_changes_nothing local remote merged :
  truthy remote = true ->
  wf_value local = true -> wf_value remote = true ->
  (forall name rp,
      profileOf profilesKey remote name = Some rp ->
      profileOf profilesKey local name = None ->
      settled_profile rp = true) ->
  mergeProfiles profilesKey local remote = Some merged ->
  mergeProfiles profilesKey merged remote = Some merged.
Proof.
  intros Ht Hwl Hwr Hnew Hm.
  destruct (mergeProfiles_spec _ _ _ _ Ht Hwr Hm) as (lps & rps & mps & El & Er & Em & S).
  unfold mergeProfiles in Hm |- *. rewrite Ht, clone_id in *. cbn [negb] in *.
  destruct local as [ | | | | | lo ]; try discriminate Hm.
  unfold profilesOf in *. cbn [field] in El. rewrite Er, El in Hm. rewrite Er.
  destruct (enumerateProfiles rps) as [entries | ] eqn:Ee; [ | discriminate Hm ].
  pose proof (enumerateProfiles_Some _ _ Ee) as ->.
  destruct (each mergeEntry rps lps) as [mps0 | ] eqn:E; [ | discriminate Hm ].
  injection Hm as <-. cbn [field] in Em. rewrite lookup_set_prop_eq in Em.
  cbn [or_empty truthy] in Em. injection Em as ->.
  rewrite lookup_set_prop_eq. cbn [or_empty truthy].
  pose proof (wf_table _ _ _ Hwr Er) as Nr.
  rewrite each_mergeEntry_fix.
  - now rewrite (set_prop_same _ _ _ (lookup_set_prop_eq _ _ _)).
  - intros name rp HI. specialize (S name).
    pose proof (In_lookup _ _ _ Nr HI) as Hr. rewrite Hr in S.
    assert (Wrp : wf_value rp = true).
    { apply (wf_profileOf profilesKey remote name); [ exact Hwr | ].
      unfold profileOf, profilesOf. now rewrite Er. }
    destruct (lookup name lps) as [lp | ] eqn:Hl.
    + left. destruct S as (mp & Hmp & Hof). exists mp. split; [ exact Hof | ].
      apply (mergeProfile_absorb lp); try assumption.
      apply (wf_profileOf profilesKey (VObj lo) name); [ exact Hwl | ].
      unfold profileOf, profilesOf. cbn [field]. now rewrite El.
    + destruct (inherited name) eqn:Ei.
      * right. destruct S as [S1 S2]. now repeat split.
      * left. exists rp. split; [ exact S | ].
        apply mergeProfile_self; [ exact Wrp | ].
        apply (Hnew name).
        -- unfold profileOf, profilesOf. now rewrite Er.
        -- unfold profileOf, profilesOf. cbn [field]. now rewrite El.
Qed.

(** X6.  The merge invents nothing: a value that an item has in a profile
    of the merged document is the value that this item has in the profile of
    that name in the local or in the remote document. *)
Theorem merge_invents_nothing local remote merged name mp itemId v :
  truthy remote = true ->
  wf_value local = true -> wf_value remote = true ->
  mergeProfiles profilesKey local remote = Some merged ->
  profileOf profilesKey merged name = Some mp ->
  itemOf mp itemId = Some v ->
  (exists lp, profileOf profilesKey local name = Some lp /\
              itemOf lp itemId = Some v) \/
  (exists rp, profileOf profilesKey remote name = Some rp /\
              itemOf rp itemId = Some v).
Proof.
  intros Ht Hwl Hwr Hm Hmp Hv.
  destruct (mergeProfiles_spec _ _ _ _ Ht Hwr Hm) as (lps & rps & mps & El & Er & Em & S).
  pose proof (wf_profileOf profilesKey local name) as Wl.
  pose proof (wf_profileOf profilesKey remote name) as Wr.
  unfold profileOf in *. rewrite El, Er in *. rewrite Em in Hmp.
  specialize (S name). rewrite Hmp in S.
  destruct (lookup name rps) as [rp | ]; destruct (lookup name lps) as [lp | ].
  - destruct S as (mp' & Hmerge & [= <-]).
    destruct (mergeProfile_sources lp rp mp itemId v) as [H | H]; auto.
    + left. now exists lp.
    + right. now exists rp.
  - destruct (inherited name); [ now destruct S | ].
    injection S as <-. right. now exists mp.
  - injection S as <-. left. now exists mp.
  - discriminate S.
Qed.

(** X7.  Two documents merged each into the other agree on every item
    that both have with different dates: for a profile and an item that both
    have, with the dates [ta] and [tb] not equal, both merges give the item the
    value of the later date, and that date. *)
Theorem merge_both_ways_agree a b ab ba name pa pb itemId va vb ta tb :
  truthy a = true -> truthy b = true ->
  wf_value a = true -> wf_value b = true ->
  mergeProfiles profilesKey a b = Some ab ->
  mergeProfiles profilesKey b a = Some ba ->
  profileOf profilesKey a name = Some pa ->
  profileOf profilesKey b name = Some pb ->
  itemOf pa itemId = Some va -> itemOf pb itemId = Some vb ->
  or_zero (stampOf pa itemId) = Some ta ->
  or_zero (stampOf pb itemId) = Some tb ->
  ta <> tb ->
  exists pab pba,
    profileOf profilesKey ab name = Some pab /\
    profileOf profilesKey ba name = Some pba /\
    itemOf pab itemId = Some (if ta <? tb then vb else va) /\
    itemOf pba itemId = Some (if ta <? tb then vb else va) /\
    or_zero (stampOf pab itemId) = Some (Z.max ta tb) /\
    or_zero (stampOf pba itemId) = Some (Z.max ta tb).
Proof.
  intros Hta Htb Hwa Hwb Hab Hba Hpa Hpb Hva Hvb Hsa Hsb Hne.
  destruct (merged_profile_of_both _ _ _ _ _ _ _ Htb Hwb Hab Hpa Hpb)
    as (pab & Mab & Oab).
  destruct (merged_profile_of_both _ _ _ _ _ _ _ Hta Hwa Hba Hpb Hpa)
    as (pba & Mba & Oba).
  pose proof (wf_profileOf _ _ _ _ Hwa Hpa) as Wa.
  pose proof (wf_profileOf _ _ _ _ Hwb Hpb) as Wb.
  destruct (mergeProfile_items _ _ _ _ _ _ _ Wa Wb Mab Hvb Hsb Hsa) as [G1 L1].
  destruct (mergeProfile_items _ _ _ _ _ _ _ Wb Wa Mba Hva Hsa Hsb) as [G2 L2].
  exists pab, pba. split; [ exact Oab | ]. split; [ exact Oba | ].
  destruct (Z.ltb_spec ta tb) as [Hlt | Hge].
  - destruct (G1 Hlt) as [I1 S1]. destruct (L2 ltac:(lia)) as [I2 S2].
    rewrite I1, I2, S1, S2, Hvb, Hsb, or_zero_num.
    repeat split; f_equal; lia.
  - destruct (L1 Hge) as [I1 S1]. destruct (G2 ltac:(lia)) as [I2 S2].
    rewrite I1, I2, S1, S2, Hva, Hsa, or_zero_num.
    repeat split; f_equal; lia.
Qed.

End MoreMerge.


Lemma merge_keeps_local_items_witness :
  exists mp,
    profileOf pk (mergedOf (document twoItems) (document (profile false 200)))
      "Default" = Some mp /\
    (itemOf (profile false 200) "itemY" = None ->
     itemOf mp "itemY" = itemOf twoItems "itemY" /\
     stampOf mp "itemY" = stampOf twoItems "itemY") /\
    (is_some (itemOf twoItems "itemY") = true -> is_some (itemOf mp "itemY") = true).
Proof.
  apply (merge_keeps_local_items pk (document twoItems)
           (document (profile false 200)) _ "Default" twoItems
           (profile false 200) "itemY");
    reflexivity.
Defined.

Lemma merge_takes_only_tables_and_settings_witness :
  (forall k, k <> pk ->
             field (mergedOf (versioned 3 darkLocal) (versioned 7 lightRemote)) k
             = field (versioned 3 darkLocal) k) /\
  (forall name lp rp,
      profileOf pk (versioned 3 darkLocal) name = Some lp ->
      profileOf pk (versioned 7 lightRemote) name = Some rp ->
      exists mp,
        profileOf pk (mergedOf (versioned 3 darkLocal) (versioned 7 lightRemote))
          name = Some mp /\
        forall k, ~ In k nonMergeable ->
                  k <> "checklistData" -> k <> "checklistTimestamps" ->
                  field mp k = field lp k).
Proof.
  apply (merge_takes_only_tables_and_settings pk (versioned 3 darkLocal)
           (versioned 7 lightRemote));
    reflexivity.
Defined.

Lemma merge_into_empty_adopts_remote_witness :
  mergeProfiles pk (VObj []) trips
  = Some (VObj (set_prop pk (VObj [("Default", profile false 200);
                                   ("Trip2", profile true 50)]) [])).
Proof.
  apply (merge_into_empty_adopts_remote pk [] trips); reflexivity.
Defined.

Lemma merge_again_changes_nothing_witness :
  mergeProfiles pk (mergedOf withSolo trips) trips = Some (mergedOf withSolo trips).
Proof.
  apply (merge_again_changes_nothing pk withSolo trips); try reflexivity.
  intros name rp H _. unfold profileOf in H. cbn in H.
  destruct (name =? "Default")%string; [ now injection H as <- | ].
  destruct (name =? "Trip2")%string; [ now injection H as <- | discriminate H ].
Defined.

Lemma merge_invents_nothing_witness :
  (exists lp, profileOf pk withSolo "Default" = Some lp /\
              itemOf lp "itemX" = Some (VBool false)) \/
  (exists rp, profileOf pk trips "Default" = Some rp /\
              itemOf rp "itemX" = Some (VBool false)).
Proof.
  apply (merge_invents_nothing pk withSolo trips (mergedOf withSolo trips)
           "Default" (profile false 200) "itemX" (VBool false));
    reflexivity.
Defined.

Lemma merge_both_ways_agree_witness :
  exists pab pba,
    profileOf pk (mergedOf (document (profile true 100)) trips) "Default"
    = Some pab /\
    profileOf pk (mergedOf trips (document (profile true 100))) "Default"
    = Some pba /\
    itemOf pab "itemX" = Some (if 100 <? 200 then VBool false else VBool true) /\
    itemOf pba "itemX" = Some (if 100 <? 200 then VBool false else VBool true) /\
    or_zero (stampOf pab "itemX") = Some (Z.max 100 200) /\
    or_zero (stampOf pba "itemX") = Some (Z.max 100 200).
Proof.
  apply (merge_both_ways_agree pk (document (profile true 100)) trips _ _
           "Default" (profile true 100) (profile false 200) "itemX"
           (VBool true) (VBool false) 100 200);
    try reflexivity.
  discriminate.
Defined.

(* ===================================================================== *)
(** * More of the coordinator *)
(* ===================================================================== *)

Lemma nth_error_last {A : Type} (l : list A) x :
  nth_error (l ++ [x]) (List.length l) = Some x.
Proof. induction l; simpl; auto. Qed.

Lemma remove_nth_last {A : Type} (l : list A) x :
  remove_nth (List.length l) (l ++ [x]) = l.
Proof. induction l; simpl; [ reflexivity | now f_equal ]. Qed.

Lemma remove_nth_length {A : Type} i (l : list A) :
  (List.length (remove_nth i l) <= List.length l)%nat.
Proof.
  revert i. induction l as [ | x l IH ]; intros [ | i ]; simpl; try lia.
  specialize (IH i). lia.
Qed.

Lemma run_app profilesKey typeErrorMsg es1 :
  forall c es2,
    run profilesKey typeErrorMsg c (es1 ++ es2)
    = match run profilesKey typeErrorMsg c es1 with
      | Some c1 => run profilesKey typeErrorMsg c1 es2
      | None => None
      end.
Proof.
  unfold run. induction es1 as [ | e es1 IH ]; intros c es2; cbn [each app].
  - reflexivity.
  - destruct (step profilesKey typeErrorMsg c e); [ apply IH | reflexivity ].
Qed.

Ltac coherence c :=
  let ap := fresh "ap" in
  let pc := fresh "pc" in
  let dt := fresh "dt" in
  let st := fresh "st" in
  let lst := fresh "lst" in
  destruct c as [ap pc dt st lst ? ? ? ? ?]; unfold coherent; cbn;
  destruct ap, pc, dt, st, lst; cbn; intros;
  try reflexivity; try discriminate; auto.

Ltac bind_intro :=
  repeat (match goal with
          | |- (match ?x with Some _ => _ | None => None end) = _ -> _ =>
              destruct x; [ | discriminate ]
          end).

Section MoreCoordinator.

Variable profilesKey : string.
Variable typeErrorMsg : string.

(** X8.  When the pull of [doPullAndMerge] resolves with a remote
    document, the flag that the push carries to [onComplete] is true exactly
    when the remote [_syncMeta.lastSyncAt] is later than the local one,
    whether or not the merge changed a profile; and when it is not later, the
    document that is stored and pushed is the local one with a new
    [_syncMeta]: nothing of the remote profiles is taken. *)
Theorem pull_reports_change_iff_remote_newer now now' remote c c1 la ra r :
  truthy remote = true -> activeProvider c = true ->
  lastSyncAtOf (getLocal c) = Some la -> lastSyncAtOf remote = Some ra ->
  pullSettled profilesKey typeErrorMsg now (Resolved remote) c = Some c1 ->
  exists d,
    stored c1 = Some d /\
    inFlight c1 = inFlight c ++ [MergePush d (la <? ra)] /\
    completions (mergePushSettled now' d (la <? ra) (Resolved r) c1)
    = (la <? ra) :: completions c /\
    (ra <= la ->
     forall k, k <> "_syncMeta" -> field d k = field (getLocal c) k).
Proof.
  intros Ht Hp Hla Hra Hrun. unfold pullSettled in Hrun.
  rewrite Ht, Hla, Hra in Hrun. cbn [negb] in Hrun. cbv zeta in Hrun.
  destruct (if la <? ra then mergeProfiles profilesKey (getLocal c) remote
            else Some (getLocal c)) as [merged | ] eqn:Em; [ | discriminate Hrun ].
  destruct (versionOf (getLocal c)) as [lv | ] eqn:Elv; [ | discriminate Hrun ].
  destruct (versionOf remote) as [rv | ] eqn:Erv; [ | discriminate Hrun ].
  destruct (setSyncMeta (syncMeta now (Z.max lv rv + 1)) merged) as [d | ] eqn:Ed;
    [ | discriminate Hrun ].
  replace (activeProvider (setStored d c)) with (activeProvider c) in Hrun
    by reflexivity.
  rewrite Hp in Hrun. injection Hrun as <-.
  destruct (versionOf_stamped _ _ _ _ Ed) as (Hv & _ & Hk).
  assert (Hflag : (if la <? ra then negb (value_eqb d (getLocal c)) else false)
                  = (la <? ra)).
  { destruct (la <? ra); [ | reflexivity ].
    destruct (value_eqb d (getLocal c)) eqn:E; [ | reflexivity ].
    apply value_eqb_eq in E. rewrite E, Elv in Hv. injection Hv as Hv. lia. }
  exists d. cbn [stored inFlight setInFlight setStored]. rewrite Hflag.
  repeat split.
  intros Hle k Hne. destruct (Z.ltb_spec la ra); [ lia | ].
  injection Em as <-. now apply Hk.
Qed.

Lemma doSync_coherent now c c' :
  coherent c = true -> doSync now c = Some c' -> coherent c' = true.
Proof.
  unfold doSync.
  destruct (negb (activeProvider c) || is_syncing (currentState c));
    [ now intros H [= <-] | ].
  cbv zeta. destruct (versionOf _); [ | discriminate ].
  destruct (setSyncMeta _ _); [ | discriminate ]. intros H [= <-].
  revert H. coherence c.
Qed.

Lemma notifyChange_coherent c : coherent c = true -> coherent (notifyChange c) = true.
Proof. unfold notifyChange. coherence c. Qed.

Lemma pullSettled_coherent now r c c' :
  coherent c = true ->
  pullSettled profilesKey typeErrorMsg now r c = Some c' -> coherent c' = true.
Proof.
  intros H. unfold pullSettled. destruct r as [remote | msg].
  - destruct (negb (truthy remote)).
    + destruct (doSync now c) as [c1 | ] eqn:E; [ | discriminate ].
      intros [= <-]. apply (doSync_coherent _ _ _ H) in E. exact E.
    + cbv zeta. bind_intro.
      match goal with
      | |- context [activeProvider (setStored ?d c)] =>
          change (activeProvider (setStored d c)) with (activeProvider c)
      end.
      destruct (activeProvider c) eqn:E; intros [= <-]; revert H E; coherence c.
  - intros [= <-]. revert H. coherence c.
Qed.

Lemma step_coherent c e c' :
  coherent c = true ->
  step profilesKey typeErrorMsg c e = Some c' -> coherent c' = true.
Proof.
  intros H. destruct e as [ d | | now | now | now | | i r now | ]; cbn [step].
  - intros [= <-]. unfold localWrite. apply notifyChange_coherent.
    revert H. coherence c.
  - intros [= <-]. now apply notifyChange_coherent.
  - destruct (debounceTimer c) eqn:E; [ | now intros [= <-] ].
    apply doSync_coherent. revert H E. coherence c.
  - destruct (pendingChanges c); [ | now intros [= <-] ].
    now apply doSync_coherent.
  - now apply doSync_coherent.
  - intros [= <-]. unfold doPullAndMerge. revert H. coherence c.
  - destruct (nth_error (inFlight c) i) as [ [d | | d changed] | ];
      [ | | | now intros [= <-] ]; cbv zeta.
    + intros [= <-]. revert H. destruct r; coherence c.
    + apply pullSettled_coherent. revert H. coherence c.
    + intros [= <-]. revert H. destruct r; coherence c.
  - intros [= <-]. reflexivity.
Qed.

Lemma run_coherent es :
  forall c c',
    coherent c = true ->
    run profilesKey typeErrorMsg c es = Some c' -> coherent c' = true.
Proof.
  unfold run. induction es as [ | e es IH ]; intros c c' Hc; cbn [each].
  - now intros [= <-].
  - destruct (step profilesKey typeErrorMsg c e) as [c1 | ] eqn:E; [ | discriminate ].
    apply IH. now apply (step_coherent c e).
Qed.

(** X9.  In every state that the coordinator reaches from the start of
    the module, with or without a provider: the pending flag is set only with
    a provider, and so is the debounce timer; the state is pending only while
    the pending flag is set; and it is synced only when a time of the last sync
    is recorded. *)
Theorem reachable_states_coherent hasProvider d h es c :
  run profilesKey typeErrorMsg (initial hasProvider d h) es = Some c ->
  (pendingChanges c = true -> activeProvider c = true) /\
  (debounceTimer c = true -> activeProvider c = true) /\
  (currentState c = pending -> pendingChanges c = true) /\
  (currentState c = synced -> lastSyncTime c <> None).
Proof.
  intros Hrun. apply run_coherent in Hrun; [ | reflexivity ].
  revert Hrun. unfold coherent.
  destruct (pendingChanges c), (activeProvider c), (debounceTimer c),
    (currentState c), (lastSyncTime c); cbn; intros H;
    repeat split; intros; congruence.
Qed.

Lemma doSync_idle_without_provider now c :
  activeProvider c = false -> doSync now c = Some c.
Proof. intros H. unfold doSync. now rewrite H. Qed.

Lemma step_without_provider c e c' :
  activeProvider c = false ->
  step profilesKey typeErrorMsg c e = Some c' ->
  activeProvider c' = false /\
  (List.length (inFlight c') <= List.length (inFlight c))%nat.
Proof.
  intros H. destruct e as [ d | | now | now | now | | i r now | ]; cbn [step].
  - intros [= <-]. unfold localWrite, notifyChange. cbn. rewrite H. cbn. auto.
  - intros [= <-]. unfold notifyChange. rewrite H. cbn. auto.
  - destruct (debounceTimer c); [ | intros [= <-]; auto ].
    rewrite doSync_idle_without_provider by exact H. intros [= <-]. cbn. auto.
  - destruct (pendingChanges c); [ | intros [= <-]; auto ].
    rewrite doSync_idle_without_provider by exact H. intros [= <-]. auto.
  - rewrite doSync_idle_without_provider by exact H. intros [= <-]. auto.
  - intros [= <-]. unfold doPullAndMerge. rewrite H. cbn. auto.
  - destruct (nth_error (inFlight c) i) as [ q | ]; [ | intros [= <-]; auto ].
    cbv zeta. pose proof (remove_nth_length i (inFlight c)) as Hlen.
    destruct q as [d | | d changed].
    + intros [= <-]. destruct r; cbn; auto.
    + unfold pullSettled. destruct r as [remote | msg]; [ | intros [= <-]; cbn; auto ].
      destruct (negb (truthy remote)).
      * rewrite doSync_idle_without_provider by exact H. intros [= <-]; cbn; auto.
      * cbv zeta. bind_intro.
        cbn [activeProvider setStored setInFlight]. rewrite H.
        intros [= <-]; cbn; auto.
    + intros [= <-]. destruct r; cbn; auto.
  - intros [= <-]. cbn. auto.
Qed.

(** X10.  Without a provider no request is sent: from a coordinator that
    has none, as after [_deactivate], whatever happens next, there is still no
    provider and the requests in flight are at most those there were. *)
Theorem no_request_without_provider es c c' :
  activeProvider c = false ->
  run profilesKey typeErrorMsg c es = Some c' ->
  activeProvider c' = false /\
  (List.length (inFlight c') <= List.length (inFlight c))%nat.
Proof.
  revert c c'. unfold run.
  induction es as [ | e es IH ]; intros c c' Hc; cbn [each].
  - intros [= <-]. auto.
  - destruct (step profilesKey typeErrorMsg c e) as [c1 | ] eqn:E; [ | discriminate ].
    intros Hrun. destruct (step_without_provider _ _ _ Hc E) as [H1 H2].
    destruct (IH _ _ H1 Hrun) as [H3 H4]. split; [ exact H3 | lia ].
Qed.

(** X11.  [_deactivate] does not cancel a request: when a push that was
    in flight settles after it, its [then] or its [catch] still runs, and the
    state that [_deactivate] had set to inactive becomes synced, or error,
    with no provider. *)
Theorem push_settles_after_deactivation c i q r now :
  nth_error (inFlight c) i = Some q -> q <> Pull ->
  exists c',
    step profilesKey typeErrorMsg (deactivate c) (Settle i r now) = Some c' /\
    activeProvider c' = false /\
    currentState (deactivate c) = inactive /\
    currentState c' = match r with Resolved _ => synced | Failed _ => error end.
Proof.
  intros Hq Hne. cbn [step].
  cbn [inFlight deactivate setState setPending setProvider setDebounce].
  rewrite Hq. cbv zeta.
  destruct q as [d | | d changed]; [ | contradiction | ]; eexists;
    (split; [ reflexivity | ]); destruct r; cbn; auto.
Qed.

(** X12.  When the pull of [doPullAndMerge] finds nothing in the cloud and
    the state is still syncing, the [doSync] of that branch is stopped by its
    own test of the state: no push is sent, the state stays syncing, the
    stored document is untouched and [onComplete(false)] is called; and in
    that state "Sync now" and the periodic tick send nothing either. *)
Theorem empty_cloud_pull_sends_nothing c remote now now2 :
  activeProvider c = true -> truthy remote = false ->
  let c' := onComplete false (setState syncing c) in
  step profilesKey typeErrorMsg (doPullAndMerge c)
    (Settle (List.length (inFlight c)) (Resolved remote) now) = Some c' /\
  inFlight c' = inFlight c /\
  stored c' = stored c /\
  step profilesKey typeErrorMsg c' (SyncNow now2) = Some c' /\
  (pendingChanges c = true ->
   step profilesKey typeErrorMsg c' (PeriodicTick now2) = Some c').
Proof.
  intros Hp Ht c'. unfold doPullAndMerge. rewrite Hp. cbn [negb]. cbv zeta.
  cbn [step]. cbn [inFlight setInFlight setState].
  rewrite nth_error_last, remove_nth_last. cbv zeta.
  unfold pullSettled. rewrite Ht. cbn [negb].
  assert (Hdrop : forall t, doSync t c' = Some c').
  { intros t. unfold doSync. cbn. now rewrite orb_true_r. }
  repeat split.
  - unfold doSync. cbn. rewrite orb_true_r. destruct c; reflexivity.
  - apply Hdrop.
  - intros Hpend. change (pendingChanges c') with (pendingChanges c).
    rewrite Hpend. apply Hdrop.
Qed.

Lemma localWrite_active x c :
  activeProvider c = true ->
  activeProvider (localWrite x c) = true /\ debounceTimer (localWrite x c) = true /\
  pendingChanges (localWrite x c) = true /\ currentState (localWrite x c) = pending /\
  stored (localWrite x c) = Some x /\ inFlight (localWrite x c) = inFlight c.
Proof. destruct c. cbn. intros ->. cbn. now repeat split. Qed.

Lemma run_writes ds :
  forall c d,
    activeProvider c = true ->
    exists c1,
      run profilesKey typeErrorMsg c (map LocalWrite (ds ++ [d])) = Some c1 /\
      activeProvider c1 = true /\ debounceTimer c1 = true /\
      pendingChanges c1 = true /\ currentState c1 = pending /\
      stored c1 = Some d /\ inFlight c1 = inFlight c.
Proof.
  induction ds as [ | x ds IH ]; intros c d Hp.
  - exists (localWrite d c). split; [ reflexivity | now apply localWrite_active ].
  - cbn [app map]. unfold run. cbn [each step]. fold (run profilesKey typeErrorMsg).
    destruct (localWrite_active x c Hp) as (A & _ & _ & _ & _ & F).
    destruct (IH (localWrite x c) d A) as (c1 & H1 & H2).
    exists c1. split; [ exact H1 | ]. now rewrite <- F.
Qed.

(** X13.  A burst of writes of the document leads to one push: with a
    provider, whatever the state, after any number of writes the first firing
    of the debounce timer sends one push, of the document written last with
    its version raised by one, and a second firing sends nothing. *)
Theorem burst_of_writes_sends_one_push c ds o v now now2 :
  activeProvider c = true -> versionOf (VObj o) = Some v ->
  exists c',
    run profilesKey typeErrorMsg c
      (map LocalWrite (ds ++ [VObj o]) ++ [DebounceFires now; DebounceFires now2])
    = Some c' /\
    inFlight c' =
      inFlight c ++ [SyncPush (VObj (set_prop "_syncMeta" (syncMeta now (v + 1)) o))] /\
    currentState c' = syncing.
Proof.
  intros Hp Hv.
  destruct (run_writes ds c (VObj o) Hp) as (c1 & H1 & A & B & C & D & E & F).
  rewrite run_app, H1. unfold run. cbn [each step]. rewrite B.
  rewrite (doSync_starts now (setDebounce false c1) o v); try assumption.
  - cbn. eexists. split; [ reflexivity | ]. cbn. now rewrite F.
  - cbn. now rewrite D.
  - unfold getLocal. cbn. now rewrite E.
Qed.

End MoreCoordinator.

Lemma pull_reports_change_iff_remote_newer_witness :
  exists d,
    stored (pulled 1000 (newer 7 (profile false 200))
              (setState syncing (idle (versioned 3 (profile true 100)))))
    = Some d /\
    inFlight (pulled 1000 (newer 7 (profile false 200))
                (setState syncing (idle (versioned 3 (profile true 100)))))
    = [] ++ [MergePush d (10 <? 20)] /\
    completions
      (mergePushSettled 1001 d (10 <? 20) (Resolved VNull)
         (pulled 1000 (newer 7 (profile false 200))
            (setState syncing (idle (versioned 3 (profile true 100))))))
    = (10 <? 20) :: [] /\
    (20 <= 10 ->
     forall k, k <> "_syncMeta" ->
               field d k = field (versioned 3 (profile true 100)) k).
Proof.
  apply (pull_reports_change_iff_remote_newer pk "TypeError" 1000 1001
           (newer 7 (profile false 200))
           (setState syncing (idle (versioned 3 (profile true 100)))) _
           10 20 VNull);
    reflexivity.
Defined.

Lemma reachable_states_coherent_witness :
  let c := afterRun (initial true None [])
             [LocalWrite (document (profile true 100)); DebounceFires 1000;
              Settle 0 (Resolved VNull) 1001] in
  (pendingChanges c = true -> activeProvider c = true) /\
  (debounceTimer c = true -> activeProvider c = true) /\
  (currentState c = pending -> pendingChanges c = true) /\
  (currentState c = synced -> lastSyncTime c <> None).
Proof.
  apply (reachable_states_coherent pk "TypeError" true None []
           [LocalWrite (document (profile true 100)); DebounceFires 1000;
            Settle 0 (Resolved VNull) 1001]).
  vm_compute. reflexivity.
Defined.

Lemma no_request_without_provider_witness :
  let c := deactivate (busy (document (profile true 100))) in
  let c' := afterRun c [NotifyChange; SyncNow 5; PullAndMerge;
                        Settle 0 (Resolved VNull) 6] in
  activeProvider c' = false /\
  (List.length (inFlight c') <= List.length (inFlight c))%nat.
Proof.
  apply (no_request_without_provider pk "TypeError"
           [NotifyChange; SyncNow 5; PullAndMerge; Settle 0 (Resolved VNull) 6]
           (deactivate (busy (document (profile true 100)))));
    vm_compute; reflexivity.
Defined.

Lemma push_settles_after_deactivation_witness :
  exists c',
    step pk "TypeError" (deactivate (busy (document (profile true 100))))
      (Settle 0 (Resolved VNull) 1000) = Some c' /\
    activeProvider c' = false /\
    currentState (deactivate (busy (document (profile true 100)))) = inactive /\
    currentState c' = synced.
Proof.
  apply (push_settles_after_deactivation pk "TypeError"
           (busy (document (profile true 100))) 0
           (SyncPush (document (profile true 100))) (Resolved VNull) 1000).
  - reflexivity.
  - discriminate.
Defined.

Lemma empty_cloud_pull_sends_nothing_witness :
  let c := idle (document (profile true 100)) in
  let c' := onComplete false (setState syncing c) in
  step pk "TypeError" (doPullAndMerge c)
    (Settle (List.length (inFlight c)) (Resolved VNull) 1000) = Some c' /\
  inFlight c' = inFlight c /\
  stored c' = stored c /\
  step pk "TypeError" c' (SyncNow 2000) = Some c' /\
  (pendingChanges c = true -> step pk "TypeError" c' (PeriodicTick 2000) = Some c').
Proof.
  apply (empty_cloud_pull_sends_nothing pk "TypeError"
           (idle (document (profile true 100))) VNull 1000 2000);
    reflexivity.
Defined.

Lemma burst_of_writes_sends_one_push_witness :
  exists c',
    run pk "TypeError" (busy (document (profile true 100)))
      (map LocalWrite ([document (profile false 200)]
                       ++ [VObj [(pk, VObj [("Default", profile false 300)])]])
       ++ [DebounceFires 1000; DebounceFires 1001])
    = Some c' /\
    inFlight c' =
      inFlight (busy (document (profile true 100)))
      ++ [SyncPush (VObj (set_prop "_syncMeta" (syncMeta 1000 (0 + 1))
                            [(pk, VObj [("Default", profile false 300)])]))] /\
    currentState c' = syncing.
Proof.
  apply (burst_of_writes_sends_one_push pk "TypeError"
           (busy (document (profile true 100)))
           [document (profile false 200)]
           [(pk, VObj [("Default", profile false 300)])] 0 1000 1001);
    reflexivity.
Defined.

(* ===================================================================== *)
(** * The label of the last sync and the change hook *)
(* ===================================================================== *)

(** X14.  [_timeAgo] says "just now" below one minute, and for a time in
    the future; then whole minutes from 1 to 59, whole hours from 1 to 23 and
    whole days from 1 on, each the number of full units that have passed.  On
    the options page, with a provider configured, the label after a push that
    succeeded at the time [ts] is "Last sync: " followed by [_timeAgo] of
    [ts]; on another page, without a configuration that names a provider, and
    so after the configuration has been cleared, no label is written. *)
Theorem timeAgo_ranges now ts :
  (now - ts < 60000 -> _timeAgo now ts = "just now") /\
  (60000 <= now - ts < 3600000 ->
   exists n, 1 <= n <= 59 /\ 60000 * n <= now - ts < 60000 * (n + 1) /\
             _timeAgo now ts = (numeral n ++ " min ago")%string) /\
  (3600000 <= now - ts < 86400000 ->
   exists n, 1 <= n <= 23 /\ 3600000 * n <= now - ts < 3600000 * (n + 1) /\
             _timeAgo now ts = (numeral n ++ " hr ago")%string) /\
  (86400000 <= now - ts ->
   exists n, 1 <= n /\ 86400000 * n <= now - ts < 86400000 * (n + 1) /\
             _timeAgo now ts = (numeral n ++ " days ago")%string) /\
  (ts <> 0 ->
   forall cfg d r c,
     configured cfg = true ->
     lastSyncLabel true cfg now (syncPushSettled ts d (Resolved r) c)
     = Some ("Last sync: " ++ _timeAgo now ts)%string) /\
  (forall page cfg c,
      page = false \/ configured cfg = false ->
      lastSyncLabel page cfg now c = None) /\
  (forall saved c,
      lastSyncLabel true (Drive.syncConfig (Drive.clearSyncConfig saved)) now c
      = None).
Proof.
  unfold _timeAgo. cbv zeta. repeat split.
  - intros H. now destruct (Z.ltb_spec (now - ts) 60000); [ | lia ].
  - intros [H1 H2]. exists ((now - ts) / 60000).
    destruct (Z.ltb_spec (now - ts) 60000); [ lia | ].
    destruct (Z.ltb_spec (now - ts) 3600000); [ | lia ].
    pose proof (Z.div_mod (now - ts) 60000 ltac:(lia)).
    pose proof (Z.mod_pos_bound (now - ts) 60000 ltac:(lia)).
    repeat split; lia.
  - intros [H1 H2]. exists ((now - ts) / 3600000).
    destruct (Z.ltb_spec (now - ts) 60000); [ lia | ].
    destruct (Z.ltb_spec (now - ts) 3600000); [ lia | ].
    destruct (Z.ltb_spec (now - ts) 86400000); [ | lia ].
    pose proof (Z.div_mod (now - ts) 3600000 ltac:(lia)).
    pose proof (Z.mod_pos_bound (now - ts) 3600000 ltac:(lia)).
    repeat split; lia.
  - intros H1. exists ((now - ts) / 86400000).
    destruct (Z.ltb_spec (now - ts) 60000); [ lia | ].
    destruct (Z.ltb_spec (now - ts) 3600000); [ lia | ].
    destruct (Z.ltb_spec (now - ts) 86400000); [ lia | ].
    pose proof (Z.div_mod (now - ts) 86400000 ltac:(lia)).
    pose proof (Z.mod_pos_bound (now - ts) 86400000 ltac:(lia)).
    repeat split; lia.
  - intros Hts cfg d r c Hcfg. unfold lastSyncLabel. rewrite Hcfg.
    cbn [negb syncPushSettled lastSyncTime
      setState setPending setLastSyncTime setHistory setStored].
    now destruct (Z.eqb_spec ts 0).
  - intros page cfg c [-> | H]; unfold lastSyncLabel; [ reflexivity | ].
    rewrite H. now destruct page.
Qed.

Lemma timeAgo_ranges_witness :
  (exists n, 1 <= n <= 59 /\ 60000 * n <= 200000 - 5000 < 60000 * (n + 1) /\
             _timeAgo 200000 5000 = (numeral n ++ " min ago")%string) /\
  lastSyncLabel true (VObj [("provider", VStr "google_drive")]) 200000
    (syncPushSettled 5000 (document (profile true 100)) (Resolved VNull)
       (busy (document (profile true 100))))
  = Some "Last sync: 3 min ago" /\
  lastSyncLabel true VNull 200000
    (syncPushSettled 5000 (document (profile true 100)) (Resolved VNull)
       (deactivate (busy (document (profile true 100)))))
  = None.
Proof.
  destruct (timeAgo_ranges 200000 5000) as (_ & H1 & _ & _ & H2 & H3 & _).
  split; [ apply H1; lia | ]. split.
  - rewrite H2; [ reflexivity | discriminate | reflexivity ].
  - apply H3. now right.
Defined.

Lemma withStamps_spec fields ts :
  or_empty (lookup "checklistTimestamps" fields) = Some ts ->
  lookup "checklistTimestamps" (withStamps fields) = Some (VObj ts) /\
  (forall k, k <> "checklistTimestamps" ->
             lookup k (withStamps fields) = lookup k fields) /\
  (wf_value (VObj fields) = true -> wf_value (VObj (withStamps fields)) = true).
Proof.
  intros Hts. unfold withStamps.
  destruct (lookup "checklistTimestamps" fields) as [ts0 | ] eqn:E.
  - cbn [or_empty] in Hts. destruct (truthy ts0) eqn:T.
    + destruct ts0; try discriminate Hts. injection Hts as ->. now repeat split.
    + injection Hts as <-. split; [ apply lookup_set_prop_eq | ]. split.
      * intros k Hk. now apply lookup_set_prop_neq.
      * intros H. now apply wf_set_prop.
  - injection Hts as <-. split; [ apply lookup_set_prop_eq | ]. split.
    + intros k Hk. now apply lookup_set_prop_neq.
    + intros H. now apply wf_set_prop.
Qed.

Section HookProps.

Variable profilesKey : string.

Lemma stampItem_current now id po profs name fields ts :
  lookup profilesKey po = Some (VObj profs) ->
  currentName (VObj po) = Some name ->
  plain_name name = true -> plain_name id = true ->
  lookup name profs = Some (VObj fields) ->
  or_empty (lookup "checklistTimestamps" fields) = Some ts ->
  stampItem profilesKey now id (VObj po)
  = Some (Some (VObj (set_prop profilesKey
       (VObj (set_prop name
          (VObj (set_prop "checklistTimestamps" (VObj (set_prop id (VNum now) ts))
                   (withStamps fields))) profs)) po))).
Proof.
  intros Ht Hc Hname Hid Hp Hts.
  destruct (withStamps_spec _ _ Hts) as (H1 & _ & _).
  unfold stampItem. rewrite Ht. cbn [truthy negb].
  rewrite Hc. cbn [negb]. rewrite Hname. cbn [negb]. rewrite Hp. cbn [truthy negb].
  cbv zeta. rewrite H1, Hid. reflexivity.
Qed.

(** X15.  A change of a checklist item that is not part of the start-up,
    on a document whose current profile is an object with a table of dates or
    with none: the hook writes the document with the date of the item in the
    current profile set to the time of the change, every other date, every
    other property of that profile (its checklistData too), every other
    profile and every other property of the document as they were, and calls
    [notifyChange]. *)
Theorem setItem_stamps_current_profile now id c po profs name fields ts :
  getLocal c = VObj po ->
  lookup profilesKey po = Some (VObj profs) ->
  currentName (VObj po) = Some name ->
  plain_name name = true -> plain_name id = true ->
  lookup name profs = Some (VObj fields) ->
  or_empty (lookup "checklistTimestamps" fields) = Some ts ->
  exists p' prof',
    setItem profilesKey false now id c = Some (notifyChange (setStored p' c)) /\
    profileOf profilesKey p' name = Some prof' /\
    stampOf prof' id = Some (VNum now) /\
    (forall id', id' <> id -> stampOf prof' id' = lookup id' ts) /\
    (forall k, k <> "checklistTimestamps" -> field prof' k = lookup k fields) /\
    (forall name', name' <> name ->
                   profileOf profilesKey p' name' = lookup name' profs) /\
    (forall k, k <> profilesKey -> field p' k = lookup k po).
Proof.
  intros Hl Ht Hc Hname Hid Hp Hts.
  destruct (withStamps_spec _ _ Hts) as (H1 & H2 & _).
  eexists. eexists. split.
  - unfold setItem. rewrite Hl.
    rewrite (stampItem_current now id po profs name fields ts); try assumption.
    reflexivity.
  - unfold profileOf, profilesOf. cbn [field]. rewrite lookup_set_prop_eq.
    cbn [or_empty truthy]. rewrite lookup_set_prop_eq. split; [ reflexivity | ].
    unfold stampOf. cbn [field]. rewrite lookup_set_prop_eq. cbn [or_empty truthy].
    repeat split.
    + apply lookup_set_prop_eq.
    + intros id' Hne. now apply lookup_set_prop_neq.
    + intros k Hk. rewrite lookup_set_prop_neq by exact Hk. now apply H2.
    + intros name' Hne. now apply lookup_set_prop_neq.
    + intros k Hk. now apply lookup_set_prop_neq.
Qed.

Lemma shaped_profile_stamped now id fields ts :
  plain_name id = true ->
  shaped_profile (VObj fields) = true ->
  or_empty (lookup "checklistTimestamps" fields) = Some ts ->
  shaped_profile
    (VObj (set_prop "checklistTimestamps" (VObj (set_prop id (VNum now) ts))
             (withStamps fields))) = true.
Proof.
  intros Hid Hs Hts. destruct (withStamps_spec _ _ Hts) as (_ & H2 & _).
  unfold shaped_profile in *. unfold syncAtOf in *. cbn [field] in *.
  rewrite lookup_set_prop_eq. rewrite !lookup_set_prop_neq by discriminate.
  rewrite !H2 by discriminate. rewrite Hts in Hs. cbn [or_empty truthy].
  destruct (or_empty (lookup "checklistData" fields)) as [data | ];
    [ | discriminate Hs ].
  rewrite !andb_true_iff in Hs |- *. destruct Hs as [[[Hd Ht] Hn] Hm].
  repeat split; try assumption.
  - now apply set_prop_plain.
  - apply forallb_set_prop; [ | exact Hn ]. cbn [snd]. now rewrite or_zero_num.
Qed.

Lemma shaped_stamped now id po profs name fields ts :
  shaped profilesKey (VObj po) = true ->
  lookup profilesKey po = Some (VObj profs) ->
  plain_name name = true -> plain_name id = true ->
  lookup name profs = Some (VObj fields) ->
  or_empty (lookup "checklistTimestamps" fields) = Some ts ->
  shaped profilesKey
    (VObj (set_prop profilesKey
       (VObj (set_prop name
          (VObj (set_prop "checklistTimestamps" (VObj (set_prop id (VNum now) ts))
                   (withStamps fields))) profs)) po)) = true.
Proof.
  intros Hs Ht Hname Hid Hp Hts. unfold shaped in *. rewrite Ht in Hs.
  rewrite lookup_set_prop_eq. cbn [or_empty truthy] in *.
  rewrite andb_true_iff in Hs |- *. destruct Hs as [Hpl Hall]. split.
  - now apply set_prop_plain.
  - apply forallb_set_prop; [ | exact Hall ]. cbn [snd].
    apply shaped_profile_stamped; try assumption.
    rewrite forallb_forall in Hall. exact (Hall _ (lookup_In _ _ _ Hp)).
Qed.

(** X16.  An item that the user has just changed survives the merge with
    a remote document that has an older or equal date for it: after the hook
    has stamped the item at the time [now], the merge of the stored document
    with a remote document whose date for the item is at most [now] returns,
    and the merged document has the local value of the item, with the date
    [now]. *)
Theorem stamped_item_survives_older_remote
    now id c po profs name fields ts remote rp rVal rt :
  getLocal c = VObj po -> wf_value (VObj po) = true ->
  shaped profilesKey (VObj po) = true ->
  lookup profilesKey po = Some (VObj profs) ->
  currentName (VObj po) = Some name ->
  plain_name name = true -> plain_name id = true ->
  lookup name profs = Some (VObj fields) ->
  or_empty (lookup "checklistTimestamps" fields) = Some ts ->
  truthy remote = true -> wf_value remote = true ->
  shaped profilesKey remote = true ->
  profileOf profilesKey remote name = Some rp ->
  itemOf rp id = Some rVal ->
  or_zero (stampOf rp id) = Some rt -> rt <= now ->
  exists c' local' merged mp,
    setItem profilesKey false now id c = Some c' /\
    stored c' = Some local' /\
    mergeProfiles profilesKey local' remote = Some merged /\
    profileOf profilesKey merged name = Some mp /\
    itemOf mp id = itemOf (VObj fields) id /\
    stampOf mp id = Some (VNum now).
Proof.
  intros Hl Hwf Hsh Ht Hc Hname Hid Hp Hts Htr Hwr Hsr Hrp Hitem Hrt Hle.
  destruct (withStamps_spec _ _ Hts) as (H1 & H2 & H3).
  set (prof' := VObj (set_prop "checklistTimestamps"
                        (VObj (set_prop id (VNum now) ts)) (withStamps fields))).
  set (local' := VObj (set_prop profilesKey (VObj (set_prop name prof' profs)) po)).
  destruct (mergeProfiles_returns profilesKey local' remote Hwr) as [merged Hm];
    [ now apply shaped_stamped | exact Hsr | ].
  assert (Hprof : profileOf profilesKey local' name = Some prof').
  { unfold profileOf, profilesOf, local'. cbn [field]. rewrite lookup_set_prop_eq.
    cbn [or_empty truthy]. apply lookup_set_prop_eq. }
  assert (Wprofs : wf_value (VObj profs) = true)
    by exact (wf_obj_lookup _ _ _ Hwf Ht).
  assert (Wfields : wf_value (VObj fields) = true)
    by exact (wf_obj_lookup _ _ _ Wprofs Hp).
  assert (Wts : wf_value (VObj ts) = true)
    by exact (wf_obj_lookup _ _ _ (H3 Wfields) H1).
  assert (Wp' : wf_value prof' = true).
  { unfold prof'. apply wf_set_prop; [ now apply H3 | ]. now apply wf_set_prop. }
  destruct (merged_profile_of_both _ _ _ _ _ _ _ Htr Hwr Hm Hprof Hrp)
    as (mp & Hmerge & Hof).
  exists (notifyChange (setStored local' c)), local', merged, mp.
  split; [ | split; [ | split; [ exact Hm | split; [ exact Hof | ] ] ] ].
  - unfold setItem. rewrite Hl.
    rewrite (stampItem_current now id po profs name fields ts); try assumption.
    reflexivity.
  - unfold notifyChange.
    match goal with
    | |- stored (if ?b then _ else _) = _ => destruct b; reflexivity
    end.
  - assert (Hstamp : stampOf prof' id = Some (VNum now)).
    { unfold stampOf, prof'. cbn [field]. rewrite lookup_set_prop_eq.
      cbn [or_empty truthy]. apply lookup_set_prop_eq. }
    pose proof (mergeProfile_items _ _ _ id rVal rt now Wp'
                  (wf_profileOf _ _ _ _ Hwr Hrp) Hmerge Hitem Hrt) as H.
    rewrite Hstamp, or_zero_num in H. destruct (H eq_refl) as [_ H'].
    destruct (H' Hle) as [Hi Hs]. split; [ | exact Hs ].
    rewrite Hi. unfold itemOf, prof'. cbn [field].
    rewrite lookup_set_prop_neq by discriminate. now rewrite H2 by discriminate.
Qed.

End HookProps.

Lemma setItem_stamps_current_profile_witness :
  exists p' prof',
    setItem pk false 300 "itemX" (idle onDefault)
    = Some (notifyChange (setStored p' (idle onDefault))) /\
    profileOf pk p' "Default" = Some prof' /\
    stampOf prof' "itemX" = Some (VNum 300) /\
    (forall id', id' <> "itemX" ->
                 stampOf prof' id' = lookup id' [("itemX", VNum 100)]) /\
    (forall k, k <> "checklistTimestamps" ->
               field prof' k = field (profile true 100) k) /\
    (forall name', name' <> "Default" ->
                   profileOf pk p' name' = lookup name' [("Default", profile true 100)]) /\
    (forall k, k <> pk -> field p' k = field onDefault k).
Proof.
  apply (setItem_stamps_current_profile pk 300 "itemX" (idle onDefault)
           [(pk, VObj [("Default", profile true 100)]); ("current", VStr "Default")]
           [("Default", profile true 100)] "Default"
           [("checklistData", VObj [("itemX", VBool true)]);
            ("checklistTimestamps", VObj [("itemX", VNum 100)])]
           [("itemX", VNum 100)]);
    reflexivity.
Defined.

Lemma stamped_item_survives_older_remote_witness :
  exists c' local' merged mp,
    setItem pk false 300 "itemX" (idle onDefault) = Some c' /\
    stored c' = Some local' /\
    mergeProfiles pk local' (document (profile false 200)) = Some merged /\
    profileOf pk merged "Default" = Some mp /\
    itemOf mp "itemX" = itemOf (profile true 100) "itemX" /\
    stampOf mp "itemX" = Some (VNum 300).
Proof.
  apply (stamped_item_survives_older_remote pk 300 "itemX" (idle onDefault)
           [(pk, VObj [("Default", profile true 100)]); ("current", VStr "Default")]
           [("Default", profile true 100)] "Default"
           [("checklistData", VObj [("itemX", VBool true)]);
            ("checklistTimestamps", VObj [("itemX", VNum 100)])]
           [("itemX", VNum 100)]
           (document (profile false 200)) (profile false 200) (VBool false) 200);
    try reflexivity.
  lia.
Defined.

(* ===================================================================== *)
(** * The provider: token, upload and saved configuration *)
(* ===================================================================== *)

Section DriveProps.

Variables syntaxErrorMsg typeErrorMsg : string.

Lemma getToken_valid x d token :
  Drive._tokenValid (Drive.clock x) (Drive.self d) = Some true ->
  Drive.accessToken (Drive.self d) = VStr token ->
  Drive._getToken false x d = Some (d, Resolved token).
Proof. intros Hv Ht. unfold Drive._getToken. now rewrite Hv, Ht. Qed.

Lemma fetch_valid url m ct pl x d token :
  Drive._tokenValid (Drive.clock x) (Drive.self d) = Some true ->
  Drive.accessToken (Drive.self d) = VStr token ->
  Drive._fetch url m ct pl x d
  = Some (Drive.Result d
            [Drive.Call url m ct ("Bearer " ++ token)%string pl]
            (match Drive.net x with
             | Rejected msg => Failed msg
             | Answered r => Resolved r
             end)).
Proof.
  intros Hv Ht. unfold Drive._fetch. now rewrite (getToken_valid _ _ _ Hv Ht).
Qed.

Lemma findFile_known x d :
  truthy (Drive.fileId (Drive.self d)) = true ->
  Drive._findFile syntaxErrorMsg typeErrorMsg x d
  = Some (Drive.Result d [] (Resolved (Drive.fileId (Drive.self d)))).
Proof. intros H. unfold Drive._findFile. now rewrite H. Qed.

(** X17.  A token that the token client grants at the time [when] for
    [expires_in] seconds is handed out again, without asking the client and
    with the session as it is, at every request made earlier than one minute
    before its expiry; from that minute on it counts as not valid and the
    client is asked again. *)
Theorem token_reused_until_a_minute_before_expiry x d when resp props :
  Drive._tokenValid (Drive.clock x) (Drive.self d) = Some false ->
  Drive.consent x = Drive.Responds when resp ->
  Drive.error resp = "" -> Drive.access_token resp <> "" ->
  Drive.syncConfig (Drive.conf d) = VObj props ->
  exists d1,
    Drive._getToken false x d = Some (d1, Resolved (Drive.access_token resp)) /\
    forall y,
      (Drive.clock y < when + Drive.expires_in resp * 1000 - 60000 ->
       Drive._getToken false y d1 = Some (d1, Resolved (Drive.access_token resp))) /\
      (when + Drive.expires_in resp * 1000 - 60000 <= Drive.clock y ->
       Drive._tokenValid (Drive.clock y) (Drive.self d1) = Some false /\
       (Drive.consent y = Drive.ScriptFails ->
        Drive._getToken false y d1
        = Some (d1, Failed "Failed to load Google Identity Services"))).
Proof.
  intros Hv Hc He Ht Hcfg. unfold Drive._getToken at 1.
  rewrite Hv, Hc, He. cbn [String.eqb negb]. unfold Drive.assign. rewrite Hcfg.
  cbn [Drive.syncConfig]. eexists. split; [ reflexivity | ].
  assert (Htr : truthy (VStr (Drive.access_token resp)) = true).
  { cbn. now destruct (String.eqb_spec (Drive.access_token resp) ""). }
  intros y. split.
  - intros Hlt. apply getToken_valid; [ | reflexivity ].
    unfold Drive._tokenValid. cbn [Drive.self Drive.accessToken Drive.tokenExpiry].
    rewrite Htr. f_equal. now apply Z.ltb_lt.
  - intros Hge.
    assert (Hinv : Drive._tokenValid (Drive.clock y)
                     (Drive.Provider (VStr (Drive.access_token resp))
                        (VNum (when + Drive.expires_in resp * 1000))
                        (Drive.fileId (Drive.self d))) = Some false).
    { unfold Drive._tokenValid. cbn [Drive.accessToken Drive.tokenExpiry].
      rewrite Htr. f_equal. apply Z.ltb_ge. lia. }
    split; [ exact Hinv | ].
    intros Hy. unfold Drive._getToken. cbn [Drive.self]. now rewrite Hinv, Hy.
Qed.

(** X18.  [push] does not look at the status of the answer: with the file
    known and a valid token, an upload that Drive answers with any status,
    an error status too, and a JSON body that is not null and has no id,
    resolves with that body after one PATCH of the file; and the coordinator
    that has this push in flight then stores the document, sets the state to
    synced and clears the pending flag. *)
Theorem push_resolves_whatever_the_status
    profilesKey data find upload d fid token resp res now c i :
  Drive.fileId (Drive.self d) = VStr fid -> fid <> "" ->
  Drive._tokenValid (Drive.clock upload) (Drive.self d) = Some true ->
  Drive.accessToken (Drive.self d) = VStr token ->
  Drive.net upload = Answered resp ->
  body resp = Some res -> res <> VNull ->
  truthy (Drive.or_else VNull (field res "id")) = false ->
  nth_error (inFlight c) i = Some (SyncPush data) ->
  Drive.push syntaxErrorMsg typeErrorMsg data find upload d
  = Some (Drive.Result d [Drive.updateCall fid token data] (Resolved res)) /\
  exists c',
    step profilesKey typeErrorMsg c (Settle i (Resolved res) now) = Some c' /\
    stored c' = Some data /\
    currentState c' = synced /\
    pendingChanges c' = false.
Proof.
  intros Hf Hne Hv Ht Hn Hb Hres Hid Hq.
  assert (Htr : truthy (VStr fid) = true).
  { cbn. now destruct (String.eqb_spec fid ""). }
  split.
  - unfold Drive.push. rewrite findFile_known by now rewrite Hf.
    cbn [Drive.settled Drive.after Drive.calls]. rewrite Hf.
    unfold Drive.uploadUrl. rewrite Htr.
    rewrite (fetch_valid _ _ _ _ _ _ token Hv Ht).
    cbn [Drive.settled Drive.after Drive.calls app]. rewrite Hn.
    unfold Drive.json. rewrite Hb.
    destruct res; try contradiction; rewrite Hid; reflexivity.
  - cbn [step]. rewrite Hq. cbv zeta. eexists. split; [ reflexivity | ].
    now repeat split.
Qed.

Lemma getToken_fileId force x d d1 r :
  Drive._getToken force x d = Some (d1, r) ->
  Drive.fileId (Drive.self d1) = Drive.fileId (Drive.self d).
Proof.
  unfold Drive._getToken. intros H.
  destruct (if force then Some false
            else Drive._tokenValid (Drive.clock x) (Drive.self d))
    as [ [ | ] | ]; [ | | discriminate H ].
  - destruct (Drive.accessToken (Drive.self d)); try discriminate H.
    now injection H as <- _.
  - destruct (Drive.consent x) as [ | when resp ]; [ now injection H as <- _ | ].
    destruct (negb (Drive.error resp =? "")%string); [ now injection H as <- _ | ].
    bind_inv H. now injection H as <- _.
Qed.

Lemma json_body r res :
  Drive.json syntaxErrorMsg typeErrorMsg r = Resolved res -> body r = Some res.
Proof.
  unfold Drive.json. destruct (body r) as [ [ | | | | | ] | ];
    first [ discriminate | now intros [= <-] ].
Qed.

(** A push by a provider that knows its file, answered with the id of
    that file or with none: the provider still knows that file, and the push
    has made no call or one call, the update of that file. *)
Lemma push_keeps_file data find upload d r fid :
  Drive.fileId (Drive.self d) = VStr fid -> fid <> "" ->
  Drive.namesFile fid upload = true ->
  Drive.push syntaxErrorMsg typeErrorMsg data find upload d = Some r ->
  Drive.fileId (Drive.self (Drive.after r)) = VStr fid /\
  (Drive.calls r = [] \/
   exists token, Drive.calls r = [Drive.updateCall fid token data]).
Proof.
  intros Hf Hne Hn. assert (Htr : truthy (VStr fid) = true).
  { cbn. now destruct (String.eqb_spec fid ""). }
  unfold Drive.push. rewrite findFile_known by now rewrite Hf.
  cbn [Drive.settled Drive.after Drive.calls]. rewrite Hf.
  unfold Drive.uploadUrl. rewrite Htr. unfold Drive._fetch.
  destruct (Drive._getToken false upload d) as [ [d2 [token | msg]] | ] eqn:Eg;
    [ | | discriminate ]; cbn [fst snd];
    pose proof (getToken_fileId _ _ _ _ _ Eg) as Hd2; rewrite Hf in Hd2.
  - cbn [Drive.settled Drive.after Drive.calls app].
    unfold Drive.namesFile in Hn.
    destruct (Drive.net upload) as [msg | r3].
    + intros [= <-]. split; [ exact Hd2 | right; now exists token ].
    + destruct (Drive.json syntaxErrorMsg typeErrorMsg r3) as [res | msg] eqn:Ej.
      * rewrite (json_body _ _ Ej) in Hn.
        destruct (truthy (Drive.or_else VNull (field res "id"))) eqn:Ei;
          cbn [negb orb] in Hn.
        -- apply value_eqb_eq in Hn. rewrite Hn. unfold Drive.rememberFile.
           destruct (Drive.assign "fileId" (VStr fid) (Drive.conf d2))
             as [ [c2 | ] | ]; [ | | discriminate ];
             intros [= <-]; (split; [ reflexivity | right; now exists token ]).
        -- intros [= <-]. split; [ exact Hd2 | right; now exists token ].
      * intros [= <-]. split; [ exact Hd2 | right; now exists token ].
  - cbn [Drive.settled Drive.after Drive.calls app].
    intros [= <-]. split; [ exact Hd2 | now left ].
Qed.

(** A session whose token is a string, with a number for expiry, and
    whose configuration is an object: the token client and the calls of
    [fetch] leave it so, and every method returns on it. *)
Lemma getToken_returns force x d t e props :
  Drive.accessToken (Drive.self d) = VStr t ->
  Drive.tokenExpiry (Drive.self d) = VNum e ->
  Drive.syncConfig (Drive.conf d) = VObj props ->
  exists d1 r t1 e1 props1,
    Drive._getToken force x d = Some (d1, r) /\
    Drive.accessToken (Drive.self d1) = VStr t1 /\
    Drive.tokenExpiry (Drive.self d1) = VNum e1 /\
    Drive.syncConfig (Drive.conf d1) = VObj props1.
Proof.
  intros Ht He Hc. unfold Drive._getToken, Drive._tokenValid. rewrite Ht, He.
  destruct (if force then Some false
            else if truthy (VStr t) then Some (Drive.clock x <? e - 60000)
                 else Some false) as [ [ | ] | ] eqn:Ev.
  - exists d, (Resolved t), t, e, props. now repeat split.
  - destruct (Drive.consent x) as [ | when resp ].
    + eexists d, _, t, e, props. now repeat split.
    + destruct (negb (Drive.error resp =? "")%string).
      * eexists d, _, t, e, props. now repeat split.
      * unfold Drive.assign. rewrite Hc. cbn [Drive.syncConfig].
        eexists _, _, _, _, _. repeat split.
  - destruct force; [ discriminate Ev | ]. destruct (truthy (VStr t)); discriminate Ev.
Qed.

Lemma push_returns data find upload d fid t e props :
  Drive.fileId (Drive.self d) = VStr fid -> fid <> "" ->
  Drive.accessToken (Drive.self d) = VStr t ->
  Drive.tokenExpiry (Drive.self d) = VNum e ->
  Drive.syncConfig (Drive.conf d) = VObj props ->
  exists r t1 e1 props1,
    Drive.push syntaxErrorMsg typeErrorMsg data find upload d = Some r /\
    Drive.accessToken (Drive.self (Drive.after r)) = VStr t1 /\
    Drive.tokenExpiry (Drive.self (Drive.after r)) = VNum e1 /\
    Drive.syncConfig (Drive.conf (Drive.after r)) = VObj props1.
Proof.
  intros Hf Hne Ht He Hc. assert (Htr : truthy (VStr fid) = true).
  { cbn. now destruct (String.eqb_spec fid ""). }
  unfold Drive.push. rewrite findFile_known by now rewrite Hf.
  cbn [Drive.settled Drive.after Drive.calls]. rewrite Hf.
  unfold Drive.uploadUrl. rewrite Htr. unfold Drive._fetch.
  destruct (getToken_returns false upload d t e props Ht He Hc)
    as (d1 & r & t1 & e1 & props1 & -> & Ht1 & He1 & Hc1).
  cbn [fst snd]. destruct r as [token | msg].
  - cbn [Drive.settled Drive.after Drive.calls app].
    destruct (Drive.net upload) as [msg | r3].
    + eexists _, t1, e1, props1. now repeat split.
    + destruct (Drive.json syntaxErrorMsg typeErrorMsg r3) as [res | msg].
      * destruct (truthy (Drive.or_else VNull (field res "id"))).
        -- unfold Drive.rememberFile, Drive.assign. rewrite Hc1.
           cbn [Drive.syncConfig fst snd]. eexists _, t1, e1, _. now repeat split.
        -- eexists _, t1, e1, props1. now repeat split.
      * eexists _, t1, e1, props1. now repeat split.
  - cbn [Drive.settled Drive.after Drive.calls app].
    eexists _, t1, e1, props1. now repeat split.
Qed.

Lemma pushes_return fid :
  fid <> "" ->
  forall l d t e props,
    Drive.fileId (Drive.self d) = VStr fid ->
    Drive.accessToken (Drive.self d) = VStr t ->
    Drive.tokenExpiry (Drive.self d) = VNum e ->
    Drive.syncConfig (Drive.conf d) = VObj props ->
    forallb (fun p => Drive.namesFile fid (snd p)) l = true ->
    exists d' sent, Drive.pushes syntaxErrorMsg typeErrorMsg l d = Some (d', sent).
Proof.
  intros Hne. induction l as [ | [[data find] upload] l IH ];
    intros d t e props Hf Ht He Hc Hall.
  - now exists d, [].
  - cbn [forallb snd] in Hall. apply andb_true_iff in Hall. destruct Hall as [Hn Hall].
    cbn [Drive.pushes].
    destruct (push_returns data find upload d fid t e props Hf Hne Ht He Hc)
      as (r & t1 & e1 & props1 & Ep & Ht1 & He1 & Hc1).
    rewrite Ep.
    destruct (push_keeps_file _ _ _ _ _ _ Hf Hne Hn Ep) as [Hf1 _].
    destruct (IH _ _ _ _ Hf1 Ht1 He1 Hc1 Hall) as (d' & sent & ->).
    cbn [fst snd]. now eexists _, _.
Qed.

Lemma pushes_keep_file fid :
  fid <> "" ->
  forall l d d' sent,
    Drive.fileId (Drive.self d) = VStr fid ->
    forallb (fun p => Drive.namesFile fid (snd p)) l = true ->
    Drive.pushes syntaxErrorMsg typeErrorMsg l d = Some (d', sent) ->
    Drive.fileId (Drive.self d') = VStr fid /\
    Forall2 (fun p cs =>
               cs = [] \/
               exists token, cs = [Drive.updateCall fid token (fst (fst p))])
            l sent.
Proof.
  intros Hne. induction l as [ | [[data find] upload] l IH ]; intros d d' sent Hf Hall.
  - intros [= <- <-]. split; [ exact Hf | constructor ].
  - cbn [forallb snd] in Hall. apply andb_true_iff in Hall. destruct Hall as [Hn Hall].
    cbn [Drive.pushes].
    destruct (Drive.push syntaxErrorMsg typeErrorMsg data find upload d)
      as [r | ] eqn:Ep; [ | discriminate ].
    destruct (push_keeps_file _ _ _ _ _ _ Hf Hne Hn Ep) as [Hf1 Hc].
    destruct (Drive.pushes syntaxErrorMsg typeErrorMsg l (Drive.after r))
      as [[d1 sent1] | ] eqn:El; [ | discriminate ].
    cbn [fst snd]. intros [= <- <-].
    destruct (IH _ _ _ Hf1 Hall El) as [H1 H2].
    split; [ exact H1 | ]. constructor; [ exact Hc | exact H2 ].
Qed.

(** X19.  The first push creates the file and the later ones update it:
    with no file id, a valid token and a configuration that is an object, when
    the listing has no file and the upload is answered with an id, [push]
    makes the listing call and one POST, resolves with the answer, and keeps
    the id in the provider and in the saved configuration; after that, in
    every sequence of pushes that Drive answers with that id or with none,
    each push makes no listing call and at most one call, a PATCH of the file
    of that id, and the provider keeps the id. *)
Theorem push_creates_then_updates
    data find upload d token r1 listing r2 res fid props :
  truthy (Drive.fileId (Drive.self d)) = false ->
  Drive._tokenValid (Drive.clock find) (Drive.self d) = Some true ->
  Drive._tokenValid (Drive.clock upload) (Drive.self d) = Some true ->
  Drive.accessToken (Drive.self d) = VStr token ->
  Drive.syncConfig (Drive.conf d) = VObj props ->
  Drive.net find = Answered r1 ->
  Drive.json syntaxErrorMsg typeErrorMsg r1 = Resolved listing ->
  Drive.filesOf listing = Some [] ->
  Drive.net upload = Answered r2 ->
  Drive.json syntaxErrorMsg typeErrorMsg r2 = Resolved res ->
  field res "id" = Some (VStr fid) -> fid <> "" ->
  exists d',
    Drive.push syntaxErrorMsg typeErrorMsg data find upload d
    = Some (Drive.Result d' [Drive.listCall token; Drive.createCall token data]
              (Resolved res)) /\
    Drive.fileId (Drive.self d') = VStr fid /\
    Drive.localItem (Drive.conf d')
    = Some (Drive.Json (VObj (set_prop "fileId" (VStr fid) props))) /\
    forall later,
      forallb (fun p => Drive.namesFile fid (snd p)) later = true ->
      exists d'' sent,
        Drive.pushes syntaxErrorMsg typeErrorMsg later d' = Some (d'', sent) /\
        Drive.fileId (Drive.self d'') = VStr fid /\
        Forall2 (fun p cs =>
                   cs = [] \/
                   exists token', cs = [Drive.updateCall fid token' (fst (fst p))])
                later sent.
Proof.
  intros Hf Hv1 Hv2 Ht Hcfg Hn1 Hj1 Hfiles Hn2 Hj2 Hid Hne.
  assert (Htr : truthy (VStr fid) = true).
  { cbn. now destruct (String.eqb_spec fid ""). }
  eexists. split; [ | split; [ | split ] ].
  - unfold Drive.push, Drive._findFile. rewrite Hf.
    rewrite (fetch_valid _ _ _ _ _ _ token Hv1 Ht).
    cbn [Drive.settled Drive.after Drive.calls]. rewrite Hn1, Hj1, Hfiles.
    cbn [Drive.settled Drive.after Drive.calls]. unfold Drive.uploadUrl.
    rewrite Hf. rewrite (fetch_valid _ _ _ _ _ _ token Hv2 Ht).
    cbn [Drive.settled Drive.after Drive.calls]. rewrite Hn2, Hj2, Hid.
    replace (Drive.or_else VNull (Some (VStr fid))) with (VStr fid)
      by (unfold Drive.or_else; now rewrite Htr).
    rewrite Htr. unfold Drive.rememberFile, Drive.assign. rewrite Hcfg.
    cbn [fst snd app]. reflexivity.
  - reflexivity.
  - reflexivity.
  - intros later Hall.
    assert (He : exists e, Drive.tokenExpiry (Drive.self d) = VNum e).
    { unfold Drive._tokenValid in Hv1. rewrite Ht in Hv1.
      destruct (truthy (VStr token)); [ | discriminate Hv1 ].
      destruct (Drive.tokenExpiry (Drive.self d)); try discriminate Hv1.
      now eexists. }
    destruct He as [e He].
    match goal with
    | |- context [Drive.pushes _ _ later ?d0] =>
        destruct (pushes_return fid Hne later d0 token e
                    (set_prop "fileId" (VStr fid) props))
          as (d'' & sent & E);
          [ reflexivity | exact Ht | exact He | reflexivity | exact Hall | ];
        exists d'', sent; split; [ exact E | ];
        exact (pushes_keep_file fid Hne later d0 d'' sent eq_refl Hall E)
    end.
Qed.

Lemma or_else_idem d x :
  Drive.or_else d (Some (Drive.or_else d x)) = Drive.or_else d x.
Proof.
  unfold Drive.or_else. destruct x as [v | ].
  - destruct (truthy v) eqn:E; [ now rewrite E | now destruct (truthy d) ].
  - now destruct (truthy d).
Qed.

Lemma mirrored_fields d :
  Drive.mirrored d <->
  exists props,
    Drive.syncConfig (Drive.conf d) = VObj props /\
    Drive.localItem (Drive.conf d) = Some (Drive.Json (VObj props)) /\
    truthy (Drive.or_else VNull (lookup "provider" props)) = true /\
    Drive.or_else VNull (lookup "accessToken" props)
    = Drive.or_else VNull (Some (Drive.accessToken (Drive.self d))) /\
    Drive.or_else (VNum 0) (lookup "tokenExpiry" props)
    = Drive.or_else (VNum 0) (Some (Drive.tokenExpiry (Drive.self d))) /\
    Drive.or_else VNull (lookup "fileId" props)
    = Drive.or_else VNull (Some (Drive.fileId (Drive.self d))).
Proof.
  unfold Drive.mirrored, Drive.GoogleDriveProvider, Drive.normal. cbn [field].
  split; intros (props & H1 & H2 & H3 & H4); exists props;
    repeat split; try assumption.
  - now injection H4.
  - now injection H4.
  - now injection H4.
  - destruct H4 as (-> & -> & ->). reflexivity.
Qed.

Ltac lookups :=
  repeat first [ rewrite lookup_set_prop_eq
               | rewrite lookup_set_prop_neq by discriminate ].

Lemma rememberFile_mirrored i d m :
  Drive.mirrored d -> Drive.rememberFile i d = Some m ->
  Drive.mirrored (fst m) /\ snd m = true.
Proof.
  intros Hm. pose proof Hm as Hm'. apply mirrored_fields in Hm'.
  destruct Hm' as (props & H1 & H2 & H3 & H4 & H5 & H6).
  unfold Drive.rememberFile, Drive.assign. rewrite H1. intros [= <-].
  cbn [fst snd]. split; [ | reflexivity ]. apply mirrored_fields.
  exists (set_prop "fileId" i props).
  cbn [Drive.conf Drive.self Drive.syncConfig Drive.localItem
       Drive.saveSyncConfig Drive.accessToken Drive.tokenExpiry Drive.fileId].
  lookups. now repeat split.
Qed.

Lemma getToken_mirrored force x d d1 r :
  Drive.mirrored d -> Drive._getToken force x d = Some (d1, r) ->
  Drive.mirrored d1.
Proof.
  intros Hm. pose proof Hm as Hm'. apply mirrored_fields in Hm'.
  destruct Hm' as (props & H1 & H2 & H3 & H4 & H5 & H6).
  unfold Drive._getToken.
  destruct (if force then Some false
            else Drive._tokenValid (Drive.clock x) (Drive.self d)) as [[ | ] | ];
    [ | | discriminate ].
  - destruct (Drive.accessToken (Drive.self d)); try discriminate.
    now intros [= <- <-].
  - destruct (Drive.consent x) as [ | when resp ]; [ now intros [= <- <-] | ].
    destruct (negb (Drive.error resp =? "")%string); [ now intros [= <- <-] | ].
    unfold Drive.assign. rewrite H1. cbn [Drive.syncConfig]. intros [= <- <-].
    apply mirrored_fields.
    exists (set_prop "tokenExpiry" (VNum (when + Drive.expires_in resp * 1000))
              (set_prop "accessToken" (VStr (Drive.access_token resp)) props)).
    cbn [Drive.conf Drive.self Drive.syncConfig Drive.localItem
         Drive.saveSyncConfig Drive.accessToken Drive.tokenExpiry Drive.fileId].
    lookups. now repeat split.
Qed.

Lemma fetch_mirrored url m ct pl x d r :
  Drive.mirrored d -> Drive._fetch url m ct pl x d = Some r ->
  Drive.mirrored (Drive.after r).
Proof.
  intros Hm. unfold Drive._fetch.
  destruct (Drive._getToken false x d) as [[d1 t] | ] eqn:E; [ | discriminate ].
  apply (getToken_mirrored _ _ _ _ _ Hm) in E. cbn [fst snd].
  destruct t; now intros [= <-].
Qed.

Lemma findFile_mirrored x d r :
  Drive.mirrored d ->
  Drive._findFile syntaxErrorMsg typeErrorMsg x d = Some r ->
  Drive.mirrored (Drive.after r).
Proof.
  intros Hm. unfold Drive._findFile.
  destruct (truthy (Drive.fileId (Drive.self d))); [ now intros [= <-] | ].
  destruct (Drive._fetch _ _ _ _ x d) as [f | ] eqn:E; [ | discriminate ].
  apply (fetch_mirrored _ _ _ _ _ _ _ Hm) in E.
  destruct (Drive.settled f) as [resp | msg]; [ | now intros [= <-] ].
  destruct (Drive.json _ _ resp) as [data | msg]; [ | now intros [= <-] ].
  destruct (Drive.filesOf data) as [[ | file files] | ];
    [ now intros [= <-] | | discriminate ].
  assert (Hfile : (i <- field file "id" ;;
                   m <- Drive.rememberFile i (Drive.after f) ;;
                   Some (Drive.Result (fst m) (Drive.calls f)
                           (if snd m then Resolved i else Failed typeErrorMsg)))
                  = Some r -> Drive.mirrored (Drive.after r)).
  { destruct (field file "id") as [i | ]; [ | discriminate ].
    destruct (Drive.rememberFile i (Drive.after f)) as [m | ] eqn:Em;
      [ | discriminate ].
    apply (rememberFile_mirrored _ _ _ E) in Em. intros [= <-]. apply Em. }
  destruct file; first [ now intros [= <-] | exact Hfile ].
Qed.

Lemma push_mirrored data x1 x2 d r :
  Drive.mirrored d ->
  Drive.push syntaxErrorMsg typeErrorMsg data x1 x2 d = Some r ->
  Drive.mirrored (Drive.after r).
Proof.
  intros Hm. unfold Drive.push.
  destruct (Drive._findFile _ _ x1 d) as [f | ] eqn:E; [ | discriminate ].
  apply (findFile_mirrored _ _ _ Hm) in E.
  destruct (Drive.settled f) as [fid | msg]; [ | now intros [= <-] ].
  destruct (Drive.uploadUrl fid) as [url | ]; [ | discriminate ].
  destruct (Drive._fetch _ _ _ _ x2 (Drive.after f)) as [u | ] eqn:Eu;
    [ | discriminate ].
  apply (fetch_mirrored _ _ _ _ _ _ _ E) in Eu. cbv zeta.
  destruct (Drive.settled u) as [resp | msg]; [ | now intros [= <-] ].
  destruct (Drive.json _ _ resp) as [res | msg]; [ | now intros [= <-] ].
  destruct (truthy (Drive.or_else VNull (field res "id"))); [ | now intros [= <-] ].
  destruct (Drive.rememberFile _ (Drive.after u)) as [m | ] eqn:Em;
    [ | discriminate ].
  apply (rememberFile_mirrored _ _ _ Eu) in Em. intros [= <-]. apply Em.
Qed.

Lemma pull_mirrored x1 x2 d r :
  Drive.mirrored d ->
  Drive.pull syntaxErrorMsg typeErrorMsg x1 x2 d = Some r ->
  Drive.mirrored (Drive.after r).
Proof.
  intros Hm. unfold Drive.pull.
  destruct (Drive._findFile _ _ x1 d) as [f | ] eqn:E; [ | discriminate ].
  apply (findFile_mirrored _ _ _ Hm) in E.
  destruct (Drive.settled f) as [fid | msg]; [ | now intros [= <-] ].
  destruct (negb (truthy fid)); [ now intros [= <-] | ].
  destruct (Drive.mediaUrl fid) as [url | ]; [ | discriminate ].
  destruct (Drive._fetch _ _ _ _ x2 (Drive.after f)) as [u | ] eqn:Eu;
    [ | discriminate ].
  apply (fetch_mirrored _ _ _ _ _ _ _ E) in Eu. cbv zeta.
  destruct (Drive.settled u) as [resp | msg]; [ | now intros [= <-] ].
  destruct (negb (ok resp)); [ now intros [= <-] | ].
  destruct (body resp); now intros [= <-].
Qed.

(** X20.  The saved configuration follows the provider, so that a reload
    of the page finds the connection again.  After [_connectGoogle] the
    configuration in [localStorage] is the text of [syncConfig], which names a
    provider and holds the token and the expiry of the provider in use, with
    no file id; every [push] and [pull] keeps it so, the file id included once
    there is one; then [init] loads that configuration and makes a provider
    with the same token, expiry and file id (a value that is not truthy read
    back as null, or as 0 for the expiry); after [clearSyncConfig], as in
    [_deactivate], [init] makes no provider; and a saved text that is not
    JSON loads as no configuration, with no provider. *)
Theorem saved_configuration_mirrors_provider :
  (forall info c d,
      Drive.connected info c = Some d ->
      Drive.mirrored d /\ Drive.fileId (Drive.self d) = VNull) /\
  (forall d, Drive.mirrored d ->
      (forall data x1 x2 r,
          Drive.push syntaxErrorMsg typeErrorMsg data x1 x2 d = Some r ->
          Drive.mirrored (Drive.after r)) /\
      (forall x1 x2 r,
          Drive.pull syntaxErrorMsg typeErrorMsg x1 x2 d = Some r ->
          Drive.mirrored (Drive.after r)) /\
      Drive.init (Drive.conf d)
      = Some (Drive.conf d, Some (Drive.normal (Drive.self d)))) /\
  (forall c, Drive.init (Drive.clearSyncConfig c)
             = Some (Drive.Config VNull None, None)) /\
  (forall v, Drive.init (Drive.Config v (Some Drive.NotJson))
             = Some (Drive.Config VNull (Some Drive.NotJson), None)).
Proof.
  split; [ | split; [ | split; [ | reflexivity ] ] ].
  - intros info c d. unfold Drive.connected.
    assert (H : forall e n a t p,
               Drive.GoogleDriveProvider
                 (VObj (Drive.defined
                    [("provider", Some (VStr "google_drive"));
                     ("accountEmail", e); ("accountName", n);
                     ("accessToken", a); ("tokenExpiry", t);
                     ("fileId", Some VNull)])) = Some p ->
               Drive.mirrored
                 (Drive.Session p
                    (Drive.saveSyncConfig
                       (Drive.Config
                          (VObj (Drive.defined
                             [("provider", Some (VStr "google_drive"));
                              ("accountEmail", e); ("accountName", n);
                              ("accessToken", a); ("tokenExpiry", t);
                              ("fileId", Some VNull)]))
                          (Drive.localItem c)))) /\
               Drive.fileId p = VNull).
    { intros e n a t p.
      destruct e, n, a, t; intros [= <-]; (split; [ | reflexivity ]);
        apply mirrored_fields; eexists;
        (split; [ reflexivity | ]); (split; [ reflexivity | ]);
        (split; [ reflexivity | ]);
        cbn; repeat split;
        repeat match goal with
          | |- context [truthy ?v] =>
              let T := fresh "T" in destruct (truthy v) eqn:T; cbn; rewrite ?T
          end; reflexivity. }
    destruct info; try discriminate;
      match goal with
      | |- (p <- ?g ;; _) = _ -> _ =>
          destruct g as [p | ] eqn:E; [ | discriminate ]
      end; intros [= <-]; exact (H _ _ _ _ _ E).
  - intros d Hm. split; [ | split ].
    + intros data x1 x2 r. now apply push_mirrored.
    + intros x1 x2 r. now apply pull_mirrored.
    + destruct Hm as (props & H1 & H2 & H3 & H4).
      unfold Drive.init, Drive.loadSyncConfig. rewrite H2.
      cbn [Drive.syncConfig truthy andb field]. rewrite H3, H4.
      destruct (Drive.conf d) as [sc li]. cbn in H1, H2. now subst.
  - reflexivity.
Qed.

Lemma rememberFile_token i d m :
  Drive.rememberFile i d = Some m ->
  Drive.accessToken (Drive.self (fst m)) = Drive.accessToken (Drive.self d) /\
  Drive.tokenExpiry (Drive.self (fst m)) = Drive.tokenExpiry (Drive.self d).
Proof.
  unfold Drive.rememberFile.
  destruct (Drive.assign "fileId" i (Drive.conf d)) as [[c | ] | ];
    [ | | discriminate ]; intros [= <-]; now split.
Qed.

(** X21.  The download with the state of the provider agrees with the
    download of C6: with a token that is valid at both requests and a
    configuration that is an object, [pull] settles as the [pull] on the file
    id in hand and the two answers of the network does. *)
Theorem stateful_pull_agrees find download d token props r :
  Drive.accessToken (Drive.self d) = VStr token ->
  Drive._tokenValid (Drive.clock find) (Drive.self d) = Some true ->
  Drive._tokenValid (Drive.clock download) (Drive.self d) = Some true ->
  Drive.syncConfig (Drive.conf d) = VObj props ->
  Drive.pull syntaxErrorMsg typeErrorMsg find download d = Some r ->
  Drive.settled r
  = pull syntaxErrorMsg typeErrorMsg (Drive.fileId (Drive.self d))
      (Drive.net find) (Drive.net download).
Proof.
  intros Ht Hv1 Hv2 Hcfg. unfold Drive.pull, pull.
  assert (Hfind : forall f,
    Drive._findFile syntaxErrorMsg typeErrorMsg find d = Some f ->
    Drive.settled f
    = findFile syntaxErrorMsg typeErrorMsg (Drive.fileId (Drive.self d))
        (Drive.net find) /\
    Drive.accessToken (Drive.self (Drive.after f)) = VStr token /\
    Drive._tokenValid (Drive.clock download) (Drive.self (Drive.after f))
    = Some true).
  { intros f. unfold Drive._findFile, findFile.
    destruct (truthy (Drive.fileId (Drive.self d))) eqn:Ef.
    - intros [= <-]. now repeat split.
    - rewrite (fetch_valid _ _ _ _ _ _ token Hv1 Ht).
      cbn [Drive.settled Drive.after Drive.calls].
      destruct (Drive.net find) as [msg | resp]; [ intros [= <-]; now repeat split | ].
      unfold Drive.json. destruct (body resp) as [data | ];
        [ | intros [= <-]; now repeat split ].
      assert (Hdata :
        (files <- Drive.filesOf data ;;
         match files with
         | [] => Some (Drive.Result d [Drive.Call Drive.listUrl None None
                         ("Bearer " ++ token)%string None]
                        (Resolved (Drive.fileId (Drive.self d))))
         | VNull :: _ =>
             Some (Drive.Result d [Drive.Call Drive.listUrl None None
                         ("Bearer " ++ token)%string None] (Failed typeErrorMsg))
         | file :: _ =>
             i <- field file "id" ;;
             m <- Drive.rememberFile i d ;;
             Some (Drive.Result (fst m) [Drive.Call Drive.listUrl None None
                         ("Bearer " ++ token)%string None]
                     (if snd m then Resolved i else Failed typeErrorMsg))
         end) = Some f ->
        Drive.settled f
        = match field data "files" with
          | Some (VArr (VNull :: _)) => Failed typeErrorMsg
          | Some (VArr (f0 :: _)) =>
              Resolved (match field f0 "id" with Some i => i | None => VNull end)
          | _ => Resolved (Drive.fileId (Drive.self d))
          end /\
        Drive.accessToken (Drive.self (Drive.after f)) = VStr token /\
        Drive._tokenValid (Drive.clock download) (Drive.self (Drive.after f))
        = Some true).
      { unfold Drive.filesOf.
        assert (Hfile : forall file,
          (i <- field file "id" ;;
           m <- Drive.rememberFile i d ;;
           Some (Drive.Result (fst m) [Drive.Call Drive.listUrl None None
                       ("Bearer " ++ token)%string None]
                   (if snd m then Resolved i else Failed typeErrorMsg))) = Some f ->
          Drive.settled f
          = Resolved (match field file "id" with Some i => i | None => VNull end) /\
          Drive.accessToken (Drive.self (Drive.after f)) = VStr token /\
          Drive._tokenValid (Drive.clock download) (Drive.self (Drive.after f))
          = Some true).
        { intros file. destruct (field file "id") as [i | ]; [ | discriminate ].
          destruct (Drive.rememberFile i d) as [m | ] eqn:Em; [ | discriminate ].
          destruct (rememberFile_token _ _ _ Em) as [T1 T2].
          unfold Drive.rememberFile, Drive.assign in Em. rewrite Hcfg in Em.
          injection Em as <-. intros [= <-]. cbn. repeat split; assumption. }
        destruct (field data "files") as [ [ | b | n | s | l | o ] | ];
          try (intros [= <-]; now repeat split).
        - destruct (s =? "")%string; [ intros [= <-]; now repeat split | discriminate ].
        - destruct l as [ | file l ]; [ intros [= <-]; now repeat split | ].
          destruct file; first [ intros [= <-]; now repeat split | apply Hfile ].
        - destruct (lookup "length" o); [ discriminate | ].
          intros [= <-]; now repeat split. }
      destruct data; first [ intros [= <-]; now repeat split | exact Hdata ]. }
  destruct (Drive._findFile syntaxErrorMsg typeErrorMsg find d) as [f | ];
    [ | discriminate ].
  destruct (Hfind f eq_refl) as (<- & Ht' & Hv'). clear Hfind.
  destruct (Drive.settled f) as [fid | msg]; [ | now intros [= <-] ].
  destruct (truthy fid) eqn:Efid; cbn [negb]; [ | now intros [= <-] ].
  destruct (Drive.mediaUrl fid) as [url | ]; [ | discriminate ].
  rewrite (fetch_valid _ _ _ _ _ _ token Hv' Ht').
  cbn [Drive.settled Drive.after Drive.calls]. cbv zeta.
  destruct (Drive.net download) as [msg | resp]; [ now intros [= <-] | ].
  destruct (negb (ok resp)); [ now intros [= <-] | ].
  destruct (body resp); now intros [= <-].
Qed.

Lemma account_fields e n token expiry :
  lookup "accessToken"
    (Drive.defined [("email", e); ("name", n);
                    ("accessToken", Some token); ("tokenExpiry", Some expiry)])
  = Some token /\
  lookup "tokenExpiry"
    (Drive.defined [("email", e); ("name", n);
                    ("accessToken", Some token); ("tokenExpiry", Some expiry)])
  = Some expiry /\
  lookup "email"
    (Drive.defined [("email", e); ("name", n);
                    ("accessToken", Some token); ("tokenExpiry", Some expiry)])
  = e /\
  lookup "name"
    (Drive.defined [("email", e); ("name", n);
                    ("accessToken", Some token); ("tokenExpiry", Some expiry)])
  = n.
Proof. destruct e, n; now repeat split. Qed.

Lemma config_fields e n token expiry :
  let props :=
    Drive.defined [("provider", Some (VStr "google_drive"));
                   ("accountEmail", e); ("accountName", n);
                   ("accessToken", Some token); ("tokenExpiry", Some expiry);
                   ("fileId", Some VNull)] in
  lookup "accessToken" props = Some token /\
  lookup "tokenExpiry" props = Some expiry /\
  lookup "fileId" props = Some VNull /\
  lookup "accountEmail" props = e /\
  lookup "accountName" props = n.
Proof. destruct e, n; now repeat split. Qed.

(** X22.  A connection holds what the sign-in was granted: when the token
    client grants a token and the request of the account is answered with a
    JSON object, [signIn] makes that one request, with the token as bearer,
    and resolves; [_connectGoogle] then writes a configuration with the
    e-mail and the name of the account, the token and its expiry and no file
    id, whatever was configured before, and the provider it makes has that
    token, that expiry and no file id. *)
Theorem connection_holds_the_granted_token x p when resp r account c :
  Drive.consent x = Drive.Responds when resp ->
  Drive.error resp = "" -> Drive.access_token resp <> "" ->
  Drive.net x = Answered r ->
  Drive.json syntaxErrorMsg typeErrorMsg r = Resolved account ->
  exists info d,
    Drive.signIn syntaxErrorMsg typeErrorMsg x p
    = (Drive.Provider (VStr (Drive.access_token resp))
         (VNum (when + Drive.expires_in resp * 1000)) (Drive.fileId p),
       [Drive.Call "https://www.googleapis.com/oauth2/v3/userinfo" None None
          ("Bearer " ++ Drive.access_token resp)%string None],
       Resolved info) /\
    Drive.connected info c = Some d /\
    Drive.accessToken (Drive.self d) = VStr (Drive.access_token resp) /\
    Drive.tokenExpiry (Drive.self d)
    = Drive.or_else (VNum 0) (Some (VNum (when + Drive.expires_in resp * 1000))) /\
    Drive.fileId (Drive.self d) = VNull /\
    field (Drive.syncConfig (Drive.conf d)) "accountEmail" = field account "email" /\
    field (Drive.syncConfig (Drive.conf d)) "accountName" = field account "name" /\
    Drive.localItem (Drive.conf d) = Some (Drive.Json (Drive.syncConfig (Drive.conf d))).
Proof.
  intros Hc He Ht Hn Hj.
  assert (Htr : truthy (VStr (Drive.access_token resp)) = true).
  { cbn. now destruct (String.eqb_spec (Drive.access_token resp) ""). }
  eexists. eexists. split.
  { unfold Drive.signIn. rewrite Hc, He, Hn, Hj. reflexivity. }
  destruct (account_fields (field account "email") (field account "name")
              (VStr (Drive.access_token resp))
              (VNum (when + Drive.expires_in resp * 1000))) as (A & B & C & D).
  destruct (config_fields (field account "email") (field account "name")
              (VStr (Drive.access_token resp))
              (VNum (when + Drive.expires_in resp * 1000)))
    as (A' & B' & C' & D' & E').
  unfold Drive.connected, Drive.GoogleDriveProvider. cbn [field].
  rewrite A, B, C, D, A', B', C'.
  split; [ reflexivity | ].
  cbn [Drive.self Drive.conf Drive.accessToken Drive.tokenExpiry Drive.fileId
       Drive.syncConfig Drive.localItem Drive.saveSyncConfig field].
  rewrite D', E'. unfold Drive.or_else at 1 3. rewrite Htr. now repeat split.
Qed.

End DriveProps.

Lemma token_reused_until_a_minute_before_expiry_witness :
  exists d1,
    Drive._getToken false grant unsigned = Some (d1, Resolved "tok") /\
    forall y,
      (Drive.clock y < 1000 + 3600 * 1000 - 60000 ->
       Drive._getToken false y d1 = Some (d1, Resolved "tok")) /\
      (1000 + 3600 * 1000 - 60000 <= Drive.clock y ->
       Drive._tokenValid (Drive.clock y) (Drive.self d1) = Some false /\
       (Drive.consent y = Drive.ScriptFails ->
        Drive._getToken false y d1
        = Some (d1, Failed "Failed to load Google Identity Services"))).
Proof.
  apply (token_reused_until_a_minute_before_expiry grant unsigned 1000
           (Drive.TokenResponse "" "tok" 3600)
           [("provider", VStr "google_drive")]);
    try reflexivity.
  discriminate.
Defined.

Lemma push_resolves_whatever_the_status_witness :
  Drive.push "SyntaxError" "TypeError" (document (profile true 100))
    (answers 1000 false unauthorized) (answers 1001 false unauthorized)
    (signedIn (VStr "f1"))
  = Some (Drive.Result (signedIn (VStr "f1"))
            [Drive.updateCall "f1" "tok" (document (profile true 100))]
            (Resolved unauthorized)) /\
  exists c',
    step pk "TypeError" (busy (document (profile true 100)))
      (Settle 0 (Resolved unauthorized) 1002) = Some c' /\
    stored c' = Some (document (profile true 100)) /\
    currentState c' = synced /\
    pendingChanges c' = false.
Proof.
  apply (push_resolves_whatever_the_status "SyntaxError" "TypeError" pk
           (document (profile true 100))
           (answers 1000 false unauthorized) (answers 1001 false unauthorized)
           (signedIn (VStr "f1")) "f1" "tok" (Response false (Some unauthorized))
           unauthorized 1002 (busy (document (profile true 100))) 0);
    try reflexivity; discriminate.
Defined.

Lemma push_creates_then_updates_witness :
  exists d' d'' sent,
    Drive.push "SyntaxError" "TypeError" (document (profile true 100))
      (answers 1000 true (VObj [("files", VArr [])]))
      (answers 1001 true (VObj [("id", VStr "f1")])) (signedIn VNull)
    = Some (Drive.Result d'
              [Drive.listCall "tok";
               Drive.createCall "tok" (document (profile true 100))]
              (Resolved (VObj [("id", VStr "f1")]))) /\
    Drive.pushes "SyntaxError" "TypeError" laterPushes d' = Some (d'', sent) /\
    Drive.fileId (Drive.self d'') = VStr "f1" /\
    Forall2 (fun p cs =>
               cs = [] \/
               exists token', cs = [Drive.updateCall "f1" token' (fst (fst p))])
            laterPushes sent.
Proof.
  destruct (push_creates_then_updates "SyntaxError" "TypeError"
              (document (profile true 100))
              (answers 1000 true (VObj [("files", VArr [])]))
              (answers 1001 true (VObj [("id", VStr "f1")])) (signedIn VNull) "tok"
              (Response true (Some (VObj [("files", VArr [])])))
              (VObj [("files", VArr [])])
              (Response true (Some (VObj [("id", VStr "f1")])))
              (VObj [("id", VStr "f1")]) "f1"
              [("provider", VStr "google_drive"); ("accessToken", VStr "tok");
               ("tokenExpiry", VNum 5000000); ("fileId", VNull)])
    as (d' & H1 & _ & _ & H4); try reflexivity; [ discriminate | ].
  destruct (H4 laterPushes eq_refl) as (d'' & sent & E & H5 & H6).
  now exists d', d'', sent.
Defined.

Lemma saved_configuration_mirrors_provider_witness :
  Drive.init (Drive.conf (signedIn (VStr "f1")))
  = Some (Drive.conf (signedIn (VStr "f1")),
          Some (Drive.normal (Drive.self (signedIn (VStr "f1"))))).
Proof.
  apply (proj1 (proj2 (saved_configuration_mirrors_provider
                         "SyntaxError" "TypeError")) (signedIn (VStr "f1"))).
  eexists. repeat split.
Defined.

Lemma stateful_pull_agrees_witness :
  Drive.settled pulledFile
  = pull "SyntaxError" "TypeError" (VStr "f1")
      (Drive.net (answers 1000 true unauthorized)) (Drive.net download).
Proof.
  apply (stateful_pull_agrees "SyntaxError" "TypeError"
           (answers 1000 true unauthorized) download (signedIn (VStr "f1")) "tok"
           [("provider", VStr "google_drive"); ("accessToken", VStr "tok");
            ("tokenExpiry", VNum 5000000); ("fileId", VStr "f1")]);
    vm_compute; reflexivity.
Defined.

Lemma connection_holds_the_granted_token_witness :
  exists info d,
    Drive.signIn "SyntaxError" "TypeError"
      (Drive.Exchange 1000 (Drive.Responds 1000 (Drive.TokenResponse "" "tok" 3600))
         (Answered (Response true (Some (VObj [("email", VStr "a@b.c")])))))
      (Drive.Provider VNull (VNum 0) VNull)
    = (Drive.Provider (VStr "tok") (VNum (1000 + 3600 * 1000)) VNull,
       [Drive.Call "https://www.googleapis.com/oauth2/v3/userinfo" None None
          ("Bearer " ++ "tok")%string None],
       Resolved info) /\
    Drive.connected info (Drive.conf (signedIn (VStr "f1"))) = Some d /\
    Drive.accessToken (Drive.self d) = VStr "tok" /\
    Drive.tokenExpiry (Drive.self d)
    = Drive.or_else (VNum 0) (Some (VNum (1000 + 3600 * 1000))) /\
    Drive.fileId (Drive.self d) = VNull /\
    field (Drive.syncConfig (Drive.conf d)) "accountEmail"
    = field (VObj [("email", VStr "a@b.c")]) "email" /\
    field (Drive.syncConfig (Drive.conf d)) "accountName"
    = field (VObj [("email", VStr "a@b.c")]) "name" /\
    Drive.localItem (Drive.conf d) = Some (Drive.Json (Drive.syncConfig (Drive.conf d))).
Proof.
  apply (connection_holds_the_granted_token "SyntaxError" "TypeError"
           (Drive.Exchange 1000
              (Drive.Responds 1000 (Drive.TokenResponse "" "tok" 3600))
              (Answered (Response true (Some (VObj [("email", VStr "a@b.c")])))))
           (Drive.Provider VNull (VNum 0) VNull) 1000
           (Drive.TokenResponse "" "tok" 3600)
           (Response true (Some (VObj [("email", VStr "a@b.c")])))
           (VObj [("email", VStr "a@b.c")]) (Drive.conf (signedIn (VStr "f1"))));
    try reflexivity.
  discriminate.
Defined.
